(** * Provisioning simulator, poller and contractor workflows

    A shallow embedding of the in-memory SailPoint simulation
    (simulateCreateAccount, simulateGetTaskStatus, simulateSearchIdentity,
    simulateListAccountsByIdentity, simulateDisableAccount,
    simulateSetLifecycleState, findIdentityById) and of the contractor
    routes built on it (pollTaskStatus, POST /onboard, POST /offboard).

    The two module-level JS objects used as maps are kept as insertion-ordered
    association lists from keys to references into one heap of objects: the
    identity created by simulateCreateAccount is stored under two keys and
    must stay one object, and for-in scans depend on the enumeration order.
    Logging and the token cache of getAccessToken touch neither store and are
    left out; every Date.now() read is an explicit argument. Property lookup
    on the stores is lookup of own keys; the names of Object.prototype
    members, which a lookup on a plain object also finds, are set apart by
    [plainKey]. *)

From stdpp Require Import base option list strings pretty.

Open Scope string_scope.
Open Scope nat_scope.
Open Scope list_scope.

(** ** JavaScript values that occur in the code *)

Module JS.

(** A value that is either a string or [undefined]. *)
Abbreviation Str := (option string) (only parsing).

(** Template-literal / property-key conversion. *)
Definition toStr (v : Str) : string := default "undefined" v.

(** Truthiness of a string-or-undefined value. *)
Definition truthy (v : Str) : bool :=
  match v with
  | Some s => bool_decide (s ≠ "")
  | None => false
  end.

(** [a || b] on string-or-undefined values. *)
Definition or (a b : Str) : Str := if truthy a then a else b.

Inductive Error :=
| TypeError (message : string)
| ApiError (statusCode : nat) (message : string).

(** Completion of a call: it returns or it throws. *)
Inductive Completion (A : Type) :=
| Returned (a : A)
| Threw (e : Error).
Global Arguments Returned {A} a.
Global Arguments Threw {A} e.

End JS.

Import JS.

(** ** Data model *)

Inductive TaskStatus := QUEUED | PROCESSING | COMPLETED.
Inductive AccountStatus := enabled | disabled.

Global Instance TaskStatus_eq_dec : EqDecision TaskStatus.
Proof. solve_decision. Defined.
Global Instance AccountStatus_eq_dec : EqDecision AccountStatus.
Proof. solve_decision. Defined.

(** A plain JS object with string values; later writes of a key keep its
    position (object spread and property assignment). *)
Abbreviation Attributes := (list (string * string)) (only parsing).

Fixpoint attr_get (k : string) (a : Attributes) : Str :=
  match a with
  | [] => None
  | (k', v) :: a' => if decide (k' = k) then Some v else attr_get k a'
  end.

Fixpoint attr_set (k v : string) (a : Attributes) : Attributes :=
  match a with
  | [] => [(k, v)]
  | (k', v') :: a' =>
      if decide (k' = k) then (k, v) :: a' else (k', v') :: attr_set k v a'
  end.

Record AccountData := {
  sourceId : string;
  attributes : Attributes;
}.

Record Account := {
  acc_id : string;
  nativeIdentity : string;
  acc_sourceId : string;
  sourceName : string;
  acc_status : AccountStatus;
}.

Record AccessItem := {
  ai_id : string;
  ai_type : string;
  ai_name : string;
  ai_description : string;
}.

(** An object held by one of the stores. Identities and task records are
    both plain objects in the source and the lifecycle tasks live in the
    identities store, so one record with optional properties covers both;
    [None] is an absent property. *)
Record Obj := {
  o_id : Str;
  o_name : Str;
  o_email : Str;
  o_attributes : option Attributes;
  o_lifecycleState : Str;
  o_manager : option (string * string);
  o_sourceAccountId : Str;
  o_accounts : option (list Account);
  o_access : option (list AccessItem);
  o_status : option TaskStatus;
  o_accountId : Str;
  o_accountData : option AccountData;
  o_identityId : Str;
  o_type : Str;
}.

Definition emptyObj : Obj :=
  {| o_id := None; o_name := None; o_email := None; o_attributes := None;
     o_lifecycleState := None; o_manager := None; o_sourceAccountId := None;
     o_accounts := None; o_access := None; o_status := None;
     o_accountId := None; o_accountData := None; o_identityId := None;
     o_type := None |}.

Definition set_status (st : TaskStatus) (o : Obj) : Obj :=
  {| o_id := o_id o; o_name := o_name o; o_email := o_email o;
     o_attributes := o_attributes o; o_lifecycleState := o_lifecycleState o;
     o_manager := o_manager o; o_sourceAccountId := o_sourceAccountId o;
     o_accounts := o_accounts o; o_access := o_access o;
     o_status := Some st;
     o_accountId := o_accountId o; o_accountData := o_accountData o;
     o_identityId := o_identityId o; o_type := o_type o |}.

Definition set_lifecycleState (l : string) (o : Obj) : Obj :=
  {| o_id := o_id o; o_name := o_name o; o_email := o_email o;
     o_attributes := o_attributes o; o_lifecycleState := Some l;
     o_manager := o_manager o; o_sourceAccountId := o_sourceAccountId o;
     o_accounts := o_accounts o; o_access := o_access o;
     o_status := o_status o;
     o_accountId := o_accountId o; o_accountData := o_accountData o;
     o_identityId := o_identityId o; o_type := o_type o |}.

Definition set_accounts (l : option (list Account)) (o : Obj) : Obj :=
  {| o_id := o_id o; o_name := o_name o; o_email := o_email o;
     o_attributes := o_attributes o; o_lifecycleState := o_lifecycleState o;
     o_manager := o_manager o; o_sourceAccountId := o_sourceAccountId o;
     o_accounts := l; o_access := o_access o;
     o_status := o_status o;
     o_accountId := o_accountId o; o_accountData := o_accountData o;
     o_identityId := o_identityId o; o_type := o_type o |}.

Definition set_acc_status (st : AccountStatus) (a : Account) : Account :=
  {| acc_id := acc_id a; nativeIdentity := nativeIdentity a;
     acc_sourceId := acc_sourceId a; sourceName := sourceName a;
     acc_status := st |}.

(** ** Stores and heap *)

(** The property names of Object.prototype. The stores are plain objects:
    in the source a lookup [store[k]] with one of these names finds the
    inherited member when the store has no such key of its own. The stores
    are modelled by their own keys, so a statement about an id that the
    caller chooses freely and that no lookup finds is made for ids that
    are none of these names ([plainKey]). Generated ids and stored keys are
    none of them. *)
Definition objectPrototypeNames : list string :=
  ["constructor"; "__proto__"; "hasOwnProperty"; "isPrototypeOf";
   "propertyIsEnumerable"; "toLocaleString"; "toString"; "valueOf";
   "__defineGetter__"; "__defineSetter__"; "__lookupGetter__"; "__lookupSetter__"].

Definition plainKey (k : string) : Prop := k ∉ objectPrototypeNames.

Abbreviation Ref := nat (only parsing).
Abbreviation Store := (list (string * nat)) (only parsing).

Fixpoint store_get (k : string) (st : Store) : option Ref :=
  match st with
  | [] => None
  | (k', r) :: st' => if decide (k' = k) then Some r else store_get k st'
  end.

(** [store[k] = r]: an existing key keeps its place, a new one goes last. *)
Fixpoint store_set (k : string) (r : Ref) (st : Store) : Store :=
  match st with
  | [] => [(k, r)]
  | (k', r') :: st' =>
      if decide (k' = k) then (k, r) :: st' else (k', r') :: store_set k r st'
  end.

Record State := {
  heap : list Obj;
  simulatedAccountsStore : Store;
  simulatedIdentitiesStore : Store;
  accountCounter : nat;
  identityCounter : nat;
}.

Definition deref (s : State) (r : Ref) : option Obj := heap s !! r.

Definition with_heap (h : list Obj) (s : State) : State :=
  {| heap := h;
     simulatedAccountsStore := simulatedAccountsStore s;
     simulatedIdentitiesStore := simulatedIdentitiesStore s;
     accountCounter := accountCounter s;
     identityCounter := identityCounter s |}.

(** In-place mutation of the object behind a reference. *)
Definition mutate (r : Ref) (f : Obj → Obj) (s : State) : State :=
  with_heap (alter f r (heap s)) s.

(** The value of [store[k]]: the object and the reference it is reached by. *)
Definition store_obj (s : State) (st : Store) (k : string) : option (Ref * Obj) :=
  r ← store_get k st; o ← deref s r; Some (r, o).

(** ** Responses *)

Inductive TaskResult :=
| AccountResult (accountId : Str) (identityId : Str) (srcName : string) (status : string)
| GenericResult (status : string) (message : string).

Record TaskInfo := {
  ti_id : Str;
  ti_type : string;
  ti_name : Str;
  ti_status : option TaskStatus;
  ti_result : option TaskResult;
}.

Inductive TaskData :=
| DataMessage (message : string)
| DataTask (t : TaskInfo).

Record TaskResponse := {
  resp_status : nat;
  resp_data : TaskData;
}.

(** [response.data.id], [response.data.status], [response.data.result]. *)
Definition data_id (d : TaskData) : Str :=
  match d with DataTask t => ti_id t | DataMessage _ => None end.
Definition data_status (d : TaskData) : option TaskStatus :=
  match d with DataTask t => ti_status t | DataMessage _ => None end.
Definition data_result (d : TaskData) : option TaskResult :=
  match d with DataTask t => ti_result t | DataMessage _ => None end.

Definition result_accountId (r : TaskResult) : Str :=
  match r with AccountResult a _ _ _ => a | GenericResult _ _ => None end.
Definition result_identityId (r : TaskResult) : Str :=
  match r with AccountResult _ i _ _ => i | GenericResult _ _ => None end.

(** The element of a search result list. *)
Record IdentityView := {
  v_id : Str;
  v_name : Str;
  v_attributes : option Attributes;
  v_lifecycleState : Str;
  v_manager : option (string * string);
  v_accounts : option (list Account);
}.

Record SearchResponse := {
  sr_status : nat;
  sr_data : list IdentityView;
}.

Record QueryParams := {
  q_email : Str;
  q_accountId : Str;
  q_identityId : Str;
}.

(** ** Identifiers *)

Definition accountIdOf (n : nat) : string := "simulated-accountId-" +:+ pretty n.
Definition identityIdOf (n : nat) : string := "simulated-identityId-" +:+ pretty n.
Definition creationTaskId (now : nat) : string := "account-creation-task-" +:+ pretty now.
Definition disableTaskId (now : nat) : string := "disable-account-task-" +:+ pretty now.
Definition lcsTaskId (now : nat) : string := "set-lcs-task-" +:+ pretty now.

(** ** Module initialisation: the two seeded identities *)

Definition managerIdentityId : string := identityIdOf 0.
Definition user1IdentityId : string := identityIdOf 1.

Definition managerIdentity : Obj :=
  {| o_id := Some managerIdentityId; o_name := Some "Jane Manager";
     o_email := Some "jane.manager@example.com";
     o_attributes := Some [("displayName", "Jane Manager");
                           ("mail", "jane.manager@example.com");
                           ("department", "Management")];
     o_lifecycleState := Some "active"; o_manager := None;
     o_sourceAccountId := None;
     o_accounts := Some [ {| acc_id := "sim-acc-mgr-" +:+ pretty 0;
                             nativeIdentity := "janemgr"; acc_sourceId := "AD";
                             sourceName := "Active Directory";
                             acc_status := enabled |} ];
     o_access := Some [];
     o_status := None; o_accountId := None; o_accountData := None;
     o_identityId := None; o_type := None |}.

Definition user1Identity : Obj :=
  {| o_id := Some user1IdentityId; o_name := Some "John Doe User";
     o_email := Some "john.doe.user@example.com";
     o_attributes := Some [("displayName", "John Doe User");
                           ("mail", "john.doe.user@example.com");
                           ("department", "IT"); ("title", "Developer")];
     o_lifecycleState := Some "active";
     o_manager := Some (managerIdentityId, "Jane Manager");
     o_sourceAccountId := None;
     o_accounts := Some [ {| acc_id := "sim-acc-jd1-" +:+ pretty 1;
                             nativeIdentity := "johndoe"; acc_sourceId := "AD";
                             sourceName := "Active Directory";
                             acc_status := enabled |};
                          {| acc_id := "sim-acc-jd2-" +:+ pretty 2;
                             nativeIdentity := "jdoe";
                             acc_sourceId := "Salesforce";
                             sourceName := "Salesforce CRM";
                             acc_status := enabled |} ];
     o_access := Some [ {| ai_id := "ap-contractor-base";
                           ai_type := "ACCESS_PROFILE";
                           ai_name := "Contractor Base Access";
                           ai_description := "Basic network and email access for contractors." |};
                        {| ai_id := "role-developer-tools"; ai_type := "ROLE";
                           ai_name := "Developer Tools Suite";
                           ai_description := "Access to standard developer applications." |} ];
     o_status := None; o_accountId := None; o_accountData := None;
     o_identityId := None; o_type := None |}.

Definition initialState : State :=
  {| heap := [managerIdentity; user1Identity];
     simulatedAccountsStore := [];
     simulatedIdentitiesStore := [(managerIdentityId, 0); (user1IdentityId, 1)];
     accountCounter := 3;
     identityCounter := 2 |}.

(** ** Directory lookups *)

(** The entries of a store in for-in order, each with the object behind it. *)
Definition entries (s : State) (st : Store) : list (string * Ref * Obj) :=
  omap (λ kr, o ← deref s kr.2; Some (kr.1, kr.2, o)) st.

(** The key lookup, then the scan for an object with this id. The key
    lookup is the one of own keys: see [plainKey]. *)
Definition findIdentityById (s : State) (identityId : string) : option (Ref * Obj) :=
  match store_obj s (simulatedIdentitiesStore s) identityId with
  | Some ro => Some ro
  | None =>
      e ← List.find (λ e, bool_decide (o_id e.2 = Some identityId))
                    (entries s (simulatedIdentitiesStore s));
      Some (e.1.2, e.2)
  end.

(** The for-in loop of the email search has no [break]: the hit that is
    enumerated last is the one left in [identityToReturn]. *)
Definition searchByEmail (s : State) (email : string) : option (Ref * Obj) :=
  fold_left (λ acc e, if bool_decide (o_email e.2 = Some email)
                      then Some (e.1.2, e.2) else acc)
            (entries s (simulatedIdentitiesStore s)) None.

Definition searchByAccountId (s : State) (accountId : string) : option (Ref * Obj) :=
  match findIdentityById s accountId with
  | Some ro => Some ro
  | None =>
      e ← List.find (λ e, bool_decide (o_sourceAccountId e.2 = Some accountId))
                    (entries s (simulatedIdentitiesStore s));
      Some (e.1.2, e.2)
  end.

Definition viewOf (o : Obj) : IdentityView :=
  {| v_id := o_id o; v_name := o_name o; v_attributes := o_attributes o;
     v_lifecycleState := o_lifecycleState o; v_manager := o_manager o;
     v_accounts := o_accounts o |}.

Definition simulateSearchIdentity (s : State) (queryParams : QueryParams) : SearchResponse :=
  let identityToReturn :=
    if truthy (q_email queryParams) then searchByEmail s (toStr (q_email queryParams))
    else if truthy (q_accountId queryParams) then
      searchByAccountId s (toStr (q_accountId queryParams))
    else if truthy (q_identityId queryParams) then
      findIdentityById s (toStr (q_identityId queryParams))
    else None in
  match identityToReturn with
  | Some (_, o) => {| sr_status := 200; sr_data := [viewOf o] |}
  | None => {| sr_status := 404; sr_data := [] |}
  end.

Definition simulateListAccountsByIdentity (s : State) (identityId : string) : list Account :=
  match findIdentityById s identityId with
  | Some (_, o) => default [] (o_accounts o)
  | None => []
  end.

(** ** Provisioning operations *)

Definition alloc (o : Obj) (s : State) : Ref * State :=
  (length (heap s), with_heap (heap s ++ [o]) s).

Definition setAccountsStore (k : string) (r : Ref) (s : State) : State :=
  {| heap := heap s;
     simulatedAccountsStore := store_set k r (simulatedAccountsStore s);
     simulatedIdentitiesStore := simulatedIdentitiesStore s;
     accountCounter := accountCounter s;
     identityCounter := identityCounter s |}.

Definition setIdentitiesStore (k : string) (r : Ref) (s : State) : State :=
  {| heap := heap s;
     simulatedAccountsStore := simulatedAccountsStore s;
     simulatedIdentitiesStore := store_set k r (simulatedIdentitiesStore s);
     accountCounter := accountCounter s;
     identityCounter := identityCounter s |}.

Definition bumpAccountCounter (s : State) : State :=
  {| heap := heap s;
     simulatedAccountsStore := simulatedAccountsStore s;
     simulatedIdentitiesStore := simulatedIdentitiesStore s;
     accountCounter := S (accountCounter s);
     identityCounter := identityCounter s |}.

Definition bumpIdentityCounter (s : State) : State :=
  {| heap := heap s;
     simulatedAccountsStore := simulatedAccountsStore s;
     simulatedIdentitiesStore := simulatedIdentitiesStore s;
     accountCounter := accountCounter s;
     identityCounter := S (identityCounter s) |}.

Definition newIdentityName (a : Attributes) : string :=
  toStr (or (attr_get "displayName" a)
            (Some (toStr (attr_get "givenName" a) +:+ " " +:+
                   toStr (or (attr_get "sn" a) (attr_get "lastName" a))))).

Definition newIdentity (accountId identityId : string) (accountData : AccountData) : Obj :=
  let a := attributes accountData in
  {| o_id := Some identityId;
     o_name := Some (newIdentityName a);
     o_email := attr_get "mail" a;
     o_attributes := Some a;
     o_lifecycleState := Some "active";
     o_manager := None;
     o_sourceAccountId := Some accountId;
     o_accounts := Some [ {| acc_id := accountId;
                             nativeIdentity :=
                               toStr (or (attr_get "sAMAccountName" a) (Some accountId));
                             acc_sourceId := sourceId accountData;
                             sourceName := sourceId accountData;
                             acc_status := enabled |} ];
     o_access := Some [];
     o_status := None; o_accountId := None; o_accountData := None;
     o_identityId := None; o_type := None |}.

Definition creationTask (accountId : string) (accountData : AccountData) : Obj :=
  {| o_id := None; o_name := None; o_email := None; o_attributes := None;
     o_lifecycleState := None; o_manager := None; o_sourceAccountId := None;
     o_accounts := None; o_access := None;
     o_status := Some QUEUED; o_accountId := Some accountId;
     o_accountData := Some accountData; o_identityId := None; o_type := None |}.

Definition simulateCreateAccount (s : State) (now : nat) (accountData : AccountData)
  : State * TaskResponse :=
  let taskId := creationTaskId now in
  let accountId := accountIdOf (accountCounter s) in
  let s := bumpAccountCounter s in
  let '(rt, s) := alloc (creationTask accountId accountData) s in
  let s := setAccountsStore taskId rt s in
  let identityId := identityIdOf (identityCounter s) in
  let s := bumpIdentityCounter s in
  let idn := newIdentity accountId identityId accountData in
  let '(ri, s) := alloc idn s in
  let s := setIdentitiesStore accountId ri s in
  let s := setIdentitiesStore identityId ri s in
  (s, {| resp_status := 202;
         resp_data := DataTask {| ti_id := Some taskId; ti_type := "ACCOUNT_ACTIVITY";
                                  ti_name := Some ("Create account for " +:+ toStr (o_name idn));
                                  ti_status := Some QUEUED; ti_result := None |} |}).

(** One stage forward; a terminal or absent status is left as it is. *)
Definition advance (o : Obj) : Obj :=
  match o_status o with
  | Some QUEUED => set_status PROCESSING o
  | Some PROCESSING => set_status COMPLETED o
  | _ => o
  end.

(** [simulatedAccountsStore[taskId] || simulatedIdentitiesStore[taskId]],
    by own keys: see [plainKey]. *)
Definition taskDetailsOf (s : State) (taskId : Str) : option (Ref * Obj) :=
  match store_obj s (simulatedAccountsStore s) (toStr taskId) with
  | Some ro => Some ro
  | None => store_obj s (simulatedIdentitiesStore s) (toStr taskId)
  end.

Definition simulateGetTaskStatus (s : State) (taskId : Str)
  : State * Completion TaskResponse :=
  match taskDetailsOf s taskId with
  | None =>
      (s, Returned {| resp_status := 404;
                      resp_data := DataMessage ("Task " +:+ toStr taskId +:+
                                                " not found (simulated).") |})
  | Some (r, o) =>
      let s := mutate r advance s in
      let taskDetails := advance o in
      if truthy (o_accountId taskDetails) then
        let identityId := ro ← findIdentityById s (toStr (o_accountId taskDetails)); o_id ro.2 in
        match o_accountData taskDetails with
        | None =>
            (s, Threw (TypeError "Cannot read properties of undefined (reading 'sourceId')"))
        | Some accountData =>
            (s, Returned
               {| resp_status := 200;
                  resp_data := DataTask
                    {| ti_id := taskId;
                       ti_type := toStr (or (o_type taskDetails) (Some "GENERIC_TASK"));
                       ti_name := o_name taskDetails;
                       ti_status := o_status taskDetails;
                       ti_result := Some (AccountResult (o_accountId taskDetails) identityId
                                            (sourceId accountData) "success") |} |})
        end
      else
        (s, Returned
           {| resp_status := 200;
              resp_data := DataTask
                {| ti_id := taskId;
                   ti_type := toStr (or (o_type taskDetails) (Some "GENERIC_TASK"));
                   ti_name := o_name taskDetails;
                   ti_status := o_status taskDetails;
                   ti_result := Some (GenericResult "success"
                                        (toStr (o_name taskDetails) +:+
                                         " completed successfully.")) |} |})
  end.

(** [accounts.findIndex(a => a.id === accountId)]. *)
Fixpoint findIndex (accountId : string) (l : list Account) : option nat :=
  match l with
  | [] => None
  | a :: l' => if decide (acc_id a = accountId) then Some 0
               else S <$> findIndex accountId l'
  end.

(** [accounts[i].status = st] on the identity behind [r]. *)
Definition setAccountStatusAt (r : Ref) (i : nat) (st : AccountStatus) (s : State) : State :=
  mutate r (λ o, set_accounts (alter (set_acc_status st) i <$> o_accounts o) o) s.

(** The scan of simulateDisableAccount: the first enumerated object that has
    an [accounts] array holding the id, with its key and the index found. *)
Fixpoint findTargetAccount (accountId : string) (es : list (string * Ref * Obj))
  : option (string * Ref * nat) :=
  match es with
  | [] => None
  | (idKey, r, identity) :: es' =>
      match o_accounts identity with
      | Some accs =>
          match findIndex accountId accs with
          | Some i => Some (idKey, r, i)
          | None => findTargetAccount accountId es'
          end
      | None => findTargetAccount accountId es'
      end
  end.

Definition disableTask (accountId : string) : Obj :=
  {| o_id := None; o_name := Some ("Disable account " +:+ accountId);
     o_email := None; o_attributes := None;
     o_lifecycleState := None; o_manager := None; o_sourceAccountId := None;
     o_accounts := None; o_access := None;
     o_status := Some QUEUED; o_accountId := Some accountId;
     o_accountData := None; o_identityId := None;
     o_type := Some "ACCOUNT_DISABLE_TASK" |}.

Definition simulateDisableAccount (s : State) (now : nat) (accountId : string)
  : State * TaskResponse :=
  match findTargetAccount accountId (entries s (simulatedIdentitiesStore s)) with
  | None =>
      (s, {| resp_status := 404;
             resp_data := DataMessage ("Account " +:+ accountId +:+
                                       " not found for disabling (simulated).") |})
  | Some (identityKeyForAccount, r, i) =>
      (* targetAccount.status = 'disabled' *)
      let s := setAccountStatusAt r i disabled s in
      (* the same write again through the store key *)
      let s :=
        match store_obj s (simulatedIdentitiesStore s) identityKeyForAccount with
        | Some (r', o') =>
            match o_accounts o' ≫= findIndex accountId with
            | Some accIndex => setAccountStatusAt r' accIndex disabled s
            | None => s
            end
        | None => s
        end in
      let taskId := disableTaskId now in
      let '(rt, s) := alloc (disableTask accountId) s in
      let s := setAccountsStore taskId rt s in
      (s, {| resp_status := 202;
             resp_data := DataTask {| ti_id := Some taskId; ti_type := "ACCOUNT_ACTIVITY";
                                      ti_name := Some ("Disable account " +:+ accountId);
                                      ti_status := Some QUEUED; ti_result := None |} |})
  end.

Definition lifecycleTask (identityId newLifecycleState : string) (name : Str) : Obj :=
  {| o_id := None;
     o_name := Some ("Set lifecycle state to " +:+ newLifecycleState +:+ " for " +:+ toStr name);
     o_email := None; o_attributes := None;
     o_lifecycleState := None; o_manager := None; o_sourceAccountId := None;
     o_accounts := None; o_access := None;
     o_status := Some QUEUED; o_accountId := None;
     o_accountData := None; o_identityId := Some identityId;
     o_type := Some "LIFECYCLE_STATE_CHANGE_TASK" |}.

(** The two writes of simulateSetLifecycleState on the identity object. *)
Definition applyLifecycle (newLifecycleState : string) (o : Obj) : Obj :=
  let o := set_lifecycleState newLifecycleState o in
  if bool_decide (newLifecycleState = "terminated") then
    set_accounts (map (set_acc_status disabled) <$> o_accounts o) o
  else o.

Definition simulateSetLifecycleState (s : State) (now : nat)
    (identityId newLifecycleState : string) : State * TaskResponse :=
  match findIdentityById s identityId with
  | None =>
      (s, {| resp_status := 404;
             resp_data := DataMessage ("Identity " +:+ identityId +:+
                                       " not found for lifecycle state change (simulated).") |})
  | Some (r, identity) =>
      let s := mutate r (applyLifecycle newLifecycleState) s in
      let taskId := lcsTaskId now in
      let '(rt, s) := alloc (lifecycleTask identityId newLifecycleState (o_name identity)) s in
      let s := setIdentitiesStore taskId rt s in
      (s, {| resp_status := 202;
             resp_data := DataTask
               {| ti_id := Some taskId; ti_type := "IDENTITY_LIFECYCLE_UPDATE";
                  ti_name := Some ("Lifecycle state change for " +:+ toStr (o_name identity) +:+
                                   " to " +:+ newLifecycleState);
                  ti_status := Some QUEUED; ti_result := None |} |})
  end.

(** ** Poller *)

(** The for loop of pollTaskStatus, counted by the attempts that remain. A
    query that throws is caught and only uses up its attempt. The delay
    between attempts changes no state. *)
Fixpoint pollLoop (remaining : nat) (taskId : Str) (s : State) : State * option TaskData :=
  match remaining with
  | 0 => (s, None)
  | S n =>
      match simulateGetTaskStatus s taskId with
      | (s', Returned taskResponse) =>
          if bool_decide (data_status (resp_data taskResponse) = Some COMPLETED)
          then (s', Some (resp_data taskResponse))
          else pollLoop n taskId s'
      | (s', Threw _) => pollLoop n taskId s'
      end
  end.

Definition timeoutMessage (taskId : Str) (attempts : nat) : string :=
  "Task " +:+ toStr taskId +:+ " did not complete after " +:+ pretty attempts +:+ " attempts.".

Definition pollTaskStatus (s : State) (taskId : Str) (attempts : nat)
  : State * Completion TaskData :=
  match pollLoop attempts taskId s with
  | (s', Some d) => (s', Returned d)
  | (s', None) => (s', Threw (ApiError 500 (timeoutMessage taskId attempts)))
  end.

Definition defaultAttempts : nat := 5.

(** ** Contractor routes *)

(** An element of the [initialAccess] array: a string, [null], or any other
    value, of which only the [id] and [type] properties are read. *)
Inductive AccessItemInput :=
| ItemString (id : string)
| ItemObject (id type : Str)
| ItemNull.

Record RequestedItem := {
  ri_id : Str;
  ri_type : Str;
  ri_comment : string;
}.

Record AccessRequestPayload := {
  requestedFor : list string;
  requestType : string;
  requestedItems : list RequestedItem;
}.

Record PostResponse := {
  post_status : nat;
  post_id : Str;
}.

(** A call of sailPointPost made by a route, with the way it completed. *)
Record Submission := {
  sub_endpoint : string;
  sub_body : AccessRequestPayload;
  sub_completion : Completion PostResponse;
}.

Record OnboardBody := {
  firstName : Str;
  lastName : Str;
  email : Str;
  managerSailPointId : Str;
  ob_attributes : option Attributes;
  initialAccess : option (list AccessItemInput);
  endDate : Str;
}.

Record OffboardBody := {
  contractorSailPointIdentityId : Str;
  justification : Str;
  revokeAllAccess : bool;
}.

Record OnboardAccepted := {
  on_mcpTrackingId : string;
  sailpointAccountId : string;
  sailpointIdentityId : string;
}.

Record OffboardAccepted := {
  off_mcpTrackingId : string;
  sailpointTaskActivityId : Str;
}.

(** What a route hands to Express: a 202 body, or an error given to [next]. *)
Inductive RouteResult (A : Type) :=
| Accepted (body : A)
| Failed (e : Error).
Global Arguments Accepted {A} body.
Global Arguments Failed {A} e.

(** The source's own sailPointPost for the endpoint the onboarding uses. *)
Definition sailPointPost_simulated (now : nat) (endpoint : string)
    (body : AccessRequestPayload) : Completion PostResponse :=
  if bool_decide (endpoint = "/v3/access-requests")
  then Returned {| post_status := 202; post_id := Some ("task-sim-" +:+ pretty now) |}
  else Returned {| post_status := 404; post_id := None |}.

Section Routes.

(** process.env *)
Variable SAILPOINT_CONTRACTOR_SOURCE_ID : Str.
Variable SAILPOINT_TERMINATED_LCS : Str.

(** The access-request client. The routes only require that a call
    returns or throws; the tests replace it by mocks that reject. *)
Variable sailPointPost : string → AccessRequestPayload → Completion PostResponse.

Definition onboardAttributes (b : OnboardBody) (a : Attributes) : Attributes :=
  attr_set "manager" (toStr (managerSailPointId b))
    (attr_set "sn" (toStr (lastName b))
       (attr_set "givenName" (toStr (firstName b))
          (attr_set "displayName" (toStr (firstName b) +:+ " " +:+ toStr (lastName b))
             (attr_set "mail" (toStr (email b)) a)))).

Definition accessRequestPayloadOf (identityId : string) (itemId itemType : Str)
  : AccessRequestPayload :=
  {| requestedFor := [identityId];
     requestType := "GRANT_ACCESS";
     requestedItems := [ {| ri_id := itemId; ri_type := itemType;
                            ri_comment := "Initial access for new contractor." |} ] |}.

(** The for-of loop over [initialAccess]. Reading [accessItem.type] is
    outside the try block; the call of sailPointPost is inside it, so that
    a call that throws is caught and the loop goes on. The result is the
    list of the calls of sailPointPost the loop has made, in order, and the
    error thrown out of the loop, if any: the calls made before it are
    still made. *)
Fixpoint submitInitialAccess (identityId : string) (items : list AccessItemInput)
  : list Submission * option Error :=
  match items with
  | [] => ([], None)
  | accessItem :: rest =>
      let fields :=
        match accessItem with
        | ItemString id => Returned (Some id, Some "ACCESS_PROFILE")
        | ItemObject id type => Returned (id, type)
        | ItemNull => Threw (TypeError "Cannot read properties of null (reading 'type')")
        end in
      match fields with
      | Threw e => ([], Some e)
      | Returned (itemId, itemType) =>
          let accessRequestPayload := accessRequestPayloadOf identityId itemId itemType in
          let arResponse := sailPointPost "/v3/access-requests" accessRequestPayload in
          let call := {| sub_endpoint := "/v3/access-requests";
                         sub_body := accessRequestPayload;
                         sub_completion := arResponse |} in
          (call :: (submitInitialAccess identityId rest).1,
           (submitInitialAccess identityId rest).2)
      end
  end.

(** Step 3 of the onboarding: the identity id of the task result, else the
    one found by a search on the account id, else the one found by a search
    on the email. *)
Definition resolveIdentityId (s : State) (b : OnboardBody) (taskResult : TaskData) : Str :=
  let newSailPointAccountId := toStr (data_result taskResult ≫= result_accountId) in
  let fromTask := data_result taskResult ≫= result_identityId in
  if truthy fromTask then fromTask
  else
    match sr_data (simulateSearchIdentity s
                     {| q_email := None;
                        q_accountId := Some newSailPointAccountId;
                        q_identityId := None |}) with
    | v :: _ => v_id v
    | [] =>
        match sr_data (simulateSearchIdentity s
                         {| q_email := email b; q_accountId := None;
                            q_identityId := None |}) with
        | v :: _ => v_id v
        | [] => fromTask
        end
    end.

(** The onboarding from the answer of the poller on: the check of the task
    result, the identity lookup, the access requests and the response. The
    first component is the list of the calls of sailPointPost made. *)
Definition onboardAfterPoll (s : State) (mcpTrackingId : string) (b : OnboardBody)
    (taskResult : TaskData) : list Submission * RouteResult OnboardAccepted :=
  if bool_decide (data_status taskResult = Some COMPLETED)
     && truthy (data_result taskResult ≫= result_accountId) then
    let newSailPointAccountId := toStr (data_result taskResult ≫= result_accountId) in
    let newContractorIdentityId := resolveIdentityId s b taskResult in
    if truthy newContractorIdentityId then
      let submitted :=
        match initialAccess b with
        | Some (i :: items) =>
            submitInitialAccess (toStr newContractorIdentityId) (i :: items)
        | _ => ([], None)
        end in
      match submitted.2 with
      | Some e => (submitted.1, Failed e)
      | None =>
          (submitted.1,
           Accepted {| on_mcpTrackingId := mcpTrackingId;
                       sailpointAccountId := newSailPointAccountId;
                       sailpointIdentityId := toStr newContractorIdentityId |})
      end
    else
      ([], Failed (ApiError 500
             "Failed to retrieve SailPoint identity for the new contractor (simulated)."))
  else
    ([], Failed (ApiError 500 "Contractor account creation failed at SailPoint (simulated).")).

(** POST /onboard: the state it leaves, the calls of sailPointPost it has
    made, and what it hands to Express. *)
Definition onboardRoute (s : State) (nowTracking nowCreate : nat) (b : OnboardBody)
  : State * list Submission * RouteResult OnboardAccepted :=
  let mcpTrackingId := "mcp-onboarding-" +:+ pretty nowTracking in
  match ob_attributes b with
  | Some attrs =>
      if truthy (firstName b) && truthy (lastName b) && truthy (email b)
         && truthy (managerSailPointId b) then
        let sailpointAccountPayload :=
          {| sourceId := toStr (or SAILPOINT_CONTRACTOR_SOURCE_ID
                                   (Some "mockContractorSourceId"));
             attributes := onboardAttributes b attrs |} in
        let '(s, accountCreationResponse) :=
          simulateCreateAccount s nowCreate sailpointAccountPayload in
        let accountCreationTaskId := data_id (resp_data accountCreationResponse) in
        match pollTaskStatus s accountCreationTaskId defaultAttempts with
        | (s, Threw e) => (s, [], Failed e)
        | (s, Returned taskResult) =>
            (s, (onboardAfterPoll s mcpTrackingId b taskResult).1,
             (onboardAfterPoll s mcpTrackingId b taskResult).2)
        end
      else (s, [], Failed (ApiError 400 "Missing required fields for contractor onboarding."))
  | None => (s, [], Failed (ApiError 400 "Missing required fields for contractor onboarding."))
  end.

(** The route as its caller sees it: the state and the answer. *)
Definition onboard (s : State) (nowTracking nowCreate : nat) (b : OnboardBody)
  : State * RouteResult OnboardAccepted :=
  ((onboardRoute s nowTracking nowCreate b).1.1, (onboardRoute s nowTracking nowCreate b).2).

Definition offboard (s : State) (nowTracking nowTask : nat) (b : OffboardBody)
  : State * RouteResult OffboardAccepted :=
  let mcpTrackingId := "mcp-offboarding-" +:+ pretty nowTracking in
  if truthy (contractorSailPointIdentityId b) then
    let terminatedLifecycleState := toStr (or SAILPOINT_TERMINATED_LCS (Some "terminated")) in
    let '(s, lcsResponse) :=
      simulateSetLifecycleState s nowTask (toStr (contractorSailPointIdentityId b))
        terminatedLifecycleState in
    let lcsChangeTaskId := data_id (resp_data lcsResponse) in
    match pollTaskStatus s lcsChangeTaskId defaultAttempts with
    | (s, Threw e) => (s, Failed e)
    | (s, Returned taskResult) =>
        if bool_decide (data_status taskResult = Some COMPLETED) then
          (s, Accepted {| off_mcpTrackingId := mcpTrackingId;
                          sailpointTaskActivityId := lcsChangeTaskId |})
        else
          (s, Failed (ApiError 500
             "Contractor offboarding failed at SailPoint (simulated lifecycle state change)."))
    end
  else (s, Failed (ApiError 400 "contractorSailPointIdentityId is required.")).

End Routes.

(** ** Runs of the simulator *)

Inductive Op :=
| OpCreateAccount (now : nat) (accountData : AccountData)
| OpGetTaskStatus (taskId : Str)
| OpDisableAccount (now : nat) (accountId : string)
| OpSetLifecycleState (now : nat) (identityId newLifecycleState : string).

Definition step (s : State) (op : Op) : State :=
  match op with
  | OpCreateAccount now accountData => (simulateCreateAccount s now accountData).1
  | OpGetTaskStatus taskId => (simulateGetTaskStatus s taskId).1
  | OpDisableAccount now accountId => (simulateDisableAccount s now accountId).1
  | OpSetLifecycleState now identityId l => (simulateSetLifecycleState s now identityId l).1
  end.

Definition run (s : State) (ops : list Op) : State := fold_left step ops s.

Inductive reachable : State → Prop :=
| reachable_init : reachable initialState
| reachable_step s op : reachable s → reachable (step s op).

(** ** Vocabulary of the statements *)

Definition next (st : TaskStatus) : TaskStatus :=
  match st with
  | QUEUED => PROCESSING
  | PROCESSING => COMPLETED
  | COMPLETED => COMPLETED
  end.

Definition stage (st : TaskStatus) : nat :=
  match st with QUEUED => 0 | PROCESSING => 1 | COMPLETED => 2 end.

(** The status of the task a status query for [taskId] would work on. *)
Definition statusOf (s : State) (taskId : Str) : option TaskStatus :=
  ro ← taskDetailsOf s taskId; o_status ro.2.

(** The state after [n] successive status queries for [taskId]. *)
Fixpoint stateAfter (n : nat) (taskId : Str) (s : State) : State :=
  match n with
  | 0 => s
  | S n' => stateAfter n' taskId (simulateGetTaskStatus s taskId).1
  end.

(** The completion of the query made after [k] earlier ones. *)
Definition outcomeAt (k : nat) (taskId : Str) (s : State) : Completion TaskResponse :=
  (simulateGetTaskStatus (stateAfter k taskId s) taskId).2.

(** The snapshot a query hands to the poller when it reports COMPLETED. *)
Definition reportsCompleted (c : Completion TaskResponse) : option TaskData :=
  match c with
  | Returned taskResponse =>
      if bool_decide (data_status (resp_data taskResponse) = Some COMPLETED)
      then Some (resp_data taskResponse) else None
  | Threw _ => None
  end.

Definition accountsOf (o : Obj) : list Account := default [] (o_accounts o).

(** An account record with this id is held by some stored identity. *)
Definition accountKnown (s : State) (accountId : string) : Prop :=
  ∃ e a, e ∈ entries s (simulatedIdentitiesStore s) ∧ a ∈ accountsOf e.2 ∧
         acc_id a = accountId.

(** Something is stored under this key, or a stored object carries this id:
    the two ways findIdentityById looks an identity up. *)
Definition identityKnown (s : State) (identityId : string) : Prop :=
  is_Some (store_obj s (simulatedIdentitiesStore s) identityId) ∨
  ∃ e, e ∈ entries s (simulatedIdentitiesStore s) ∧ o_id e.2 = Some identityId.

(** The payload the onboarding loop builds for one item. *)
Definition payloadOfItem (identityId : string) (item : AccessItemInput)
  : AccessRequestPayload :=
  match item with
  | ItemString id => accessRequestPayloadOf identityId (Some id) (Some "ACCESS_PROFILE")
  | ItemObject id type => accessRequestPayloadOf identityId id type
  | ItemNull => accessRequestPayloadOf identityId None None
  end.

Definition byEmail (e : string) : QueryParams :=
  {| q_email := Some e; q_accountId := None; q_identityId := None |}.
Definition byAccountId (a : string) : QueryParams :=
  {| q_email := None; q_accountId := Some a; q_identityId := None |}.
Definition byIdentityId (i : string) : QueryParams :=
  {| q_email := None; q_accountId := None; q_identityId := Some i |}.

(** ** Invariants of reachable states *)

Definition acctIds (o : Obj) : list string := acc_id <$> accountsOf o.

Definition heapAcctIds (h : list Obj) : list string := mjoin (acctIds <$> h).

Definition seededAccountIds : list string :=
  ["sim-acc-mgr-" +:+ pretty 0; "sim-acc-jd1-" +:+ pretty 1; "sim-acc-jd2-" +:+ pretty 2].

Definition acctIdBounded (n : nat) (a : string) : Prop :=
  a ∈ seededAccountIds ∨ ∃ k, k < n ∧ a = accountIdOf k.

(** Account ids are handed out by a counter: no id occurs twice in the
    heap, and every id of the generated form is below the counter. *)
Definition accountsInv (s : State) : Prop :=
  NoDup (heapAcctIds (heap s)) ∧
  Forall (acctIdBounded (accountCounter s)) (heapAcctIds (heap s)).

Definition identityKeyOK (s : State) (k : string) : Prop :=
  (∃ n, n < identityCounter s ∧ k = identityIdOf n) ∨
  (∃ n, n < accountCounter s ∧ k = accountIdOf n) ∨
  (∃ t, k = lcsTaskId t).

(** An object without the properties of an identity (a task record). *)
Definition anonymous (o : Obj) : Prop := o_email o = None ∧ o_id o = None.

(** Shape of the identities store: keys are generated ids below their
    counters or lifecycle task ids, references are allocated, and the
    objects under lifecycle task ids are task records. *)
Definition storeInv (s : State) : Prop :=
  Forall (λ kr, identityKeyOK s kr.1 ∧ kr.2 < length (heap s) ∧
                ∀ t o, kr.1 = lcsTaskId t → deref s kr.2 = Some o → anonymous o)
         (simulatedIdentitiesStore s).


(** How one object may differ after an operation: its identity properties
    and the ids of its accounts are kept, and a task status stays or moves
    one stage forward. *)
Definition stable (o o' : Obj) : Prop :=
  o_id o' = o_id o ∧ o_email o' = o_email o ∧ acctIds o' = acctIds o ∧
  (o_status o' = o_status o ∨
   ∃ st, o_status o = Some st ∧ o_status o' = Some (next st)).

(** Every allocated object is still there, related by [P] to what it was. *)
Definition heapRel (P : Obj → Obj → Prop) (s s' : State) : Prop :=
  ∀ r o, deref s r = Some o → ∃ o', deref s' r = Some o' ∧ P o o'.

(** [stable] with the task status untouched as well. *)
Definition kept (o o' : Obj) : Prop :=
  o_id o' = o_id o ∧ o_email o' = o_email o ∧ acctIds o' = acctIds o ∧
  o_status o' = o_status o.

(** The state simulateDisableAccount is in after its two status writes. *)
Definition disabledState (s : State) (accountId identityKeyForAccount : string)
    (r : Ref) (i : nat) : State :=
  let s := setAccountStatusAt r i disabled s in
  match store_obj s (simulatedIdentitiesStore s) identityKeyForAccount with
  | Some (r', o') =>
      match o_accounts o' ≫= findIndex accountId with
      | Some accIndex => setAccountStatusAt r' accIndex disabled s
      | None => s
      end
  | None => s
  end.


(** ** Concrete runs used to exercise the statements *)

Definition exampleAccountData : AccountData :=
  {| sourceId := "s1"; attributes := [("mail", "a@x.com"); ("displayName", "A B")] |}.

(** createAccount at time 1 from the freshly loaded module. *)
Definition stateCreated : State :=
  (simulateCreateAccount initialState 1 exampleAccountData).1.

(** ... then disableAccount of the new account at time 2. *)
Definition stateDisabled : State :=
  (simulateDisableAccount stateCreated 2 (accountIdOf 3)).1.

(** ... or a second createAccount with the same mail at time 2. *)
Definition stateCreatedTwice : State :=
  (simulateCreateAccount stateCreated 2
     {| sourceId := "s2"; attributes := [("mail", "a@x.com"); ("displayName", "C D")] |}).1.

Definition sourceIdTypeError : Error :=
  TypeError "Cannot read properties of undefined (reading 'sourceId')".

(** Keys of the accounts store: ids of creation and disable tasks. *)
Definition taskKeysInv (s : State) : Prop :=
  Forall (λ kr : string * nat, ∃ t, kr.1 = creationTaskId t ∨ kr.1 = disableTaskId t)
         (simulatedAccountsStore s).

Definition wellFormed (s : State) : Prop :=
  accountsInv s ∧ storeInv s ∧ taskKeysInv s.

(** [heap[r].accounts[i]], when it exists. *)
Definition recordAt (s : State) (r : Ref) (i : nat) : option Account :=
  o ← deref s r; accs ← o_accounts o; accs !! i.

(** The identity object with id [identityId] is stored under both its
    account id and its identity id. *)
Definition linked (s : State) (accountId identityId : string) : Prop :=
  ∃ ri o, store_get accountId (simulatedIdentitiesStore s) = Some ri ∧
          store_get identityId (simulatedIdentitiesStore s) = Some ri ∧
          deref s ri = Some o ∧ o_id o = Some identityId.

(** [linked] for the ids with numbers [n] and [m], both already handed out. *)
Definition linkedAt (s : State) (n m : nat) : Prop :=
  linked s (accountIdOf n) (identityIdOf m) ∧
  n < accountCounter s ∧ m < identityCounter s.

(** What the onboarding loop submits for a list of items: one call for
    each item, in the order of the list, whatever the calls before it did. *)
Definition submissionsOf
    (sailPointPost : string → AccessRequestPayload → Completion PostResponse)
    (identityId : string) (items : list AccessItemInput) : list Submission :=
  (λ item, {| sub_endpoint := "/v3/access-requests";
              sub_body := payloadOfItem identityId item;
              sub_completion :=
                sailPointPost "/v3/access-requests" (payloadOfItem identityId item) |})
    <$> items.

Definition exampleOnboardBody : OnboardBody :=
  {| firstName := Some "Ann"; lastName := Some "Lee"; email := Some "ann@x.com";
     managerSailPointId := Some (identityIdOf 0);
     ob_attributes := Some [("department", "IT")];
     initialAccess := Some [ItemObject (Some "bad-id") None; ItemString "good-id"];
     endDate := None |}.

(** A client that rejects the item bad-id and accepts everything else. *)
Definition rejectBadId (endpoint : string) (body : AccessRequestPayload)
  : Completion PostResponse :=
  if bool_decide (ri_id <$> requestedItems body = [Some "bad-id"])
  then Threw (ApiError 500 "grant failed")
  else Returned {| post_status := 202; post_id := Some "task-sim-0" |}.

(** The email and id properties of the objects of a store, in for-in order. *)
Definition emailIdsOf (s : State) (st : Store) : list (option string * option string) :=
  (λ x, (o_email x.2, o_id x.2)) <$> entries s st.

Definition emailIds (s : State) : list (option string * option string) :=
  emailIdsOf s (simulatedIdentitiesStore s).

Definition hasEmail (e : string) (p : option string * option string) : Prop :=
  p.1 = Some e.

Global Instance hasEmail_dec e p : Decision (hasEmail e p).
Proof. unfold hasEmail. apply _. Defined.

(** The id of the object enumerated last among those with this email. *)
Definition emailOwner (s : State) (e : string) : option (option string) :=
  snd <$> last (filter (hasEmail e) (emailIds s)).

(** Some later createAccount of the run uses this mail again. *)
Definition mailReused (mail : string) (ops : list Op) : Prop :=
  ∃ now d, OpCreateAccount now d ∈ ops ∧ attr_get "mail" (attributes d) = Some mail.

(** The ids in a search answer. *)
Definition foundIds (r : SearchResponse) : list (option string) := v_id <$> sr_data r.

(** ** The read operations of the service *)

Inductive DetailsData :=
| DetailsMessage (message : string)
| DetailsIdentity (v : IdentityView).

Record DetailsResponse := {
  dr_status : nat;
  dr_data : DetailsData;
}.

Definition simulateGetUserDetails (s : State) (sailpointIdentityId : string) : DetailsResponse :=
  let notFound :=
    {| dr_status := 404;
       dr_data := DetailsMessage ("User details not found for ID " +:+ sailpointIdentityId +:+
                                  " (simulated).") |} in
  match findIdentityById s sailpointIdentityId with
  | Some _ =>
      let searchResult :=
        simulateSearchIdentity s {| q_email := None; q_accountId := None;
                                    q_identityId := Some sailpointIdentityId |} in
      match sr_data searchResult with
      | v :: _ =>
          if bool_decide (sr_status searchResult = 200)
          then {| dr_status := 200; dr_data := DetailsIdentity v |}
          else notFound
      | [] => notFound
      end
  | None => notFound
  end.

Inductive EntitlementsData :=
| EntMessage (message : string)
| EntItems (items : list AccessItem).

Record EntitlementsResponse := {
  er_status : nat;
  er_data : EntitlementsData;
}.

Definition simulateGetUserEntitlements (s : State) (sailpointIdentityId : string)
  : EntitlementsResponse :=
  match findIdentityById s sailpointIdentityId with
  | Some (_, identity) =>
      match o_access identity with
      | Some access => {| er_status := 200; er_data := EntItems access |}
      | None => {| er_status := 200; er_data := EntItems [] |}
      end
  | None =>
      {| er_status := 404;
         er_data := EntMessage ("Entitlements not found for user ID " +:+ sailpointIdentityId +:+
                                " (simulated user not found).") |}
  end.

(** ** Vocabulary of the further statements *)

(** [linked], and the identity object holds exactly the one account. *)
Definition owner (s : State) (accountId identityId : string) : Prop :=
  ∃ ri o, store_get accountId (simulatedIdentitiesStore s) = Some ri ∧
          store_get identityId (simulatedIdentitiesStore s) = Some ri ∧
          deref s ri = Some o ∧ o_id o = Some identityId ∧ acctIds o = [accountId].

Definition ownerAt (s : State) (n m : nat) : Prop :=
  owner s (accountIdOf n) (identityIdOf m) ∧
  n < accountCounter s ∧ m < identityCounter s.

(** The state with the seeded user terminated at time 5. *)
Definition stateTerminated : State :=
  (simulateSetLifecycleState initialState 5 user1IdentityId "terminated").1.

(** ** String methods used by the request mocks and the routes *)

(** The double-quote character. *)
Definition dquote : Ascii.ascii := Eval cbv in Ascii.ascii_of_nat 34.

(** [s.startsWith(p)]. *)
Definition startsWith (p s : string) : bool := String.prefix p s.

(** [s.includes(sub)]. *)
Fixpoint includes (sub s : string) : bool :=
  String.prefix sub s ||
  match s with
  | EmptyString => false
  | String _ s' => includes sub s'
  end.

(** [s.split(sep)] for a non-empty separator, scanning left to right:
    [piece] is the current piece and [skip] the number of characters of a
    matched separator that are still to be passed over. *)
Fixpoint splitFrom (sep : string) (skip : nat) (piece s : string) : list string :=
  match s with
  | EmptyString => [piece]
  | String c s' =>
      match skip with
      | S k => splitFrom sep k piece s'
      | 0 =>
          if String.prefix sep s
          then piece :: splitFrom sep (String.length sep - 1) "" s'
          else splitFrom sep 0 (piece +:+ String c "") s'
      end
  end.

Definition split (sep s : string) : list string := splitFrom sep 0 "" s.

(** [s.replace(/c/g, '')] for a character [c]. *)
Fixpoint removeAll (c : Ascii.ascii) (s : string) : string :=
  match s with
  | EmptyString => ""
  | String a s' => if decide (a = c) then removeAll c s' else String a (removeAll c s')
  end.

(** [n || d] on numbers. *)
Definition orNat (n d : nat) : nat := if decide (n = 0) then d else n.

(** ** The generic request mocks of the service *)

Module Service.

Record RequestedItemStatus := {
  ris_id : string;
  ris_name : string;
  ris_status : string;
  ris_type : string;
}.

Record ActivityStatus := {
  as_id : string;
  as_status : string;
  as_requestedItemsStatus : list RequestedItemStatus;
  as_created : string;
  as_requester : string * string;
}.

(** [{ type, id, name }]. *)
Record Party := {
  p_type : string;
  p_id : string;
  p_name : string;
}.

Record ApprovalRequest := {
  ar_requestId : string;
  ar_requester : Party;
  ar_requestedFor : list Party;
  ar_requestedItems : list Party;
}.

Record Approval := {
  ap_id : string;
  ap_name : string;
  ap_created : string;
  ap_request : ApprovalRequest;
  ap_requesterComment : string;
}.

Inductive GetData :=
| GetActivity (a : ActivityStatus)
| GetApprovals (l : list Approval)
| GetEmpty.

(** The answers of sailPointGet carry no [status] property. *)
Record GetResponse := {
  get_status : option nat;
  get_data : GetData;
}.

Inductive PostData :=
| PostActivity (id type status : string)
| PostDecision (status message : string)
| PostError (error : string).

Record PostReply := {
  pr_status : nat;
  pr_data : PostData;
}.

(** One day; clock readings are taken to be later than one day after the
    epoch, where the subtraction below is the one of the source. *)
Definition millisecondsPerDay : nat := 86400000.

Section Requests.

(** [new Date(t).toISOString()]. *)
Variable toISOString : nat → string.

(** [params.filters] is the only parameter read. *)
Definition sailPointGet (now : nat) (endpoint : string) (filters : Str)
  : Completion GetResponse :=
  if startsWith "/v3/access-request-status" endpoint then
    let sailpointActivityId :=
      if truthy filters then
        match split " eq " (toStr filters) !! 1 with
        | Some piece => Returned (removeAll dquote piece)
        | None => Threw (TypeError "Cannot read properties of undefined (reading 'replace')")
        end
      else Returned "unknownActivityId" in
    match sailpointActivityId with
    | Threw e => Threw e
    | Returned id =>
        Returned
          {| get_status := None;
             get_data := GetActivity
               {| as_id := id; as_status := "COMPLETED";
                  as_requestedItemsStatus :=
                    [ {| ris_id := "accessProfileId1"; ris_name := "Mock Access Profile";
                         ris_status := "APPROVED"; ris_type := "ACCESS_PROFILE" |} ];
                  as_created := toISOString now;
                  as_requester := ("mockUserId", "Mock Requesting User") |} |}
    end
  else if bool_decide (endpoint = "/v3/access-request-approvals/pending") then
    Returned
      {| get_status := None;
         get_data := GetApprovals
           [ {| ap_id := "approvalId123";
                ap_name := "Approve Access to Finance System";
                ap_created := toISOString (now - millisecondsPerDay);
                ap_request :=
                  {| ar_requestId := "sailpointActivityId456";
                     ar_requester := {| p_type := "IDENTITY"; p_id := "userId2";
                                        p_name := "Jane Doe (SailPoint)" |};
                     ar_requestedFor := [ {| p_type := "IDENTITY"; p_id := "userId3";
                                             p_name := "John Smith (SailPoint)" |} ];
                     ar_requestedItems := [ {| p_type := "ACCESS_PROFILE";
                                               p_id := "accessProfileId2";
                                               p_name := "Finance System Access (SailPoint)" |} ] |};
                ap_requesterComment := "Request for finance access" |} ] |}
  else Returned {| get_status := None; get_data := GetEmpty |}.

End Requests.

(** The body is only logged. *)
Definition sailPointPost {B : Type} (now : nat) (endpoint : string) (body : B) : PostReply :=
  if bool_decide (endpoint = "/v3/access-requests") then
    {| pr_status := 202;
       pr_data := PostActivity ("task-sim-" +:+ pretty now) "TASK_RESULT" "PENDING" |}
  else if includes "/approve" endpoint then
    {| pr_status := 200;
       pr_data := PostDecision "approved" "Request approved successfully (simulated)" |}
  else if includes "/reject" endpoint then
    {| pr_status := 200;
       pr_data := PostDecision "rejected" "Request rejected successfully (simulated)" |}
  else
    {| pr_status := 404; pr_data := PostError "Endpoint not found (simulated)" |}.

End Service.

(** ** User, approval and access-request routes *)

(** What a route hands to Express: a JSON answer with its status, an error
    of utils/errors given to [next], or a plain [Error] that was given a
    [statusCode] property. *)
Inductive Reply (A : Type) :=
| Json (status : nat) (body : A)
| Next (e : Error)
| NextPlain (statusCode : nat) (message : string).
Global Arguments Json {A} status body.
Global Arguments Next {A} e.
Global Arguments NextPlain {A} statusCode message.

Record McpAccount := {
  ma_accountId : string;
  ma_sourceName : string;
  ma_nativeIdentity : string;
}.

Record McpUser := {
  mu_id : Str;
  mu_displayName : Str;
  mu_email : Str;
  mu_lifecycleState : Str;
  mu_manager : option (string * string);
  mu_accounts : list McpAccount;
}.

Definition mcpUserOf (sailpointUser : IdentityView) : McpUser :=
  {| mu_id := v_id sailpointUser;
     mu_displayName := or (v_name sailpointUser)
                          (v_attributes sailpointUser ≫= attr_get "displayName");
     mu_email := or (v_attributes sailpointUser ≫= attr_get "mail")
                    (v_attributes sailpointUser ≫= attr_get "email");
     mu_lifecycleState := v_lifecycleState sailpointUser;
     mu_manager := v_manager sailpointUser;
     mu_accounts :=
       match v_accounts sailpointUser with
       | Some accounts =>
           (λ acc, {| ma_accountId := acc_id acc; ma_sourceName := sourceName acc;
                      ma_nativeIdentity := nativeIdentity acc |}) <$> accounts
       | None => []
       end |}.

(** GET /users/:sailpointIdentityId *)
Definition getUser (s : State) (sailpointIdentityId : string) : Reply McpUser :=
  if bool_decide (sailpointIdentityId = "") then
    Next (ApiError 400 "sailpointIdentityId parameter is required.")
  else
    let response := simulateGetUserDetails s sailpointIdentityId in
    let notFound :=
      Next (ApiError 404 ("User details not found for ID " +:+ sailpointIdentityId +:+ ".")) in
    match dr_data response with
    | DetailsIdentity sailpointUser =>
        if bool_decide (dr_status response = 200) && truthy (v_id sailpointUser)
        then Json 200 (mcpUserOf sailpointUser)
        else notFound
    | DetailsMessage _ => notFound
    end.

Record McpEntitlement := {
  me_id : string;
  me_type : string;
  me_name : string;
  me_description : string;
  me_source : Str;
}.

(** The stored access items have no [source] property. *)
Definition mcpEntitlementOf (ent : AccessItem) : McpEntitlement :=
  {| me_id := ai_id ent; me_type := ai_type ent; me_name := ai_name ent;
     me_description := ai_description ent; me_source := None |}.

(** GET /users/:sailpointIdentityId/entitlements *)
Definition getUserEntitlements (s : State) (sailpointIdentityId : string)
  : Reply (list McpEntitlement) :=
  if bool_decide (sailpointIdentityId = "") then
    Next (ApiError 400 "sailpointIdentityId parameter is required.")
  else
    let response := simulateGetUserEntitlements s sailpointIdentityId in
    let failed :=
      Next (ApiError (orNat (er_status response) 500)
              "Failed to retrieve user entitlements from SailPoint.") in
    match er_data response with
    | EntItems sailpointEntitlements =>
        if bool_decide (er_status response = 200)
        then Json 200 (mcpEntitlementOf <$> sailpointEntitlements)
        else failed
    | EntMessage message =>
        if bool_decide (message ≠ "") && includes "user not found" message
        then Next (ApiError 404 ("User not found with ID " +:+ sailpointIdentityId +:+
                                 " when fetching entitlements."))
        else failed
    end.

Record ApprovalAnswer := {
  aa_status : string;
  aa_message : string;
}.

(** [{ comment }], the body given to sailPointPost by both decisions. *)
Record CommentPayload := { cp_comment : string }.

(** POST /approvals/:approvalId/approve *)
Definition approve (now : nat) (approvalId : string) (comment : Str) : Reply ApprovalAnswer :=
  if bool_decide (approvalId = "") then
    Next (ApiError 400 "approvalId parameter is required.")
  else if negb (truthy comment) then
    Next (ApiError 400 "Comment is required for approval.")
  else
    let sailPointPayload := {| cp_comment := toStr comment |} in
    let response :=
      Service.sailPointPost now
        ("/v3/access-request-approvals/" +:+ approvalId +:+ "/approve") sailPointPayload in
    if bool_decide (Service.pr_status response = 200) then
      Json 200 {| aa_status := "SUCCESS";
                  aa_message := "Approval submitted successfully (simulated)." |}
    else
      Next (ApiError (orNat (Service.pr_status response) 500)
              "Failed to approve access request via SailPoint.").

(** POST /approvals/:approvalId/reject *)
Definition reject (now : nat) (approvalId : string) (comment : Str) : Reply ApprovalAnswer :=
  if bool_decide (approvalId = "") then
    Next (ApiError 400 "approvalId parameter is required.")
  else if negb (truthy comment) then
    Next (ApiError 400 "Comment is required for rejection.")
  else
    let sailPointPayload := {| cp_comment := toStr comment |} in
    let response :=
      Service.sailPointPost now
        ("/v3/access-request-approvals/" +:+ approvalId +:+ "/reject") sailPointPayload in
    if bool_decide (Service.pr_status response = 200) then
      Json 200 {| aa_status := "SUCCESS";
                  aa_message := "Rejection submitted successfully (simulated)." |}
    else
      Next (ApiError (orNat (Service.pr_status response) 500)
              "Failed to reject access request via SailPoint.").

(** An element of the [items] array of an access request: [null], or any
    other value, of which the [id], [type] and [comment] properties are
    read. *)
Inductive RequestItemInput :=
| RequestItem (id type comment : Str)
| RequestItemNull.

Record SubmittedItem := {
  si_id : Str;
  si_type : Str;
  si_comment : Str;
}.

Record SubmitPayload := {
  sp_requestedFor : list string;
  sp_requestType : string;
  sp_requestedItems : list SubmittedItem;
}.

(** The body of POST /access-requests. [None] stands for a property that is
    absent or not an array. *)
Record AccessRequestBody := {
  rb_requestedFor : option (list string);
  rb_items : option (list RequestItemInput);
  rb_justification : Str;
}.

Record SubmitAnswer := {
  sa_requestId : string;
  sa_status : string;
  sa_message : string;
}.

(** [items.map(item => ({ id, type, comment: item.comment || justification }))]. *)
Fixpoint mapItems (justification : Str) (items : list RequestItemInput)
  : Completion (list SubmittedItem) :=
  match items with
  | [] => Returned []
  | RequestItemNull :: _ => Threw (TypeError "Cannot read properties of null (reading 'id')")
  | RequestItem id type comment :: rest =>
      match mapItems justification rest with
      | Threw e => Threw e
      | Returned l =>
          Returned ({| si_id := id; si_type := type;
                       si_comment := or comment justification |} :: l)
      end
  end.

(** POST /access-requests *)
Definition submitAccessRequest (now : nat) (b : AccessRequestBody) : Reply SubmitAnswer :=
  match rb_requestedFor b with
  | None | Some [] =>
      Next (ApiError 400 "requestedFor is required and must be a non-empty array.")
  | Some requestedFor =>
      match rb_items b with
      | None | Some [] =>
          Next (ApiError 400 "items is required and must be a non-empty array.")
      | Some items =>
          match mapItems (rb_justification b) items with
          | Threw e => Next e
          | Returned requestedItems =>
              let sailPointPayload :=
                {| sp_requestedFor := requestedFor; sp_requestType := "GRANT_ACCESS";
                   sp_requestedItems := requestedItems |} in
              let response := Service.sailPointPost now "/v3/access-requests" sailPointPayload in
              match Service.pr_data response with
              | Service.PostActivity id _ _ =>
                  if bool_decide (Service.pr_status response = 202) && bool_decide (id ≠ "")
                  then Json 202
                         {| sa_requestId := id; sa_status := "PENDING";
                            sa_message :=
                              "Access request submitted successfully. Status can be tracked." |}
                  else NextPlain (orNat (Service.pr_status response) 500)
                                 "Failed to submit access request to SailPoint."
              | _ => NextPlain (orNat (Service.pr_status response) 500)
                               "Failed to submit access request to SailPoint."
              end
          end
      end
  end.

Record ItemStatus := {
  is_id : string;
  is_type : string;
  is_name : string;
  is_status : string;
}.

Record StatusAnswer := {
  st_requestId : string;
  st_status : string;
  st_requestedItems : list ItemStatus;
  st_created : string;
  st_requester : string * string;
}.

Definition statusFilter (sailpointActivityId : string) : string :=
  "id eq " +:+ String dquote sailpointActivityId +:+ String dquote "".

Section StatusRoute.

Variable toISOString : nat → string.

(** GET /access-requests/status/:sailpointActivityId *)
Definition accessRequestStatus (now : nat) (sailpointActivityId : string)
  : Reply StatusAnswer :=
  if bool_decide (sailpointActivityId = "") then
    Next (ApiError 400 "sailpointActivityId parameter is required.")
  else
    let notFound status :=
      NextPlain (orNat (default 0 status) 404)
        "Access request status not found or failed to retrieve from SailPoint." in
    match Service.sailPointGet toISOString now "/v3/access-request-status"
            (Some (statusFilter sailpointActivityId)) with
    | Threw e => Next e
    | Returned response =>
        match Service.get_data response with
        | Service.GetActivity sailpointData =>
            if bool_decide (Service.as_id sailpointData ≠ "") then
              Json 200
                {| st_requestId := Service.as_id sailpointData;
                   st_status := Service.as_status sailpointData;
                   st_requestedItems :=
                     (λ item, {| is_id := Service.ris_id item;
                                 is_type := Service.ris_type item;
                                 is_name := Service.ris_name item;
                                 is_status := Service.ris_status item |})
                       <$> Service.as_requestedItemsStatus sailpointData;
                   st_created := Service.as_created sailpointData;
                   st_requester := Service.as_requester sailpointData |}
            else notFound (Service.get_status response)
        | _ => notFound (Service.get_status response)
        end
    end.

End StatusRoute.

(** ** Vocabulary of the statements on strings *)

(** The part of [s] before the first occurrence of [sep]; all of [s] when
    there is none. *)
Fixpoint before (sep s : string) : string :=
  match s with
  | EmptyString => ""
  | String c s' => if String.prefix sep s then "" else String c (before sep s')
  end.

(** The character [c] occurs in [s]. *)
Fixpoint occurs (c : Ascii.ascii) (s : string) : bool :=
  match s with
  | EmptyString => false
  | String a s' => bool_decide (a = c) || occurs c s'
  end.

(** ** Vocabulary of the statements on identities *)

(** The properties of a stored object that no operation writes. *)
Definition profile (o : Obj)
  : Str * Str * Str * option Attributes * option (string * string) * Str *
    option (list AccessItem) :=
  (o_id o, o_name o, o_email o, o_attributes o, o_manager o, o_sourceAccountId o,
   o_access o).

Definition sameProfile (o o' : Obj) : Prop := profile o' = profile o.

(** The object [o] behind reference [r] is the identity stored under its
    own id. *)
Definition identityAt (s : State) (identityId : string) (r : Ref) (o : Obj) : Prop :=
  store_obj s (simulatedIdentitiesStore s) identityId = Some (r, o) ∧
  o_id o = Some identityId.

(** What the user route shows of an identity apart from its lifecycle
    state. *)
Definition card (u : McpUser)
  : Str * Str * Str * option (string * string) * list McpAccount :=
  (mu_id u, mu_displayName u, mu_email u, mu_manager u, mu_accounts u).

Definition sameCard (o o' : Obj) : Prop :=
  card (mcpUserOf (viewOf o')) = card (mcpUserOf (viewOf o)).

(** No non-empty suffix of [sub] is a prefix of [t]: an occurrence of [sub]
    cannot begin before [t] and end inside it. *)
Fixpoint noOverlap (sub t : string) : bool :=
  match sub with
  | EmptyString => true
  | String _ sub' => negb (String.prefix sub t) && noOverlap sub' t
  end.

Definition approveEndpoint (approvalId : string) : string :=
  "/v3/access-request-approvals/" +:+ approvalId +:+ "/approve".

Definition rejectEndpoint (approvalId : string) : string :=
  "/v3/access-request-approvals/" +:+ approvalId +:+ "/reject".

(** The id the status mock reads back from the filter the route builds. *)
Definition echoedId (sailpointActivityId : string) : string :=
  removeAll dquote (before " eq " sailpointActivityId).

(** The number of createAccount calls in a run. *)
Fixpoint creations (ops : list Op) : nat :=
  match ops with
  | [] => 0
  | OpCreateAccount _ _ :: ops' => S (creations ops')
  | _ :: ops' => creations ops'
  end.

(** An object that reads as a task without a status stays one. *)
Definition sameTaskView (o o' : Obj) : Prop :=
  o_accountId o' = o_accountId o ∧ o_type o' = o_type o ∧ o_name o' = o_name o ∧
  (o_status o = None → o_status o' = None).

(** The snapshot a status query gives of a stored object that is no task. *)
Definition identitySnapshot (key : string) (name : Str) : TaskResponse :=
  {| resp_status := 200;
     resp_data := DataTask
       {| ti_id := Some key; ti_type := "GENERIC_TASK"; ti_name := name;
          ti_status := None;
          ti_result := Some (GenericResult "success"
                               (toStr name +:+ " completed successfully.")) |} |}.

(** ** Login route and token check *)

Module Auth.

Record User := {
  userId : string;
  username : string;
  password : string;
  roles : list string;
  sailpointIdentityId : string;
}.

Definition mockUsers : list (string * User) :=
  [ ("contractor1",
     {| userId := "contractor1-id"; username := "contractor1"; password := "password123";
        roles := ["contractor"]; sailpointIdentityId := "sailpoint-id-contractor1" |});
    ("manager1",
     {| userId := "manager1-id"; username := "manager1"; password := "password456";
        roles := ["manager"; "approver"]; sailpointIdentityId := "sailpoint-id-manager1" |});
    ("admin1",
     {| userId := "admin1-id"; username := "admin1"; password := "adminpassword";
        roles := ["admin"; "approver"]; sailpointIdentityId := "sailpoint-id-admin1" |}) ].

(** The value of [mockUsers[key]]: a user of the table, an inherited member
    of Object.prototype (which is truthy and has none of the properties the
    route reads), or [undefined]. *)
Inductive Looked :=
| Own (u : User)
| Inherited
| Absent.

Fixpoint ownUser (key : string) (table : list (string * User)) : option User :=
  match table with
  | [] => None
  | (k, u) :: table' => if decide (k = key) then Some u else ownUser key table'
  end.

Definition lookupUser (key : string) : Looked :=
  match ownUser key mockUsers with
  | Some u => Own u
  | None => if bool_decide (key ∈ objectPrototypeNames) then Inherited else Absent
  end.

(** The payload given to jwt.sign; [None] is a property that is
    [undefined]. *)
Record TokenPayload := {
  tp_userId : Str;
  tp_username : Str;
  tp_roles : option (list string);
  tp_sailpointIdentityId : Str;
}.

(** A truthy [userToSign]. *)
Inductive UserToSign :=
| SignUser (u : User)
| SignInherited.

Definition payloadOf (userToSign : UserToSign) : TokenPayload :=
  match userToSign with
  | SignUser u =>
      {| tp_userId := Some (userId u); tp_username := Some (username u);
         tp_roles := Some (roles u);
         tp_sailpointIdentityId := Some (sailpointIdentityId u) |}
  | SignInherited =>
      {| tp_userId := None; tp_username := None; tp_roles := None;
         tp_sailpointIdentityId := None |}
  end.

Inductive LoginReply :=
| LoginToken (accessToken : string)
| LoginError (e : Error)
| LoginPlainError (message : string).

(** The value the route passes to jwt.verify: [false] or a string. *)
Inductive TokenArg :=
| TokenFalse
| TokenString (token : string).

Inductive VerifyResult (U : Type) :=
| VerifyError (name : string)
| Verified (user : U).
Global Arguments VerifyError {U} name.
Global Arguments Verified {U} user.

Inductive AuthOutcome (U : Type) :=
| Proceed (user : U)
| Reject (e : Error).
Global Arguments Proceed {U} user.
Global Arguments Reject {U} e.

Section Jwt.

(** jwt.sign with the secret and the expiry of the route: the token, or
    [None] when the callback gets an error. *)
Variable jwtSign : TokenPayload → option string.

(** The choice of [userToSign]; the three body properties are strings or
    [undefined]. *)
Definition selectUser (username password userId : Str) : Completion (option UserToSign) :=
  if truthy userId then
    match List.find (λ u, bool_decide (Auth.userId u = toStr userId)) (snd <$> mockUsers) with
    | Some u => Returned (Some (SignUser u))
    | None =>
        match lookupUser (toStr userId) with
        | Own u => Returned (Some (SignUser u))
        | Inherited => Returned (Some SignInherited)
        | Absent => Returned None
        end
    end
  else if truthy username && truthy password then
    match lookupUser (toStr username) with
    | Own foundUser =>
        if bool_decide (Auth.password foundUser = toStr password)
        then Returned (Some (SignUser foundUser))
        else Returned None
    | Inherited => Returned None
    | Absent => Returned None
    end
  else Threw (ApiError 400 "Please provide username and password, or userId.").

(** POST /auth/login *)
Definition login (username password userId : Str) : LoginReply :=
  match selectUser username password userId with
  | Threw e => LoginError e
  | Returned None => LoginError (ApiError 401 "Invalid credentials or user not found.")
  | Returned (Some userToSign) =>
      match jwtSign (payloadOf userToSign) with
      | Some token => LoginToken token
      | None => LoginPlainError "Internal server error: Could not generate token."
      end
  end.

Variable U : Type.

(** jwt.verify with the secret: the error given to the callback, or the
    decoded payload. *)
Variable jwtVerify : TokenArg → VerifyResult U.

(** [authHeader && authHeader.startsWith('Bearer ') && authHeader.split(' ')[1]];
    [None] is [undefined]. *)
Definition tokenOf (authHeader : Str) : option TokenArg :=
  match authHeader with
  | None => None
  | Some h =>
      if bool_decide (h = "") then Some (TokenString "")
      else if startsWith "Bearer " h then TokenString <$> split " " h !! 1
      else Some TokenFalse
  end.

Definition verdict (r : VerifyResult U) : AuthOutcome U :=
  match r with
  | VerifyError name =>
      if bool_decide (name = "TokenExpiredError")
      then Reject (ApiError 401 "Unauthorized: Token expired.")
      else Reject (ApiError 403 "Forbidden: Invalid token.")
  | Verified user => Proceed user
  end.

Definition authenticateToken (authHeader : Str) : AuthOutcome U :=
  match tokenOf authHeader with
  | None => Reject (ApiError 401 "Unauthorized: No token provided.")
  | Some token => verdict (jwtVerify token)
  end.

End Jwt.

End Auth.

(** ** Task records that a poll brings to completion *)

(** What a status query reads of a task record, its status being kept or
    moved on. *)
Definition sameTaskFields (o o' : Obj) : Prop :=
  o_accountId o' = o_accountId o ∧ o_accountData o' = o_accountData o ∧
  (is_Some (o_status o) → is_Some (o_status o')).

(** A creation task: it has a status, carries its account data and names a
    generated account id under which an identity is stored. *)
Definition creationRecord (s : State) (o : Obj) : Prop :=
  ∃ n m d, o_accountId o = Some (accountIdOf n) ∧ o_accountData o = Some d ∧
           linkedAt s n m ∧ is_Some (o_status o).

(** Every key of the accounts store refers to a record without account
    data (a disable task) or to a creation task. *)
Definition accountTasksInv (s : State) : Prop :=
  Forall (λ kr : string * nat,
            ∃ o, deref s kr.2 = Some o ∧ (o_accountData o = None ∨ creationRecord s o))
         (simulatedAccountsStore s).

(** Every lifecycle task id in the identities store refers to a record
    with a status that names no account. *)
Definition lifecycleTasksInv (s : State) : Prop :=
  Forall (λ kr : string * nat,
            ∀ t, kr.1 = lcsTaskId t →
                 ∃ o, deref s kr.2 = Some o ∧ o_accountId o = None ∧ is_Some (o_status o))
         (simulatedIdentitiesStore s).

(** * Basic facts about stores, heap and identifiers *)


Section StoreFacts.

Lemma store_get_set_eq k r st : store_get k (store_set k r st) = Some r.
Proof.
  induction st as [|[k' r'] st IH]; simpl.
  - by rewrite decide_True.
  - destruct (decide (k' = k)) as [->|Hne]; simpl.
    + by rewrite decide_True.
    + by rewrite decide_False.
Qed.

Lemma store_get_set_ne k k' r st :
  k ≠ k' → store_get k' (store_set k r st) = store_get k' st.
Proof.
  intros Hne. induction st as [|[k0 r0] st IH]; simpl.
  - by rewrite decide_False.
  - destruct (decide (k0 = k)) as [->|Hne0]; simpl.
    + by rewrite !decide_False.
    + destruct (decide (k0 = k')); [done | apply IH].
Qed.

Lemma store_get_elem k r st : store_get k st = Some r → (k, r) ∈ st.
Proof.
  induction st as [|[k0 r0] st IH]; simpl; [done|].
  destruct (decide (k0 = k)) as [->|Hne]; intros H.
  - injection H as ->. left.
  - right. by apply IH.
Qed.

Lemma store_get_None k st : store_get k st = None ↔ ∀ r, (k, r) ∉ st.
Proof.
  induction st as [|[k0 r0] st IH]; simpl.
  - split; [intros _ r Hin; inversion Hin | done].
  - destruct (decide (k0 = k)) as [->|Hne].
    + split; [done | intros H; destruct (H r0); left].
    + rewrite IH. split.
      * intros H r Hin. inversion Hin; subst; [done | by apply (H r)].
      * intros H r Hin. apply (H r). by right.
Qed.

(** Writing a key either replaces one entry in place or appends one. *)
Lemma store_set_shape k r st :
  (store_get k st = None ∧ store_set k r st = st ++ [(k, r)]) ∨
  (∃ st1 r0 st2, st = st1 ++ (k, r0) :: st2 ∧
                 store_set k r st = st1 ++ (k, r) :: st2).
Proof.
  induction st as [|[k0 r0] st IH]; simpl.
  - by left.
  - destruct (decide (k0 = k)) as [->|Hne].
    + right. by exists [], r0, st.
    + destruct IH as [[Hn He]|(st1 & r1 & st2 & -> & He)].
      * left. by rewrite He.
      * right. exists ((k0, r0) :: st1), r1, st2. by rewrite He.
Qed.

Lemma store_set_elem k r st kr :
  kr ∈ store_set k r st → kr = (k, r) ∨ kr ∈ st.
Proof.
  destruct (store_set_shape k r st) as [[_ ->]|(st1 & r0 & st2 & -> & ->)].
  - rewrite elem_of_app, elem_of_cons, elem_of_nil. tauto.
  - rewrite !elem_of_app, !elem_of_cons. tauto.
Qed.

End StoreFacts.

Section HeapFacts.

Lemma deref_mutate r f s r' :
  deref (mutate r f s) r' = if decide (r = r') then f <$> deref s r' else deref s r'.
Proof.
  unfold deref, mutate; simpl. rewrite list_lookup_alter.
  by destruct (decide (r = r')) as [->|].
Qed.

Lemma deref_alloc_old o s r x :
  deref s r = Some x → deref (alloc o s).2 r = Some x.
Proof. unfold deref, alloc; simpl. apply lookup_app_l_Some. Qed.

Lemma deref_alloc_new o s : deref (alloc o s).2 (alloc o s).1 = Some o.
Proof. unfold deref, alloc; simpl. by rewrite list_lookup_middle. Qed.

Lemma store_obj_Some s st k r o :
  store_obj s st k = Some (r, o) ↔ store_get k st = Some r ∧ deref s r = Some o.
Proof.
  unfold store_obj. destruct (store_get k st) as [r0|]; simpl.
  - destruct (deref s r0) as [o0|] eqn:E; simpl.
    + split; [intros [= -> ->]; done | intros [[= ->] H]; congruence].
    + split; [done | intros [[= ->] H]; congruence].
  - split; [done | intros [? _]; done].
Qed.

Lemma store_obj_mutate s st k r f :
  store_obj (mutate r f s) st k =
  (λ ro, (ro.1, if decide (r = ro.1) then f ro.2 else ro.2)) <$> store_obj s st k.
Proof.
  unfold store_obj. destruct (store_get k st) as [r0|]; simpl; [|done].
  rewrite deref_mutate.
  destruct (decide (r = r0)) as [->|Hne], (deref s r0) as [o|]; simpl; try done.
  - by rewrite decide_True.
  - by rewrite decide_False.
Qed.

Lemma taskDetailsOf_mutate s taskId r f :
  taskDetailsOf (mutate r f s) taskId =
  (λ ro, (ro.1, if decide (r = ro.1) then f ro.2 else ro.2)) <$> taskDetailsOf s taskId.
Proof.
  unfold taskDetailsOf; simpl. rewrite !store_obj_mutate.
  by destruct (store_obj s (simulatedAccountsStore s) (toStr taskId)).
Qed.

Lemma taskDetailsOf_deref s taskId r o :
  taskDetailsOf s taskId = Some (r, o) → deref s r = Some o.
Proof.
  unfold taskDetailsOf.
  destruct (store_obj s (simulatedAccountsStore s) (toStr taskId)) as [[r0 o0]|] eqn:E.
  - intros [= -> ->]. by apply store_obj_Some in E as [_ ?].
  - intros E'. by apply store_obj_Some in E' as [_ ?].
Qed.

Lemma with_heap_id s h : h = heap s → with_heap h s = s.
Proof. intros ->. by destruct s. Qed.

Lemma mutate_fixed r f s o : deref s r = Some o → f o = o → mutate r f s = s.
Proof.
  intros Hr Hf. apply with_heap_id. apply list_eq. intros i.
  rewrite list_lookup_alter. destruct (decide (r = i)) as [<-|Hne]; [|done].
  unfold deref in Hr. rewrite Hr. simpl. by rewrite Hf.
Qed.

Lemma mutate_moved r f s o : deref s r = Some o → mutate r f s = s → f o = o.
Proof.
  intros Hr Hm. apply (f_equal (λ x, deref x r)) in Hm.
  rewrite deref_mutate, Hr in Hm. rewrite decide_True in Hm by done. simpl in Hm.
  congruence.
Qed.

End HeapFacts.

Section Identifiers.

Lemma accountIdOf_inj n m : accountIdOf n = accountIdOf m → n = m.
Proof. unfold accountIdOf. intros H. by apply (inj _), (inj pretty) in H. Qed.

Lemma identityIdOf_inj n m : identityIdOf n = identityIdOf m → n = m.
Proof. unfold identityIdOf. intros H. by apply (inj _), (inj pretty) in H. Qed.

Lemma accountId_not_identityId n m : accountIdOf n ≠ identityIdOf m.
Proof. unfold accountIdOf, identityIdOf. cbn [String.append]. discriminate. Qed.

Lemma accountId_not_lcsTaskId n t : accountIdOf n ≠ lcsTaskId t.
Proof. unfold accountIdOf, lcsTaskId. cbn [String.append]. discriminate. Qed.

Lemma identityId_not_lcsTaskId n t : identityIdOf n ≠ lcsTaskId t.
Proof. unfold identityIdOf, lcsTaskId. cbn [String.append]. discriminate. Qed.

Lemma accountId_not_seeded n : accountIdOf n ∉ seededAccountIds.
Proof.
  unfold seededAccountIds, accountIdOf. rewrite !elem_of_cons, elem_of_nil.
  cbn [String.append]. intros [H|[H|[H|[]]]]; discriminate.
Qed.

Lemma accountId_truthy n : truthy (Some (accountIdOf n)) = true.
Proof. unfold accountIdOf. cbn [truthy String.append]. by apply bool_decide_eq_true. Qed.

Lemma identityId_truthy n : truthy (Some (identityIdOf n)) = true.
Proof. unfold identityIdOf. cbn [truthy String.append]. by apply bool_decide_eq_true. Qed.

End Identifiers.

(** * What the operations do to allocated objects *)

Section HeapRel.

Lemma kept_refl o : kept o o.
Proof. by repeat split. Qed.

Lemma kept_trans o1 o2 o3 : kept o1 o2 → kept o2 o3 → kept o1 o3.
Proof.
  intros (?&?&?&?) (?&?&?&?). repeat split; congruence.
Qed.

Lemma kept_stable o o' : kept o o' → stable o o'.
Proof. intros (?&?&?&?). repeat split; auto. Qed.

Lemma heapRel_refl (P : Obj → Obj → Prop) s : (∀ o, P o o) → heapRel P s s.
Proof. intros HP r o Hr. eauto. Qed.

Lemma heapRel_trans (P Q R : Obj → Obj → Prop) s1 s2 s3 :
  (∀ a b c, P a b → Q b c → R a c) →
  heapRel P s1 s2 → heapRel Q s2 s3 → heapRel R s1 s3.
Proof.
  intros HR H12 H23 r o Hr.
  destruct (H12 r o Hr) as (o2 & Hr2 & HP).
  destruct (H23 r o2 Hr2) as (o3 & Hr3 & HQ). eauto.
Qed.

Lemma heapRel_mutate (P : Obj → Obj → Prop) r f s :
  (∀ o, P o o) → (∀ o, P o (f o)) → heapRel P s (mutate r f s).
Proof.
  intros Hrefl Hf r' o Hr. rewrite deref_mutate, Hr.
  destruct (decide (r = r')); simpl; eauto.
Qed.

Lemma heapRel_alloc (P : Obj → Obj → Prop) o s :
  (∀ o, P o o) → heapRel P s (alloc o s).2.
Proof. intros Hrefl r x Hr. exists x. split; [by apply deref_alloc_old | done]. Qed.

Lemma heapRel_same_heap (P : Obj → Obj → Prop) s s' :
  (∀ o, P o o) → heap s' = heap s → heapRel P s s'.
Proof. intros Hrefl Hh r o Hr. exists o. unfold deref in *. by rewrite Hh. Qed.

Lemma kept_advance_stable o : stable o (advance o).
Proof.
  unfold advance. destruct (o_status o) as [[]|] eqn:E; repeat split; simpl; eauto.
Qed.

Lemma acctIds_set_accounts_alter st i o :
  acctIds (set_accounts (alter (set_acc_status st) i <$> o_accounts o) o) = acctIds o.
Proof.
  unfold acctIds, accountsOf; simpl. destruct (o_accounts o) as [l|]; simpl; [|done].
  revert i. induction l as [|a l IH]; intros [|i]; simpl; try done.
  f_equal. apply IH.
Qed.

Lemma kept_setAccountStatus st i o :
  kept o (set_accounts (alter (set_acc_status st) i <$> o_accounts o) o).
Proof. repeat split; simpl; try done. apply acctIds_set_accounts_alter. Qed.

Lemma kept_applyLifecycle l o : kept o (applyLifecycle l o).
Proof.
  unfold applyLifecycle. case_bool_decide; repeat split; simpl; try done.
  unfold acctIds, accountsOf; simpl. destruct (o_accounts o) as [accs|]; simpl; [|done].
  rewrite <- list_fmap_compose. by apply list_fmap_ext.
Qed.

Lemma create_kept s now d : heapRel kept s (simulateCreateAccount s now d).1.
Proof.
  intros r o Hr. exists o. split; [|apply kept_refl].
  unfold simulateCreateAccount, deref in *; simpl.
  by apply lookup_app_l_Some, lookup_app_l_Some.
Qed.

Lemma getTaskStatus_state s taskId :
  (simulateGetTaskStatus s taskId).1 =
  match taskDetailsOf s taskId with
  | Some (r, _) => mutate r advance s
  | None => s
  end.
Proof.
  unfold simulateGetTaskStatus.
  destruct (taskDetailsOf s taskId) as [[r o]|]; [|done].
  destruct (truthy (o_accountId (advance o))); [|done].
  by destruct (o_accountData (advance o)).
Qed.

Lemma getTaskStatus_stable s taskId : heapRel stable s (simulateGetTaskStatus s taskId).1.
Proof.
  rewrite getTaskStatus_state. destruct (taskDetailsOf s taskId) as [[r o]|].
  - apply heapRel_mutate; [intros; apply kept_stable, kept_refl | apply kept_advance_stable].
  - apply heapRel_refl. intros; apply kept_stable, kept_refl.
Qed.

Lemma setAccountStatusAt_kept r i st s : heapRel kept s (setAccountStatusAt r i st s).
Proof.
  apply heapRel_mutate; [apply kept_refl | intros; apply kept_setAccountStatus].
Qed.

Lemma disableAccount_state s now accountId :
  (simulateDisableAccount s now accountId).1 =
  match findTargetAccount accountId (entries s (simulatedIdentitiesStore s)) with
  | None => s
  | Some (k, r, i) =>
      setAccountsStore (disableTaskId now)
        (alloc (disableTask accountId) (disabledState s accountId k r i)).1
        (alloc (disableTask accountId) (disabledState s accountId k r i)).2
  end.
Proof.
  unfold simulateDisableAccount.
  by destruct (findTargetAccount _ _) as [[[k r] i]|].
Qed.

Lemma disableAccount_response s now accountId :
  (simulateDisableAccount s now accountId).2 =
  match findTargetAccount accountId (entries s (simulatedIdentitiesStore s)) with
  | None =>
      {| resp_status := 404;
         resp_data := DataMessage ("Account " +:+ accountId +:+
                                   " not found for disabling (simulated).") |}
  | Some _ =>
      {| resp_status := 202;
         resp_data := DataTask {| ti_id := Some (disableTaskId now);
                                  ti_type := "ACCOUNT_ACTIVITY";
                                  ti_name := Some ("Disable account " +:+ accountId);
                                  ti_status := Some QUEUED; ti_result := None |} |}
  end.
Proof.
  unfold simulateDisableAccount.
  by destruct (findTargetAccount _ _) as [[[k r] i]|].
Qed.

Lemma disabledState_kept s accountId k r i : heapRel kept s (disabledState s accountId k r i).
Proof.
  unfold disabledState.
  set (s1 := setAccountStatusAt r i disabled s).
  assert (H1 : heapRel kept s s1) by apply setAccountStatusAt_kept.
  destruct (store_obj s1 (simulatedIdentitiesStore s1) k) as [[r' o']|]; [|done].
  destruct (o_accounts o' ≫= findIndex accountId) as [j|]; [|done].
  eapply heapRel_trans; [apply kept_trans | exact H1 | apply setAccountStatusAt_kept].
Qed.

Lemma disableAccount_kept s now accountId :
  heapRel kept s (simulateDisableAccount s now accountId).1.
Proof.
  rewrite disableAccount_state.
  destruct (findTargetAccount _ _) as [[[k r] i]|]; [|apply heapRel_refl, kept_refl].
  eapply heapRel_trans; [apply kept_trans | apply disabledState_kept |].
  eapply heapRel_trans; [apply kept_trans | apply heapRel_alloc, kept_refl |].
  apply heapRel_same_heap; [apply kept_refl | done].
Qed.

Lemma setLifecycleState_state s now identityId l :
  (simulateSetLifecycleState s now identityId l).1 =
  match findIdentityById s identityId with
  | None => s
  | Some (r, identity) =>
      let s1 := mutate r (applyLifecycle l) s in
      setIdentitiesStore (lcsTaskId now)
        (alloc (lifecycleTask identityId l (o_name identity)) s1).1
        (alloc (lifecycleTask identityId l (o_name identity)) s1).2
  end.
Proof.
  unfold simulateSetLifecycleState.
  by destruct (findIdentityById s identityId) as [[r o]|].
Qed.

Lemma setLifecycleState_kept s now identityId l :
  heapRel kept s (simulateSetLifecycleState s now identityId l).1.
Proof.
  rewrite setLifecycleState_state.
  destruct (findIdentityById s identityId) as [[r o]|]; [|apply heapRel_refl, kept_refl].
  eapply heapRel_trans;
    [apply kept_trans
    | apply heapRel_mutate; [apply kept_refl | intros; apply kept_applyLifecycle] |].
  eapply heapRel_trans; [apply kept_trans | apply heapRel_alloc, kept_refl |].
  apply heapRel_same_heap; [apply kept_refl | done].
Qed.

Lemma step_stable s op : heapRel stable s (step s op).
Proof.
  destruct op as [now d|taskId|now a|now i l]; cbn [step].
  - intros r o Hr. destruct (create_kept s now d r o Hr) as (o' & ? & ?).
    exists o'. auto using kept_stable.
  - apply getTaskStatus_stable.
  - intros r o Hr. destruct (disableAccount_kept s now a r o Hr) as (o' & ? & ?).
    exists o'. auto using kept_stable.
  - intros r o Hr. destruct (setLifecycleState_kept s now i l r o Hr) as (o' & ? & ?).
    exists o'. auto using kept_stable.
Qed.

End HeapRel.

(** Case analysis on the task a status query works on. *)
Ltac case_task s taskId :=
  rewrite ?getTaskStatus_state; destruct (taskDetailsOf s taskId) as [[? ?]|].

Create HintDb kept.
#[export] Hint Resolve kept_refl kept_stable kept_advance_stable kept_setAccountStatus
  kept_applyLifecycle : kept.

(** * The task state machine *)

Section TaskLedger.

Lemma advance_status o st : o_status o = Some st → o_status (advance o) = Some (next st).
Proof. unfold advance. intros H. rewrite H. by destruct st. Qed.

Lemma advance_not_queued o : o_status (advance o) ≠ Some QUEUED.
Proof. unfold advance. by destruct (o_status o) as [[]|] eqn:E; simpl; rewrite ?E. Qed.

Lemma statusOf_query s taskId st :
  statusOf s taskId = Some st →
  statusOf (simulateGetTaskStatus s taskId).1 taskId = Some (next st).
Proof.
  unfold statusOf. rewrite getTaskStatus_state.
  destruct (taskDetailsOf s taskId) as [[r o]|] eqn:E; simpl; [|done].
  intros Hst. rewrite taskDetailsOf_mutate, E. simpl.
  rewrite decide_True by done. by apply advance_status.
Qed.

Lemma statusOf_queries n : ∀ s taskId st,
  statusOf s taskId = Some st →
  statusOf (stateAfter n taskId s) taskId = Some (Nat.iter n next st).
Proof.
  induction n as [|n IH]; intros s taskId st Hst; [done|].
  rewrite Nat.iter_succ_r. simpl. by apply IH, statusOf_query.
Qed.

(** What a returned snapshot is made of. *)
Lemma getTaskStatus_returned s taskId resp :
  (simulateGetTaskStatus s taskId).2 = Returned resp →
  (taskDetailsOf s taskId = None ∧ resp_status resp = 404 ∧
   ∃ m, resp_data resp = DataMessage m) ∨
  (∃ r o t, taskDetailsOf s taskId = Some (r, o) ∧ resp_status resp = 200 ∧
            resp_data resp = DataTask t ∧ ti_id t = taskId ∧
            ti_status t = o_status (advance o) ∧ is_Some (ti_result t)).
Proof.
  unfold simulateGetTaskStatus.
  destruct (taskDetailsOf s taskId) as [[r o]|]; simpl.
  - destruct (truthy (o_accountId (advance o))).
    + destruct (o_accountData (advance o)); simpl; [|done].
      intros [= <-]. right. eexists r, o, _. simpl. eauto 10.
    + intros [= <-]. right. eexists r, o, _. simpl. eauto 10.
  - intros [= <-]. left. simpl. eauto.
Qed.

End TaskLedger.

(** C1. For a task in the ledger with status [st], a status query leaves it
    at [next st], one stage further along QUEUED, PROCESSING, COMPLETED and
    COMPLETED again once terminal; a returned snapshot reports that status;
    [n] queries in a row apply [next] [n] times, so from the second on the
    task is COMPLETED; the query leaves the status of every other task
    alone; and no operation of the simulator moves the status of an existing
    task object other than by keeping it or taking it to the next stage. *)
Theorem task_status_advances_one_stage s taskId st :
  statusOf s taskId = Some st →
  statusOf (simulateGetTaskStatus s taskId).1 taskId = Some (next st) ∧
  stage (next st) = Nat.min 2 (S (stage st)) ∧
  (∀ resp, (simulateGetTaskStatus s taskId).2 = Returned resp →
           data_status (resp_data resp) = Some (next st)) ∧
  (∀ n, statusOf (stateAfter n taskId s) taskId = Some (Nat.iter n next st)) ∧
  (∀ n, 2 ≤ n → statusOf (stateAfter n taskId s) taskId = Some COMPLETED) ∧
  (∀ taskId' r r' o o',
     taskDetailsOf s taskId = Some (r, o) → taskDetailsOf s taskId' = Some (r', o') →
     r' ≠ r → statusOf (simulateGetTaskStatus s taskId).1 taskId' = o_status o') ∧
  (∀ op r o st0, deref s r = Some o → o_status o = Some st0 →
     ∃ o', deref (step s op) r = Some o' ∧
           (o_status o' = Some st0 ∨ o_status o' = Some (next st0))).
Proof.
  intros Hst. split; [by apply statusOf_query|].
  split; [by destruct st|].
  split.
  { intros resp Hresp.
    destruct (getTaskStatus_returned _ _ _ Hresp)
      as [(Hn & _)|(r & o & t & Ht & _ & -> & _ & Hs & _)].
    - unfold statusOf in Hst. by rewrite Hn in Hst.
    - simpl. rewrite Hs. apply advance_status.
      unfold statusOf in Hst. by rewrite Ht in Hst. }
  split; [intros n; by apply statusOf_queries|].
  split.
  { intros n Hn. rewrite (statusOf_queries n s taskId st Hst).
    destruct n as [|[|n]]; [lia | lia |].
    f_equal. clear. induction n as [|n IH]; [by destruct st|].
    rewrite Nat.iter_succ. by rewrite IH. }
  split.
  { intros taskId' r r' o o' Ht Ht' Hne. unfold statusOf.
    rewrite getTaskStatus_state, Ht, taskDetailsOf_mutate, Ht'. simpl.
    by rewrite decide_False by done. }
  intros op r o st0 Hr Ho.
  destruct (step_stable s op r o Hr) as (o' & Hr' & _ & _ & _ & Hs).
  exists o'. split; [done|].
  destruct Hs as [Hs|(st1 & H1 & H2)]; [left; congruence|].
  right. congruence.
Qed.

Lemma task_status_advances_one_stage_witness :
  statusOf stateCreated (Some (creationTaskId 1)) = Some QUEUED ∧
  statusOf (simulateGetTaskStatus stateCreated (Some (creationTaskId 1))).1
           (Some (creationTaskId 1)) = Some PROCESSING.
Proof.
  split; [reflexivity|].
  apply (task_status_advances_one_stage stateCreated (Some (creationTaskId 1)) QUEUED).
  reflexivity.
Defined.

(** C2 (the code departs from it). In any state, once disableAccount has
    accepted a non-empty account id, its task is in the ledger, and the
    status query for that task throws a TypeError instead of returning a
    snapshot: the task record has an accountId but no accountData. *)
Theorem disable_task_status_query_throws s now accountId :
  accountId ≠ "" →
  resp_status (simulateDisableAccount s now accountId).2 = 202 →
  let s' := (simulateDisableAccount s now accountId).1 in
  data_id (resp_data (simulateDisableAccount s now accountId).2) = Some (disableTaskId now) ∧
  (∃ r, taskDetailsOf s' (Some (disableTaskId now)) = Some (r, disableTask accountId)) ∧
  (simulateGetTaskStatus s' (Some (disableTaskId now))).2 = Threw sourceIdTypeError.
Proof.
  intros Hne H202. cbv zeta.
  rewrite disableAccount_response in H202 |- *. rewrite disableAccount_state.
  destruct (findTargetAccount accountId (entries s (simulatedIdentitiesStore s)))
    as [[[k r] i]|]; [|done].
  split; [done|].
  set (s2 := disabledState s accountId k r i).
  set (s' := setAccountsStore _ _ _).
  assert (Ht : taskDetailsOf s' (Some (disableTaskId now)) =
               Some (length (heap s2), disableTask accountId)).
  { unfold taskDetailsOf. subst s'. simpl.
    replace (store_obj _ _ _) with (Some (length (heap s2), disableTask accountId)); [done|].
    symmetry. apply store_obj_Some. split; [apply store_get_set_eq|].
    apply (deref_alloc_new (disableTask accountId) s2). }
  split; [eauto|].
  unfold simulateGetTaskStatus. rewrite Ht. simpl.
  by rewrite bool_decide_eq_true_2.
Qed.

Lemma disable_task_status_query_throws_witness :
  (simulateGetTaskStatus stateDisabled (Some (disableTaskId 2))).2 = Threw sourceIdTypeError.
Proof.
  apply (disable_task_status_query_throws stateCreated 2 (accountIdOf 3));
    [vm_compute; discriminate | reflexivity].
Defined.

(** C4, as the code has it. Every snapshot that getTaskStatus returns for a
    task carries a populated result, whatever status it reports, and it
    never reports QUEUED: the result is built on every query, not only once
    the task is COMPLETED. *)
Theorem snapshot_always_carries_result s taskId resp t :
  (simulateGetTaskStatus s taskId).2 = Returned resp →
  resp_data resp = DataTask t →
  is_Some (ti_result t) ∧ ti_status t ≠ Some QUEUED.
Proof.
  intros Hresp Ht.
  destruct (getTaskStatus_returned _ _ _ Hresp)
    as [(_ & _ & m & Hm)|(r & o & t' & _ & _ & Ht' & _ & Hs & Hres)]; [congruence|].
  assert (t' = t) as -> by congruence.
  split; [done|]. rewrite Hs. apply advance_not_queued.
Qed.

Lemma snapshot_always_carries_result_witness :
  ∃ t, is_Some (ti_result t) ∧ ti_status t = Some PROCESSING.
Proof.
  eexists.
  split; [eapply (snapshot_always_carries_result stateCreated (Some (creationTaskId 1)));
          reflexivity | reflexivity].
Defined.

(** C4 fails as stated: the first query of a freshly created account task
    returns a snapshot that is still PROCESSING and already carries the
    complete result. *)
Lemma result_only_when_completed_counterexample :
  (simulateGetTaskStatus stateCreated (Some (creationTaskId 1))).2 =
  Returned {| resp_status := 200;
              resp_data := DataTask
                {| ti_id := Some (creationTaskId 1); ti_type := "GENERIC_TASK";
                   ti_name := None; ti_status := Some PROCESSING;
                   ti_result := Some (AccountResult (Some (accountIdOf 3))
                                        (Some (identityIdOf 2)) "s1" "success") |} |}.
Proof. vm_compute. reflexivity. Qed.

(** * The poller *)

Section Poller.

Lemma pollLoop_unfold n taskId s :
  pollLoop (S n) taskId s =
  match reportsCompleted (simulateGetTaskStatus s taskId).2 with
  | Some d => ((simulateGetTaskStatus s taskId).1, Some d)
  | None => pollLoop n taskId (simulateGetTaskStatus s taskId).1
  end.
Proof.
  simpl. destruct (simulateGetTaskStatus s taskId) as [s' [resp|e]]; simpl; [|done].
  by destruct (bool_decide _).
Qed.

Lemma pollLoop_exhausted n : ∀ taskId s,
  (∀ k, k < n → reportsCompleted (outcomeAt k taskId s) = None) →
  pollLoop n taskId s = (stateAfter n taskId s, None).
Proof.
  induction n as [|n IH]; intros taskId s Hnone; [done|].
  rewrite pollLoop_unfold.
  assert (H0 : reportsCompleted (simulateGetTaskStatus s taskId).2 = None)
    by (apply (Hnone 0); lia).
  rewrite H0. apply (IH taskId (simulateGetTaskStatus s taskId).1). intros k Hk. apply (Hnone (S k)). lia.
Qed.

Lemma pollLoop_first n : ∀ taskId s k d,
  k < n →
  (∀ j, j < k → reportsCompleted (outcomeAt j taskId s) = None) →
  reportsCompleted (outcomeAt k taskId s) = Some d →
  pollLoop n taskId s = (stateAfter (S k) taskId s, Some d).
Proof.
  induction n as [|n IH]; intros taskId s k d Hk Hbefore Hat; [lia|].
  rewrite pollLoop_unfold. destruct k as [|k].
  - unfold outcomeAt in Hat. simpl in Hat. by rewrite Hat.
  - assert (H0 : reportsCompleted (simulateGetTaskStatus s taskId).2 = None)
      by (apply (Hbefore 0); lia).
    rewrite H0. apply (IH taskId (simulateGetTaskStatus s taskId).1 k d); [lia | | exact Hat].
    intros j Hj. apply (Hbefore (S j)). lia.
Qed.

End Poller.

(** C8. The poller resolves with the snapshot of the first of its
    [attempts] queries that reports COMPLETED, after exactly that many
    queries; when none of them does, it fails with the 500 error whose
    message names the task id and the number of attempts; and a query that
    throws is one used-up attempt, after which polling goes on with the
    attempts that remain. The delay between attempts touches no state. *)
Theorem poller_resolves_or_times_out s taskId attempts :
  (∀ k d, k < attempts →
     (∀ j, j < k → reportsCompleted (outcomeAt j taskId s) = None) →
     reportsCompleted (outcomeAt k taskId s) = Some d →
     pollTaskStatus s taskId attempts = (stateAfter (S k) taskId s, Returned d) ∧
     data_status d = Some COMPLETED) ∧
  ((∀ k, k < attempts → reportsCompleted (outcomeAt k taskId s) = None) →
   pollTaskStatus s taskId attempts =
   (stateAfter attempts taskId s,
    Threw (ApiError 500 ("Task " +:+ toStr taskId +:+ " did not complete after " +:+
                         pretty attempts +:+ " attempts.")))) ∧
  (∀ e n, (simulateGetTaskStatus s taskId).2 = Threw e →
     pollLoop (S n) taskId s = pollLoop n taskId (simulateGetTaskStatus s taskId).1).
Proof.
  split; [|split].
  - intros k d Hk Hbefore Hat. split.
    + unfold pollTaskStatus. by rewrite (pollLoop_first attempts taskId s k d).
    + unfold reportsCompleted in Hat.
      destruct (outcomeAt k taskId s) as [resp|e]; [|done].
      case_bool_decide; [|done]. by injection Hat as <-.
  - intros Hnone. unfold pollTaskStatus. by rewrite pollLoop_exhausted.
  - intros e n He. rewrite pollLoop_unfold. by rewrite He.
Qed.

Lemma poller_resolves_or_times_out_witness :
  (∃ d, pollTaskStatus stateCreated (Some (creationTaskId 1)) 5 =
        (stateAfter 2 (Some (creationTaskId 1)) stateCreated, Returned d)) ∧
  pollTaskStatus stateDisabled (Some (disableTaskId 2)) 5 =
  (stateAfter 5 (Some (disableTaskId 2)) stateDisabled,
   Threw (ApiError 500 "Task disable-account-task-2 did not complete after 5 attempts.")).
Proof.
  destruct (poller_resolves_or_times_out stateCreated (Some (creationTaskId 1)) 5)
    as (Hfirst & _ & _).
  destruct (poller_resolves_or_times_out stateDisabled (Some (disableTaskId 2)) 5)
    as (_ & Hnone & _).
  split.
  - eexists. eapply (Hfirst 1).
    + lia.
    + intros [|j] Hj; [reflexivity | lia].
    + reflexivity.
  - apply Hnone. intros k Hk.
    destruct k as [|[|[|[|[|k]]]]]; [reflexivity .. | lia].
Defined.

(** * Directory lookups and the lifecycle operation *)

Section Lookups.

Lemma entries_elem s st k r o :
  (k, r, o) ∈ entries s st ↔ (k, r) ∈ st ∧ deref s r = Some o.
Proof.
  unfold entries. rewrite list_elem_of_omap. split.
  - intros ([k' r'] & Hin & Heq). simpl in Heq.
    destruct (deref s r') as [o'|] eqn:E; simpl in Heq; [|done].
    by injection Heq as -> -> ->.
  - intros [Hin Hd]. exists (k, r). split; [done|]. simpl. by rewrite Hd.
Qed.

Lemma entries_deref s st e : e ∈ entries s st → deref s e.1.2 = Some e.2.
Proof. destruct e as [[k r] o]. rewrite entries_elem. by intros [_ ?]. Qed.

Lemma store_obj_entry s st k r o :
  store_obj s st k = Some (r, o) → (k, r, o) ∈ entries s st.
Proof.
  rewrite store_obj_Some, entries_elem. intros [Hg Hd].
  split; [by apply store_get_elem | done].
Qed.


Lemma findIdentityById_None s identityId :
  findIdentityById s identityId = None ↔ ¬ identityKnown s identityId.
Proof.
  unfold findIdentityById, identityKnown.
  destruct (store_obj s (simulatedIdentitiesStore s) identityId) as [[r0 o0]|] eqn:E.
  - split; [done | intros H; destruct H; left; eauto].
  - destruct (List.find _ _) as [e|] eqn:F; simpl.
    + split; [done|]. intros H. destruct H. right.
      apply find_some in F as [Hin HP]. exists e.
      split; [by apply list_elem_of_In | by apply bool_decide_eq_true in HP].
    + split; [|done]. intros _ [[x Hx]|(e & Hin & He)]; [done|].
      apply list_elem_of_In in Hin.
      pose proof (find_none _ _ F e Hin) as HP. simpl in HP.
      by apply bool_decide_eq_false in HP.
Qed.

Lemma applyLifecycle_lifecycleState l o :
  o_lifecycleState (applyLifecycle l o) = Some l.
Proof. unfold applyLifecycle. by case_bool_decide. Qed.

Lemma applyLifecycle_terminated o a :
  a ∈ accountsOf (applyLifecycle "terminated" o) → acc_status a = disabled.
Proof.
  unfold applyLifecycle, accountsOf. rewrite bool_decide_eq_true_2 by done. simpl.
  destruct (o_accounts o) as [l|]; simpl; [|by rewrite elem_of_nil].
  rewrite list_elem_of_fmap. by intros (a0 & -> & _).
Qed.

Lemma applyLifecycle_other l o :
  l ≠ "terminated" → o_accounts (applyLifecycle l o) = o_accounts o.
Proof. intros Hl. unfold applyLifecycle. by rewrite bool_decide_eq_false_2. Qed.

Lemma setLifecycleState_response s now identityId l :
  (simulateSetLifecycleState s now identityId l).2 =
  match findIdentityById s identityId with
  | None =>
      {| resp_status := 404;
         resp_data := DataMessage ("Identity " +:+ identityId +:+
                                   " not found for lifecycle state change (simulated).") |}
  | Some (_, identity) =>
      {| resp_status := 202;
         resp_data := DataTask
           {| ti_id := Some (lcsTaskId now); ti_type := "IDENTITY_LIFECYCLE_UPDATE";
              ti_name := Some ("Lifecycle state change for " +:+ toStr (o_name identity) +:+
                               " to " +:+ l);
              ti_status := Some QUEUED; ti_result := None |} |}
  end.
Proof.
  unfold simulateSetLifecycleState.
  by destruct (findIdentityById s identityId) as [[r o]|].
Qed.

End Lookups.


(** * Invariants of reachable states *)

Section Invariants.

Lemma createAccount_state s now d :
  (simulateCreateAccount s now d).1 =
  let accountId := accountIdOf (accountCounter s) in
  let identityId := identityIdOf (identityCounter s) in
  let task := creationTask accountId d in
  let ri := length (heap s ++ [task]) in
  {| heap := (heap s ++ [task]) ++ [newIdentity accountId identityId d];
     simulatedAccountsStore :=
       store_set (creationTaskId now) (length (heap s)) (simulatedAccountsStore s);
     simulatedIdentitiesStore :=
       store_set identityId ri (store_set accountId ri (simulatedIdentitiesStore s));
     accountCounter := S (accountCounter s);
     identityCounter := S (identityCounter s) |}.
Proof. reflexivity. Qed.

(** ** Account ids *)

Lemma heapAcctIds_app h1 h2 : heapAcctIds (h1 ++ h2) = heapAcctIds h1 ++ heapAcctIds h2.
Proof. unfold heapAcctIds. by rewrite fmap_app, join_app. Qed.

Lemma heapAcctIds_alter f r h :
  (∀ o, acctIds (f o) = acctIds o) → heapAcctIds (alter f r h) = heapAcctIds h.
Proof.
  intros Hf. unfold heapAcctIds. revert r.
  induction h as [|o h IH]; intros [|r]; simpl; try done.
  - by rewrite Hf.
  - f_equal. apply IH.
Qed.

Lemma heapAcctIds_elem h x :
  x ∈ heapAcctIds h ↔ ∃ r o a, h !! r = Some o ∧ a ∈ accountsOf o ∧ acc_id a = x.
Proof.
  unfold heapAcctIds. rewrite list_elem_of_join. split.
  - intros (l & Hx & Hl). apply list_elem_of_fmap in Hl as (o & -> & Ho).
    apply list_elem_of_lookup in Ho as [r Hr].
    unfold acctIds in Hx. apply list_elem_of_fmap in Hx as (a & -> & Ha).
    by exists r, o, a.
  - intros (r & o & a & Hr & Ha & <-). exists (acctIds o). split.
    + unfold acctIds. by apply list_elem_of_fmap_2.
    + apply list_elem_of_fmap_2. by eapply list_elem_of_lookup_2.
Qed.

Lemma accountsInv_same s s' :
  heapAcctIds (heap s') = heapAcctIds (heap s) →
  accountCounter s' = accountCounter s →
  accountsInv s → accountsInv s'.
Proof. unfold accountsInv. by intros -> ->. Qed.

Lemma acctIdBounded_mono (n m : nat) a : n ≤ m → acctIdBounded n a → acctIdBounded m a.
Proof. intros Hle [H|(k & Hk & ->)]; [by left | right; exists k; split; [lia | done]]. Qed.

Lemma accountsInv_create s now d :
  accountsInv s → accountsInv (simulateCreateAccount s now d).1.
Proof.
  intros [Hnd Hb]. rewrite createAccount_state. unfold accountsInv. simpl.
  rewrite !heapAcctIds_app.
  change (heapAcctIds [creationTask (accountIdOf (accountCounter s)) d]) with (@nil string).
  change (heapAcctIds [newIdentity _ _ d]) with [accountIdOf (accountCounter s)].
  rewrite app_nil_r. split.
  - apply NoDup_app. split; [done|]. split; [|apply NoDup_singleton].
    intros x Hx. rewrite list_elem_of_singleton. intros ->.
    rewrite Forall_forall in Hb. destruct (Hb _ Hx) as [Hs|(k & Hk & Heq)].
    + by apply accountId_not_seeded in Hs.
    + apply accountIdOf_inj in Heq. lia.
  - apply Forall_app. split.
    + eapply Forall_impl; [exact Hb|]. intros a. apply acctIdBounded_mono. lia.
    + apply Forall_singleton. right. exists (accountCounter s). split; [lia | done].
Qed.

Lemma accountsInv_getTaskStatus s taskId :
  accountsInv s → accountsInv (simulateGetTaskStatus s taskId).1.
Proof.
  case_task s taskId; [|done].
  apply accountsInv_same; [|done]. simpl. apply heapAcctIds_alter.
  intros o'. by destruct (kept_advance_stable o') as (_ & _ & ? & _).
Qed.

Lemma heapAcctIds_setAccountStatusAt r i st s :
  heapAcctIds (heap (setAccountStatusAt r i st s)) = heapAcctIds (heap s).
Proof.
  simpl. apply heapAcctIds_alter. intros o. apply acctIds_set_accounts_alter.
Qed.

Lemma heapAcctIds_disabledState s accountId k r i :
  heapAcctIds (heap (disabledState s accountId k r i)) = heapAcctIds (heap s).
Proof.
  unfold disabledState.
  destruct (store_obj _ _ k) as [[r' o']|];
    [|apply heapAcctIds_setAccountStatusAt].
  destruct (o_accounts o' ≫= findIndex accountId) as [j|];
    [|apply heapAcctIds_setAccountStatusAt].
  by rewrite !heapAcctIds_setAccountStatusAt.
Qed.

Lemma accountsInv_disableAccount s now accountId :
  accountsInv s → accountsInv (simulateDisableAccount s now accountId).1.
Proof.
  rewrite disableAccount_state.
  destruct (findTargetAccount _ _) as [[[k r] i]|]; [|done].
  apply accountsInv_same.
  - simpl. rewrite heapAcctIds_app, heapAcctIds_disabledState.
    change (heapAcctIds [disableTask accountId]) with (@nil string).
    by rewrite app_nil_r.
  - simpl. unfold disabledState.
    destruct (store_obj _ _ k) as [[r' o']|]; [|done].
    by destruct (o_accounts o' ≫= findIndex accountId).
Qed.

Lemma accountsInv_setLifecycleState s now identityId l :
  accountsInv s → accountsInv (simulateSetLifecycleState s now identityId l).1.
Proof.
  rewrite setLifecycleState_state.
  destruct (findIdentityById s identityId) as [[r o]|]; [|done].
  apply accountsInv_same; [|done].
  simpl. rewrite heapAcctIds_app.
  change (heapAcctIds [lifecycleTask identityId l (o_name o)]) with (@nil string).
  rewrite app_nil_r. apply heapAcctIds_alter.
  intros o'. by destruct (kept_applyLifecycle l o') as (_ & _ & ? & _).
Qed.

Lemma accountsInv_init : accountsInv initialState.
Proof.
  unfold accountsInv.
  change (heapAcctIds (heap initialState)) with seededAccountIds.
  split.
  - vm_compute. repeat (apply NoDup_cons; split; [|]);
      rewrite ?elem_of_cons, ?elem_of_nil; try apply NoDup_nil_2; intuition discriminate.
  - apply Forall_forall. intros x Hx. by left.
Qed.

(** ** Shape of the stores *)

Lemma identityKeyOK_mono s s' k :
  identityCounter s ≤ identityCounter s' → accountCounter s ≤ accountCounter s' →
  identityKeyOK s k → identityKeyOK s' k.
Proof.
  intros Hi Ha [(n & Hn & ->)|[(n & Hn & ->)|(t & ->)]].
  - left. exists n. split; [lia | done].
  - right; left. exists n. split; [lia | done].
  - right; right. by exists t.
Qed.

Lemma anonymous_stable o o' : stable o o' → anonymous o → anonymous o'.
Proof. intros (Hid & Hem & _) [He Hi]. split; congruence. Qed.

(** Entries that were there keep their invariant along any change of the
    heap that is [stable]; entries that are new have to bring it. *)
Lemma storeInv_update s s' :
  storeInv s → heapRel stable s s' →
  identityCounter s ≤ identityCounter s' → accountCounter s ≤ accountCounter s' →
  (∀ kr, kr ∈ simulatedIdentitiesStore s' →
     kr ∈ simulatedIdentitiesStore s ∨
     (identityKeyOK s' kr.1 ∧ kr.2 < length (heap s') ∧
      ∀ t o, kr.1 = lcsTaskId t → deref s' kr.2 = Some o → anonymous o)) →
  storeInv s'.
Proof.
  unfold storeInv. rewrite !Forall_forall. intros Hinv Hrel Hi Ha Hnew kr Hin.
  destruct (Hnew kr Hin) as [Hold|Hfresh]; [|done].
  destruct (Hinv kr Hold) as (Hk & Hr & Hanon).
  apply lookup_lt_is_Some_2 in Hr as [o Ho].
  destruct (Hrel kr.2 o Ho) as (o' & Ho' & Hst).
  split; [by eapply identityKeyOK_mono|].
  split; [by eapply lookup_lt_Some|].
  intros t o'' Hkey Ho''. assert (o'' = o') as -> by (unfold deref in *; congruence).
  eapply anonymous_stable; [exact Hst|]. by eapply Hanon.
Qed.

Lemma heapRel_kept_stable s s' : heapRel kept s s' → heapRel stable s s'.
Proof.
  intros H r o Hr. destruct (H r o Hr) as (o' & ? & ?). exists o'. auto using kept_stable.
Qed.

Lemma disabledState_fields s accountId k r i :
  simulatedIdentitiesStore (disabledState s accountId k r i) = simulatedIdentitiesStore s ∧
  simulatedAccountsStore (disabledState s accountId k r i) = simulatedAccountsStore s ∧
  accountCounter (disabledState s accountId k r i) = accountCounter s ∧
  identityCounter (disabledState s accountId k r i) = identityCounter s.
Proof.
  unfold disabledState.
  destruct (store_obj _ _ k) as [[r' o']|]; [|done].
  by destruct (o_accounts o' ≫= findIndex accountId).
Qed.

Lemma storeInv_create s now d : storeInv s → storeInv (simulateCreateAccount s now d).1.
Proof.
  intros Hinv. eapply storeInv_update;
    [exact Hinv | apply heapRel_kept_stable, create_kept | ..].
  - rewrite createAccount_state. simpl. lia.
  - rewrite createAccount_state. simpl. lia.
  - rewrite createAccount_state. cbv zeta. simpl. intros kr Hin.
    apply store_set_elem in Hin as [->|Hin];
      [|apply store_set_elem in Hin as [->|Hin]; [|by left]]; right; simpl.
    + split; [left; exists (identityCounter s); split; [simpl; lia | done]|].
      split; [rewrite !length_app; simpl; lia|].
      intros t o Hk. by apply identityId_not_lcsTaskId in Hk.
    + split; [right; left; exists (accountCounter s); split; [simpl; lia | done]|].
      split; [rewrite !length_app; simpl; lia|].
      intros t o Hk. by apply accountId_not_lcsTaskId in Hk.
Qed.

Lemma storeInv_getTaskStatus s taskId :
  storeInv s → storeInv (simulateGetTaskStatus s taskId).1.
Proof.
  intros Hinv. eapply storeInv_update; [exact Hinv | apply getTaskStatus_stable | ..];
    rewrite getTaskStatus_state; destruct (taskDetailsOf s taskId) as [[r o]|];
    simpl; try lia; by left.
Qed.

Lemma storeInv_disableAccount s now accountId :
  storeInv s → storeInv (simulateDisableAccount s now accountId).1.
Proof.
  intros Hinv. eapply storeInv_update;
    [exact Hinv | apply heapRel_kept_stable, disableAccount_kept | ..];
    rewrite disableAccount_state; destruct (findTargetAccount _ _) as [[[k r] i]|];
    simpl; try lia; try (by left);
    destruct (disabledState_fields s accountId k r i) as (Hs & _ & Ha & Hi);
    rewrite ?Hs, ?Ha, ?Hi; try lia; by left.
Qed.

Lemma storeInv_setLifecycleState s now identityId l :
  storeInv s → storeInv (simulateSetLifecycleState s now identityId l).1.
Proof.
  intros Hinv. eapply storeInv_update;
    [exact Hinv | apply heapRel_kept_stable, setLifecycleState_kept | ..];
    rewrite setLifecycleState_state;
    destruct (findIdentityById s identityId) as [[r o]|]; simpl; try lia; try (by left).
  intros kr Hin. apply store_set_elem in Hin as [->|Hin]; [|by left]. right. simpl.
  split; [right; right; by exists now|].
  split; [rewrite length_app, length_alter; simpl; lia|].
  intros t o' _. unfold deref; simpl.
  rewrite list_lookup_middle by (by rewrite length_alter).
  by intros [= <-].
Qed.

Lemma storeInv_init : storeInv initialState.
Proof.
  unfold storeInv. apply Forall_forall. intros kr Hin. simpl in Hin.
  rewrite !elem_of_cons, elem_of_nil in Hin. destruct Hin as [->|[->|[]]]; simpl.
  - split; [left; exists 0; split; [unfold initialState; simpl; lia | done]|].
    split; [unfold initialState; simpl; lia|].
    intros t o Hk. by apply identityId_not_lcsTaskId in Hk.
  - split; [left; exists 1; split; [unfold initialState; simpl; lia | done]|].
    split; [unfold initialState; simpl; lia|].
    intros t o Hk. by apply identityId_not_lcsTaskId in Hk.
Qed.

Lemma taskKeysInv_set k r s :
  (∃ t, k = creationTaskId t ∨ k = disableTaskId t) →
  Forall (λ kr : string * nat, ∃ t, kr.1 = creationTaskId t ∨ kr.1 = disableTaskId t)
         (simulatedAccountsStore s) →
  Forall (λ kr : string * nat, ∃ t, kr.1 = creationTaskId t ∨ kr.1 = disableTaskId t)
         (store_set k r (simulatedAccountsStore s)).
Proof.
  rewrite !Forall_forall. intros Hk Hinv kr Hin.
  apply store_set_elem in Hin as [->|Hin]; [done | by apply Hinv].
Qed.

Lemma taskKeysInv_step s op : taskKeysInv s → taskKeysInv (step s op).
Proof.
  unfold taskKeysInv. intros Hinv. destruct op as [now d|taskId|now a|now i l]; cbn [step].
  - rewrite createAccount_state. simpl. apply taskKeysInv_set; [|done].
    exists now. by left.
  - by case_task s taskId.
  - rewrite disableAccount_state. destruct (findTargetAccount _ _) as [[[k r] i]|]; [|done].
    simpl. destruct (disabledState_fields s a k r i) as (_ & Hs & _).
    rewrite Hs. apply taskKeysInv_set; [|done]. exists now. by right.
  - rewrite setLifecycleState_state.
    by destruct (findIdentityById s i) as [[r o]|].
Qed.

Lemma wellFormed_step s op : wellFormed s → wellFormed (step s op).
Proof.
  intros (Ha & Hs & Ht). split; [|split; [|by apply taskKeysInv_step]].
  - destruct op; cbn [step];
      [by apply accountsInv_create | by apply accountsInv_getTaskStatus
      | by apply accountsInv_disableAccount | by apply accountsInv_setLifecycleState].
  - destruct op; cbn [step];
      [by apply storeInv_create | by apply storeInv_getTaskStatus
      | by apply storeInv_disableAccount | by apply storeInv_setLifecycleState].
Qed.

Lemma reachable_wellFormed s : reachable s → wellFormed s.
Proof.
  induction 1 as [|s op _ IH]; [|by apply wellFormed_step].
  split; [apply accountsInv_init|]. split; [apply storeInv_init|].
  unfold taskKeysInv. simpl. apply Forall_nil. done.
Qed.

Lemma wellFormed_run ops : ∀ s, wellFormed s → wellFormed (run s ops).
Proof.
  induction ops as [|op ops IH]; intros s Hs; [done|].
  simpl. by apply IH, wellFormed_step.
Qed.

Lemma reachable_run ops : ∀ s, reachable s → reachable (run s ops).
Proof.
  induction ops as [|op ops IH]; intros s Hs; [done|].
  simpl. by apply IH, reachable_step.
Qed.

End Invariants.

(** * Disabling an account *)

Section Uniqueness.

Lemma NoDup_join_lookup {A} (ls : list (list A)) : ∀ i j l1 l2 x,
  NoDup (mjoin ls) → ls !! i = Some l1 → ls !! j = Some l2 →
  x ∈ l1 → x ∈ l2 → i = j.
Proof.
  induction ls as [|l ls IH]; intros i j l1 l2 x Hnd Hi Hj H1 H2; [done|].
  simpl in Hnd. apply NoDup_app in Hnd as (_ & Hdisj & Hnd).
  destruct i as [|i], j as [|j]; simpl in *; [done | | |].
  - injection Hi as <-. destruct (Hdisj x H1).
    apply list_elem_of_join. exists l2. split; [done|]. by eapply list_elem_of_lookup_2.
  - injection Hj as <-. destruct (Hdisj x H2).
    apply list_elem_of_join. exists l1. split; [done|]. by eapply list_elem_of_lookup_2.
  - f_equal. by eapply IH.
Qed.

Lemma NoDup_join_inner {A} (ls : list (list A)) i l :
  NoDup (mjoin ls) → ls !! i = Some l → NoDup l.
Proof.
  revert i. induction ls as [|l0 ls IH]; intros i Hnd Hi; [done|].
  simpl in Hnd. apply NoDup_app in Hnd as (Hl0 & _ & Hnd).
  destruct i as [|i]; simpl in Hi; [by injection Hi as <- | by eapply IH].
Qed.

Lemma NoDup_fmap_eq {A B} (f : A → B) (l : list A) a1 a2 :
  NoDup (f <$> l) → a1 ∈ l → a2 ∈ l → f a1 = f a2 → a1 = a2.
Proof.
  induction l as [|a l IH]; intros Hnd H1 H2 Heq; [by apply elem_of_nil in H1|].
  simpl in Hnd. apply NoDup_cons in Hnd as [Hnotin Hnd].
  apply elem_of_cons in H1 as [->|H1], H2 as [->|H2]; [done | | |by apply IH].
  - destruct Hnotin. rewrite Heq. by apply list_elem_of_fmap_2.
  - destruct Hnotin. rewrite <- Heq. by apply list_elem_of_fmap_2.
Qed.

(** With account ids unique in the heap, two account records with one id
    are one record of one object. *)
Lemma account_record_unique s r1 r2 o1 o2 a1 a2 :
  NoDup (heapAcctIds (heap s)) →
  deref s r1 = Some o1 → deref s r2 = Some o2 →
  a1 ∈ accountsOf o1 → a2 ∈ accountsOf o2 → acc_id a1 = acc_id a2 →
  r1 = r2 ∧ a1 = a2.
Proof.
  unfold heapAcctIds, deref. intros Hnd H1 H2 Ha1 Ha2 Heq.
  assert (Hl1 : (acctIds <$> heap s) !! r1 = Some (acctIds o1))
    by (by rewrite list_lookup_fmap, H1).
  assert (Hl2 : (acctIds <$> heap s) !! r2 = Some (acctIds o2))
    by (by rewrite list_lookup_fmap, H2).
  assert (r1 = r2) as ->.
  { eapply (NoDup_join_lookup _ r1 r2 _ _ (acc_id a1)); eauto.
    - unfold acctIds. by apply list_elem_of_fmap_2.
    - unfold acctIds. rewrite Heq. by apply list_elem_of_fmap_2. }
  split; [done|]. assert (o1 = o2) as -> by congruence.
  eapply (NoDup_fmap_eq acc_id (accountsOf o2)); eauto.
  eapply NoDup_join_inner; eauto.
Qed.

End Uniqueness.

Section Disable.

Lemma findIndex_Some accountId l i :
  findIndex accountId l = Some i → ∃ a, l !! i = Some a ∧ acc_id a = accountId.
Proof.
  revert i. induction l as [|a l IH]; intros i; simpl; [done|].
  destruct (decide (acc_id a = accountId)) as [Heq|Hne].
  - intros [= <-]. by exists a.
  - destruct (findIndex accountId l) as [j|]; simpl; [|done].
    intros [= <-]. by apply IH.
Qed.

Lemma findIndex_None accountId l a :
  findIndex accountId l = None → a ∈ l → acc_id a ≠ accountId.
Proof.
  induction l as [|a0 l IH]; simpl; [by rewrite elem_of_nil|].
  destruct (decide (acc_id a0 = accountId)) as [Heq|Hne]; [done|].
  destruct (findIndex accountId l) as [j|]; simpl; [done|].
  intros _. rewrite elem_of_cons. intros [->|Hin]; [done | by apply IH].
Qed.

Lemma findTargetAccount_Some accountId es k r i :
  findTargetAccount accountId es = Some (k, r, i) →
  ∃ o accs a, (k, r, o) ∈ es ∧ o_accounts o = Some accs ∧
              accs !! i = Some a ∧ acc_id a = accountId.
Proof.
  induction es as [|[[k0 r0] o0] es IH]; simpl; [done|].
  destruct (o_accounts o0) as [accs|] eqn:Ho.
  - destruct (findIndex accountId accs) as [j|] eqn:Hf.
    + intros [= -> -> ->]. apply findIndex_Some in Hf as (a & Ha & Hid).
      exists o0, accs, a. split; [left | done].
    + intros H. destruct (IH H) as (o & accs' & a & Hin & ?).
      exists o, accs', a. split; [by right | done].
  - intros H. destruct (IH H) as (o & accs' & a & Hin & ?).
    exists o, accs', a. split; [by right | done].
Qed.

Lemma findTargetAccount_None accountId es e a :
  findTargetAccount accountId es = None →
  e ∈ es → a ∈ accountsOf e.2 → acc_id a ≠ accountId.
Proof.
  induction es as [|[[k0 r0] o0] es IH]; simpl; [by rewrite elem_of_nil|].
  intros Hf. rewrite elem_of_cons. intros [->|Hin] Ha.
  - simpl in Ha. unfold accountsOf in Ha.
    destruct (o_accounts o0) as [accs|]; simpl in Ha; [|by apply elem_of_nil in Ha].
    destruct (findIndex accountId accs) as [j|] eqn:Hj; [done|].
    by eapply findIndex_None.
  - apply IH; [|done..].
    destruct (o_accounts o0) as [accs|]; [|done].
    by destruct (findIndex accountId accs).
Qed.

Lemma findTargetAccount_known s accountId :
  accountKnown s accountId ↔
  findTargetAccount accountId (entries s (simulatedIdentitiesStore s)) ≠ None.
Proof.
  unfold accountKnown. split.
  - intros (e & a & He & Ha & Hid) Hnone.
    by apply (findTargetAccount_None _ _ e a Hnone He Ha).
  - destruct (findTargetAccount _ _) as [[[k r] i]|] eqn:Hf; [|done].
    intros _. apply findTargetAccount_Some in Hf as (o & accs & a & Hin & Ho & Ha & Hid).
    exists (k, r, o), a. split; [done|]. split; [|done].
    unfold accountsOf; simpl. rewrite Ho. simpl. by eapply list_elem_of_lookup_2.
Qed.

Lemma recordAt_setAccountStatusAt s r i r' j st :
  recordAt (setAccountStatusAt r' j st s) r i =
  (if decide (r' = r ∧ j = i) then set_acc_status st else id) <$> recordAt s r i.
Proof.
  unfold recordAt, setAccountStatusAt. rewrite deref_mutate.
  destruct (deref s r) as [o|]; simpl; [|by destruct (decide (r' = r))].
  destruct (decide (r' = r)) as [->|Hne]; simpl.
  - destruct (o_accounts o) as [accs|]; simpl; [|done].
    rewrite list_lookup_alter. destruct (decide (j = i)) as [->|Hji].
    + by rewrite decide_True.
    + rewrite decide_False by tauto. by destruct (accs !! i).
  - rewrite decide_False by tauto.
    destruct (o_accounts o) as [accs|]; simpl; [|done]. by destruct (accs !! i).
Qed.

(** Once [heap[r].accounts[i]] is a disabled record of the account, the
    second write of simulateDisableAccount leaves it so. *)
Lemma disabledState_record s accountId k r i a :
  recordAt s r i = Some a → acc_id a = accountId →
  ∃ a', recordAt (disabledState s accountId k r i) r i = Some a' ∧
        acc_id a' = accountId ∧ acc_status a' = disabled.
Proof.
  intros Hrec Hid. unfold disabledState.
  set (s1 := setAccountStatusAt r i disabled s).
  assert (H1 : recordAt s1 r i = Some (set_acc_status disabled a)).
  { unfold s1. rewrite recordAt_setAccountStatusAt, Hrec. simpl.
    by rewrite decide_True. }
  destruct (store_obj s1 (simulatedIdentitiesStore s1) k) as [[r' o']|];
    [|by exists (set_acc_status disabled a)].
  destruct (o_accounts o' ≫= findIndex accountId) as [j|];
    [|by exists (set_acc_status disabled a)].
  rewrite recordAt_setAccountStatusAt, H1. simpl.
  destruct (decide (r' = r ∧ j = i)); by eexists.
Qed.

Lemma recordAt_elem s r i a :
  recordAt s r i = Some a → ∃ o, deref s r = Some o ∧ a ∈ accountsOf o.
Proof.
  unfold recordAt, accountsOf. destruct (deref s r) as [o|] eqn:Hd; simpl; [|done].
  destruct (o_accounts o) as [accs|] eqn:Ho; simpl; [|done].
  intros H. exists o. split; [done|]. rewrite Ho. simpl.
  by eapply list_elem_of_lookup_2.
Qed.

(** A write that finds the record already in the status it sets changes
    nothing. *)
Lemma setAccountStatusAt_fixed s r j st o accs a :
  deref s r = Some o → o_accounts o = Some accs → accs !! j = Some a →
  acc_status a = st → setAccountStatusAt r j st s = s.
Proof.
  intros Hd Ho Ha Hst. unfold setAccountStatusAt. apply (mutate_fixed _ _ _ o Hd).
  rewrite Ho. simpl.
  assert (alter (set_acc_status st) j accs = accs) as ->.
  { apply list_eq. intros n. rewrite list_lookup_alter.
    destruct (decide (j = n)) as [<-|]; [|done]. rewrite Ha. simpl.
    f_equal. destruct a; simpl in *. by subst. }
  destruct o; simpl in *. by subst.
Qed.

Lemma recordAt_found s accountId k r i :
  findTargetAccount accountId (entries s (simulatedIdentitiesStore s)) = Some (k, r, i) →
  ∃ a, recordAt s r i = Some a ∧ acc_id a = accountId.
Proof.
  intros Hf. apply findTargetAccount_Some in Hf as (o & accs & a & Hin & Ho & Hi & Hid).
  exists a. split; [|done]. unfold recordAt. apply entries_deref in Hin. simpl in Hin.
  rewrite Hin. simpl. by rewrite Ho.
Qed.

(** With account ids unique in the heap, the second write of
    simulateDisableAccount, made through the store key, meets the record
    the first write has just disabled: the two writes are one. *)
Lemma disabledState_unique s accountId k r i :
  NoDup (heapAcctIds (heap s)) →
  findTargetAccount accountId (entries s (simulatedIdentitiesStore s)) = Some (k, r, i) →
  disabledState s accountId k r i = setAccountStatusAt r i disabled s.
Proof.
  intros Hnd Hf. apply recordAt_found in Hf as (a & Hrec & Hid).
  unfold disabledState. set (s1 := setAccountStatusAt r i disabled s).
  assert (Hnd1 : NoDup (heapAcctIds (heap s1)))
    by (unfold s1; by rewrite heapAcctIds_setAccountStatusAt).
  assert (Hrec1 : recordAt s1 r i = Some (set_acc_status disabled a)).
  { unfold s1. rewrite recordAt_setAccountStatusAt, Hrec. simpl. by rewrite decide_True. }
  destruct (store_obj s1 (simulatedIdentitiesStore s1) k) as [[r' o']|] eqn:Hs; [|done].
  destruct (o_accounts o') as [accs'|] eqn:Ho'; simpl; [|done].
  destruct (findIndex accountId accs') as [j|] eqn:Hj; [|done].
  apply findIndex_Some in Hj as (a' & Ha' & Hid').
  apply store_obj_Some in Hs as [_ Hd'].
  destruct (recordAt_elem _ _ _ _ Hrec1) as (o1 & Hd1 & Ha1).
  assert (Hin' : a' ∈ accountsOf o').
  { unfold accountsOf. rewrite Ho'. simpl. by eapply list_elem_of_lookup_2. }
  destruct (account_record_unique s1 r' r o' o1 a' (set_acc_status disabled a)
              Hnd1 Hd' Hd1 Hin' Ha1) as [-> ->]; [simpl; congruence|].
  by eapply (setAccountStatusAt_fixed s1 r j disabled o' accs').
Qed.

End Disable.

(** C6. In a reachable state, when some stored identity holds the account,
    disableAccount finds one record [heap[r].accounts[i]] of that account
    and answers 202 with the id of a QUEUED task. The state it leaves is
    the old one with the status of that record set to disabled and the
    disable task stored in the ledger under the returned id: the record is
    there and disabled, every other record and every other object is as it
    was, the identities store is as it was, and every record of the
    account that can be reached through the identities store, under
    whatever key, is disabled. When no identity holds the account, the
    answer is 404 and the whole state, account statuses and task ledger
    included, is as before. The account record and the identity's embedded
    one cannot diverge: in a reachable state any two records with the same
    account id, reached through any two keys, are the same record of the
    same object. *)
Theorem disableAccount_effects s now accountId :
  reachable s →
  (accountKnown s accountId →
   ∃ k r i a,
     findTargetAccount accountId (entries s (simulatedIdentitiesStore s)) = Some (k, r, i) ∧
     recordAt s r i = Some a ∧ acc_id a = accountId ∧
     let s' := (simulateDisableAccount s now accountId).1 in
     let resp := (simulateDisableAccount s now accountId).2 in
     resp_status resp = 202 ∧
     data_id (resp_data resp) = Some (disableTaskId now) ∧
     data_status (resp_data resp) = Some QUEUED ∧
     s' = setAccountsStore (disableTaskId now) (length (heap s))
            (alloc (disableTask accountId) (setAccountStatusAt r i disabled s)).2 ∧
     recordAt s' r i = Some (set_acc_status disabled a) ∧
     (∀ r0 j, (r0, j) ≠ (r, i) → r0 < length (heap s) →
              recordAt s' r0 j = recordAt s r0 j) ∧
     (∀ r0, r0 ≠ r → r0 < length (heap s) → deref s' r0 = deref s r0) ∧
     simulatedIdentitiesStore s' = simulatedIdentitiesStore s ∧
     (∀ e a', e ∈ entries s' (simulatedIdentitiesStore s') →
              a' ∈ accountsOf e.2 → acc_id a' = accountId → acc_status a' = disabled) ∧
     store_obj s' (simulatedAccountsStore s') (disableTaskId now) =
       Some (length (heap s), disableTask accountId) ∧
     deref s (length (heap s)) = None) ∧
  (¬ accountKnown s accountId →
   resp_status (simulateDisableAccount s now accountId).2 = 404 ∧
   (simulateDisableAccount s now accountId).1 = s) ∧
  (∀ e1 e2 a1 a2,
     e1 ∈ entries s (simulatedIdentitiesStore s) →
     e2 ∈ entries s (simulatedIdentitiesStore s) →
     a1 ∈ accountsOf e1.2 → a2 ∈ accountsOf e2.2 → acc_id a1 = acc_id a2 →
     e1.1.2 = e2.1.2 ∧ a1 = a2).
Proof.
  intros Hreach.
  destruct (reachable_wellFormed s Hreach) as ([Hnd _] & _ & _).
  rewrite !findTargetAccount_known.
  rewrite disableAccount_response, disableAccount_state.
  split; [|split].
  - intros Hk.
    destruct (findTargetAccount _ _) as [[[k r] i]|] eqn:Hf; [|done].
    destruct (recordAt_found s accountId k r i Hf) as (a & Hrec & Hid).
    exists k, r, i, a. split; [done|]. split; [done|]. split; [done|]. cbv zeta.
    split; [done|]. split; [done|]. split; [done|].
    rewrite (disabledState_unique s accountId k r i Hnd Hf).
    set (s1 := setAccountStatusAt r i disabled s).
    assert (Hlen : length (heap s1) = length (heap s))
      by (unfold s1; simpl; apply length_alter).
    assert (Halloc : (alloc (disableTask accountId) s1).1 = length (heap s))
      by (by unfold alloc; simpl; rewrite length_alter).
    rewrite Halloc.
    set (s' := setAccountsStore _ _ _).
    assert (Hold : ∀ r0, r0 < length (heap s) → deref s' r0 = deref s1 r0).
    { intros r0 Hr0. unfold s', deref. simpl. apply lookup_app_l.
      by rewrite length_alter. }
    assert (Hrec1 : recordAt s1 r i = Some (set_acc_status disabled a)).
    { unfold s1. rewrite recordAt_setAccountStatusAt, Hrec. simpl.
      by rewrite decide_True. }
    assert (Hr : r < length (heap s)).
    { apply recordAt_elem in Hrec as (o & Ho & _). by eapply lookup_lt_Some. }
    assert (Hrec' : recordAt s' r i = Some (set_acc_status disabled a)).
    { unfold recordAt in *. by rewrite Hold. }
    split; [done|]. split; [exact Hrec'|].
    split.
    { intros r0 j Hne Hr0. unfold recordAt. rewrite Hold by done.
      change (recordAt s1 r0 j = recordAt s r0 j).
      unfold s1. rewrite recordAt_setAccountStatusAt.
      rewrite decide_False by (intros [-> ->]; by destruct Hne).
      by destruct (recordAt s r0 j). }
    split.
    { intros r0 Hne Hr0. rewrite Hold by done. unfold s1, setAccountStatusAt.
      rewrite deref_mutate. by rewrite decide_False. }
    split; [done|].
    split.
    { intros e a' He Ha' Hid'.
      apply recordAt_elem in Hrec' as (o2 & Ho2 & Ha2).
      apply entries_deref in He.
      assert (Hnd' : NoDup (heapAcctIds (heap s'))).
      { unfold s'. simpl. rewrite heapAcctIds_app, heapAcctIds_alter
          by (intros o; apply acctIds_set_accounts_alter).
        simpl. by rewrite app_nil_r. }
      destruct (account_record_unique s' _ _ _ _ a' (set_acc_status disabled a)
                  Hnd' He Ho2 Ha' Ha2) as [_ ->]; [simpl; congruence | done]. }
    split.
    { apply store_obj_Some. split; [apply store_get_set_eq|].
      unfold s', deref. simpl. rewrite <- Hlen. apply list_lookup_middle. done. }
    by apply lookup_ge_None_2.
  - intros Hk. destruct (findTargetAccount _ _) as [[[k r] i]|]; [by destruct Hk | done].
  - intros e1 e2 a1 a2 He1 He2 Ha1 Ha2 Heq.
    apply entries_deref in He1, He2.
    by eapply account_record_unique.
Qed.

Lemma disableAccount_effects_witness :
  ∃ s',
    simulateDisableAccount initialState 4 "sim-acc-jd1-1" =
      (s', {| resp_status := 202;
              resp_data := DataTask
                {| ti_id := Some "disable-account-task-4"; ti_type := "ACCOUNT_ACTIVITY";
                   ti_name := Some "Disable account sim-acc-jd1-1";
                   ti_status := Some QUEUED; ti_result := None |} |}) ∧
    recordAt initialState 1 0 =
      Some {| acc_id := "sim-acc-jd1-1"; nativeIdentity := "johndoe"; acc_sourceId := "AD";
              sourceName := "Active Directory"; acc_status := enabled |} ∧
    recordAt s' 1 0 =
      Some {| acc_id := "sim-acc-jd1-1"; nativeIdentity := "johndoe"; acc_sourceId := "AD";
              sourceName := "Active Directory"; acc_status := disabled |} ∧
    recordAt s' 1 1 = recordAt initialState 1 1 ∧
    deref s' 0 = Some managerIdentity ∧
    simulatedIdentitiesStore s' = simulatedIdentitiesStore initialState ∧
    store_obj s' (simulatedAccountsStore s') "disable-account-task-4" =
      Some (2, disableTask "sim-acc-jd1-1") ∧
    simulateDisableAccount initialState 4 "no-such-account" =
      (initialState,
       {| resp_status := 404;
          resp_data := DataMessage
            "Account no-such-account not found for disabling (simulated)." |}).
Proof.
  destruct (disableAccount_effects initialState 4 "sim-acc-jd1-1" reachable_init)
    as (Hyes & _ & _).
  destruct (disableAccount_effects initialState 4 "no-such-account" reachable_init)
    as (_ & Hno & _).
  destruct Hyes as (k & r & i & a & Hf & Ha & _ & _ & _ & _ & _ & Hrec & Hframe & Hobj &
                    Hst & _ & Htask & _).
  { apply findTargetAccount_known. vm_compute. discriminate. }
  destruct Hno as [_ Hsame].
  { rewrite findTargetAccount_known. vm_compute. tauto. }
  vm_compute in Hf. injection Hf as <- <- <-.
  vm_compute in Ha. injection Ha as <-.
  exists (simulateDisableAccount initialState 4 "sim-acc-jd1-1").1.
  split; [reflexivity|].
  split; [reflexivity|].
  split; [rewrite Hrec; reflexivity|].
  split; [apply Hframe; [intros [=] | simpl; lia]|].
  split; [rewrite Hobj; [reflexivity | lia | simpl; lia]|].
  split; [exact Hst|].
  split; [exact Htask|].
  rewrite <- Hsame at 1. reflexivity.
Defined.

(** * The created identity and its two keys *)

Section Linked.

Lemma linked_heapRel s s' a i :
  heapRel stable s s' →
  store_get a (simulatedIdentitiesStore s') = store_get a (simulatedIdentitiesStore s) →
  store_get i (simulatedIdentitiesStore s') = store_get i (simulatedIdentitiesStore s) →
  linked s a i → linked s' a i.
Proof.
  intros Hrel Ha Hi (ri & o & Hga & Hgi & Hd & Hid).
  destruct (Hrel ri o Hd) as (o' & Hd' & Hid' & _).
  exists ri, o'. rewrite Ha, Hi. repeat split; congruence.
Qed.

Lemma linked_mutate_advance s r a i : linked s a i → linked (mutate r advance s) a i.
Proof.
  apply linked_heapRel; [|done..].
  apply heapRel_mutate; auto with kept.
Qed.

Lemma linked_find s a i :
  linked s a i →
  ∃ ri o, findIdentityById s a = Some (ri, o) ∧ findIdentityById s i = Some (ri, o) ∧
          o_id o = Some i.
Proof.
  intros (ri & o & Hga & Hgi & Hd & Hid). exists ri, o.
  assert (Ha : store_obj s (simulatedIdentitiesStore s) a = Some (ri, o))
    by (by apply store_obj_Some).
  assert (Hi : store_obj s (simulatedIdentitiesStore s) i = Some (ri, o))
    by (by apply store_obj_Some).
  unfold findIdentityById. by rewrite Ha, Hi.
Qed.

Lemma linkedAt_create s now d :
  linkedAt (simulateCreateAccount s now d).1 (accountCounter s) (identityCounter s).
Proof.
  rewrite createAccount_state. cbv zeta. split; [|simpl; lia].
  exists (length (heap s ++ [creationTask (accountIdOf (accountCounter s)) d])),
         (newIdentity (accountIdOf (accountCounter s)) (identityIdOf (identityCounter s)) d).
  simpl. split; [|split; [apply store_get_set_eq|split; [|done]]].
  - rewrite store_get_set_ne by (intros H; symmetry in H; by apply accountId_not_identityId in H).
    apply store_get_set_eq.
  - unfold deref; simpl. by apply list_lookup_middle.
Qed.

Lemma linkedAt_step s op n m : linkedAt s n m → linkedAt (step s op) n m.
Proof.
  intros (Hl & Hn & Hm).
  destruct op as [now d|taskId|now a|now i l]; cbn [step].
  - split; [|rewrite createAccount_state; simpl; lia].
    eapply linked_heapRel; [apply heapRel_kept_stable, create_kept | | | exact Hl];
      rewrite createAccount_state; cbv zeta; simpl.
    + rewrite store_get_set_ne by apply not_eq_sym, accountId_not_identityId.
      apply store_get_set_ne. intros H. apply accountIdOf_inj in H. lia.
    + rewrite store_get_set_ne by (intros H; apply identityIdOf_inj in H; lia).
      apply store_get_set_ne, accountId_not_identityId.
  - split.
    + eapply linked_heapRel; [apply getTaskStatus_stable | | | exact Hl];
        by case_task s taskId.
    + by case_task s taskId.
  - assert (Hf : ∀ s', s' = (simulateDisableAccount s now a).1 →
              simulatedIdentitiesStore s' = simulatedIdentitiesStore s ∧
              accountCounter s' = accountCounter s ∧
              identityCounter s' = identityCounter s).
    { intros s' ->. rewrite disableAccount_state.
      destruct (findTargetAccount _ _) as [[[k r] j]|]; [|done]. simpl.
      destruct (disabledState_fields s a k r j) as (? & _ & ? & ?). done. }
    destruct (Hf _ eq_refl) as (Hs & Ha & Hi).
    split; [|lia].
    eapply linked_heapRel; [apply heapRel_kept_stable, disableAccount_kept | | | exact Hl];
      by rewrite Hs.
  - rewrite setLifecycleState_state.
    destruct (findIdentityById s i) as [[r o]|] eqn:F; [|done].
    split; [|simpl; lia].
    eapply linked_heapRel; [| | | exact Hl].
    + pose proof (setLifecycleState_kept s now i l) as Hk.
      rewrite setLifecycleState_state, F in Hk. by apply heapRel_kept_stable.
    + simpl. apply store_get_set_ne, not_eq_sym, accountId_not_lcsTaskId.
    + simpl. apply store_get_set_ne, not_eq_sym, identityId_not_lcsTaskId.
Qed.

Lemma linkedAt_run ops : ∀ s n m, linkedAt s n m → linkedAt (run s ops) n m.
Proof.
  induction ops as [|op ops IH]; intros s n m H; [done|].
  simpl. by apply IH, linkedAt_step.
Qed.

Lemma advance_fields o :
  o_accountId (advance o) = o_accountId o ∧ o_accountData (advance o) = o_accountData o ∧
  o_type (advance o) = o_type o ∧ o_name (advance o) = o_name o.
Proof. unfold advance. by destruct (o_status o) as [[]|]. Qed.

(** The status query of a task record that names a linked account. *)
Lemma getTaskStatus_account_task s taskId r o a i d :
  taskDetailsOf s taskId = Some (r, o) →
  o_accountId o = Some a → truthy (Some a) = true → o_accountData o = Some d →
  linked s a i →
  simulateGetTaskStatus s taskId =
  (mutate r advance s,
   Returned {| resp_status := 200;
               resp_data := DataTask
                 {| ti_id := taskId;
                    ti_type := toStr (or (o_type o) (Some "GENERIC_TASK"));
                    ti_name := o_name o;
                    ti_status := o_status (advance o);
                    ti_result := Some (AccountResult (Some a) (Some i)
                                         (sourceId d) "success") |} |}).
Proof.
  intros Ht Ha Htr Hd Hl. unfold simulateGetTaskStatus. rewrite Ht.
  destruct (advance_fields o) as (-> & -> & -> & ->).
  rewrite Ha, Htr, Hd. simpl.
  destruct (linked_find _ _ _ (linked_mutate_advance s r a i Hl)) as (ri & o' & -> & _ & Hid).
  simpl. by rewrite Hid.
Qed.

Lemma creation_task_lookup s now d :
  taskDetailsOf (simulateCreateAccount s now d).1 (Some (creationTaskId now)) =
  Some (length (heap s), creationTask (accountIdOf (accountCounter s)) d).
Proof.
  rewrite createAccount_state. cbv zeta. unfold taskDetailsOf. simpl.
  replace (store_obj _ _ _)
    with (Some (length (heap s), creationTask (accountIdOf (accountCounter s)) d)); [done|].
  symmetry. apply store_obj_Some. split; [apply store_get_set_eq|].
  unfold deref; simpl. rewrite <- app_assoc. by apply list_lookup_middle.
Qed.

(** Two status queries complete a freshly created account task, and the
    second reports the new account and identity ids. *)
Lemma creation_task_poll s now d :
  let s1 := (simulateCreateAccount s now d).1 in
  let taskId := Some (creationTaskId now) in
  pollLoop defaultAttempts taskId s1 =
  (stateAfter 2 taskId s1,
   Some (DataTask {| ti_id := taskId; ti_type := "GENERIC_TASK"; ti_name := None;
                     ti_status := Some COMPLETED;
                     ti_result := Some (AccountResult
                                          (Some (accountIdOf (accountCounter s)))
                                          (Some (identityIdOf (identityCounter s)))
                                          (sourceId d) "success") |})).
Proof.
  intros s1 taskId.
  set (a := accountIdOf (accountCounter s)). set (i := identityIdOf (identityCounter s)).
  set (r := length (heap s)).
  assert (Ht : taskDetailsOf s1 taskId = Some (r, creationTask a d))
    by apply creation_task_lookup.
  assert (Hl : linked s1 a i) by apply linkedAt_create.
  assert (Htr : truthy (Some a) = true) by apply accountId_truthy.
  pose proof (getTaskStatus_account_task s1 taskId r _ a i d Ht eq_refl Htr eq_refl Hl) as G1.
  set (s2 := mutate r advance s1) in *.
  assert (Ht2 : taskDetailsOf s2 taskId = Some (r, advance (creationTask a d))).
  { unfold s2. rewrite taskDetailsOf_mutate, Ht. simpl. by rewrite decide_True. }
  pose proof (getTaskStatus_account_task s2 taskId r _ a i d Ht2 eq_refl Htr eq_refl
                (linked_mutate_advance s1 r a i Hl)) as G2.
  assert (E1 : stateAfter 1 taskId s1 = s2) by (simpl; by rewrite G1).
  assert (E2 : stateAfter 2 taskId s1 = mutate r advance s2).
  { change (stateAfter 2 taskId s1)
      with (simulateGetTaskStatus (stateAfter 1 taskId s1) taskId).1.
    by rewrite E1, G2. }
  rewrite E2. unfold defaultAttempts.
  rewrite (pollLoop_first 5 taskId s1 1
             (DataTask {| ti_id := taskId; ti_type := "GENERIC_TASK"; ti_name := None;
                          ti_status := Some COMPLETED;
                          ti_result := Some (AccountResult (Some a) (Some i)
                                               (sourceId d) "success") |})).
  - by rewrite E2.
  - lia.
  - intros [|j] Hj; [|lia]. unfold outcomeAt. simpl. by rewrite G1.
  - unfold outcomeAt. by rewrite E1, G2.
Qed.

Lemma stateAfter_creation_task s now d :
  stateAfter 2 (Some (creationTaskId now)) (simulateCreateAccount s now d).1 =
  mutate (length (heap s)) advance
    (mutate (length (heap s)) advance (simulateCreateAccount s now d).1).
Proof.
  cbn [stateAfter]. rewrite !getTaskStatus_state, creation_task_lookup.
  by rewrite taskDetailsOf_mutate, creation_task_lookup.
Qed.

End Linked.

(** * Onboarding *)

Section Onboarding.

Variable SAILPOINT_CONTRACTOR_SOURCE_ID : option string.
Variable sailPointPost : string → AccessRequestPayload → Completion PostResponse.


(** The calls made before a null element are made; the loop then throws. *)
Lemma submitInitialAccess_null identityId items rest :
  ItemNull ∉ items →
  submitInitialAccess sailPointPost identityId (items ++ ItemNull :: rest) =
  (submissionsOf sailPointPost identityId items,
   Some (TypeError "Cannot read properties of null (reading 'type')")).
Proof.
  induction items as [|item items IH]; intros Hnull; [done|].
  rewrite not_elem_of_cons in Hnull. destruct Hnull as [Hitem Hrest].
  change ((item :: items) ++ ItemNull :: rest) with (item :: (items ++ ItemNull :: rest)).
  cbn [submitInitialAccess]. rewrite (IH Hrest). by destruct item.
Qed.

(** The route on a request that passes validation: the account is created,
    its task polled to completion, and the rest is [onboardAfterPoll] on the
    snapshot of the second query. *)
Lemma onboardRoute_valid s nowTracking nowCreate b attrs :
  ob_attributes b = Some attrs →
  truthy (firstName b) = true → truthy (lastName b) = true →
  truthy (email b) = true → truthy (managerSailPointId b) = true →
  let d := {| sourceId := toStr (or SAILPOINT_CONTRACTOR_SOURCE_ID
                                    (Some "mockContractorSourceId"));
              attributes := onboardAttributes b attrs |} in
  let taskId := Some (creationTaskId nowCreate) in
  let s2 := stateAfter 2 taskId (simulateCreateAccount s nowCreate d).1 in
  let taskResult :=
    DataTask {| ti_id := taskId; ti_type := "GENERIC_TASK"; ti_name := None;
                ti_status := Some COMPLETED;
                ti_result := Some (AccountResult
                                     (Some (accountIdOf (accountCounter s)))
                                     (Some (identityIdOf (identityCounter s)))
                                     (sourceId d) "success") |} in
  let after := onboardAfterPoll sailPointPost s2
                 ("mcp-onboarding-" +:+ pretty nowTracking) b taskResult in
  onboardRoute SAILPOINT_CONTRACTOR_SOURCE_ID sailPointPost s nowTracking nowCreate b =
  (s2, after.1, after.2).
Proof.
  intros Hattrs Hf Hl He Hm d taskId s2 taskResult after.
  unfold onboardRoute. rewrite Hattrs, Hf, Hl, He, Hm. cbn [andb]. fold d.
  destruct (simulateCreateAccount s nowCreate d) as [s1 resp] eqn:Hc.
  assert (Hs1 : s1 = (simulateCreateAccount s nowCreate d).1) by (by rewrite Hc).
  assert (Hresp : data_id (resp_data resp) = Some (creationTaskId nowCreate)).
  { replace resp with (simulateCreateAccount s nowCreate d).2 by (by rewrite Hc). done. }
  rewrite Hresp. unfold pollTaskStatus. subst s1.
  by rewrite (creation_task_poll s nowCreate d).
Qed.


End Onboarding.



(** * Offboarding *)

Section Offboarding.



End Offboarding.



(** * Changing the lifecycle state *)

Section IdentityIds.







End IdentityIds.




(** * Searching the directory *)

Section EmailSearch.

Lemma emailIdsOf_app s st1 st2 :
  emailIdsOf s (st1 ++ st2) = emailIdsOf s st1 ++ emailIdsOf s st2.
Proof. unfold emailIdsOf, entries. by rewrite omap_app, fmap_app. Qed.

Lemma emailIdsOf_single s k r o :
  deref s r = Some o → emailIdsOf s [(k, r)] = [(o_email o, o_id o)].
Proof. intros H. unfold emailIdsOf, entries. simpl. by rewrite H. Qed.

Lemma emailIdsOf_cons s k r st o :
  deref s r = Some o →
  emailIdsOf s ((k, r) :: st) = (o_email o, o_id o) :: emailIdsOf s st.
Proof. intros H. unfold emailIdsOf, entries. simpl. by rewrite H. Qed.

(** A [stable] change of the heap shows the same emails and ids through
    references that were allocated. *)
Lemma emailIdsOf_heap s s' st :
  Forall (λ kr : string * nat, kr.2 < length (heap s)) st →
  heapRel stable s s' → emailIdsOf s' st = emailIdsOf s st.
Proof.
  intros Hvalid Hrel. induction st as [|[k r] st IH]; [done|].
  apply Forall_cons in Hvalid as [Hr Hvalid]. simpl in Hr.
  apply lookup_lt_is_Some_2 in Hr as [o Ho].
  destruct (Hrel r o Ho) as (o' & Ho' & Hid & Hem & _).
  rewrite (emailIdsOf_cons s k r st o Ho), (emailIdsOf_cons s' k r st o' Ho').
  rewrite Hid, Hem. f_equal. by apply IH.
Qed.

Lemma storeInv_valid s :
  storeInv s →
  Forall (λ kr : string * nat, kr.2 < length (heap s)) (simulatedIdentitiesStore s).
Proof. intros H. eapply Forall_impl; [exact H|]. by intros kr (_ & ? & _). Qed.

Lemma store_set_fresh k r st : store_get k st = None → store_set k r st = st ++ [(k, r)].
Proof.
  intros Hn. destruct (store_set_shape k r st) as [[_ ->]|(st1 & r0 & st2 & -> & _)]; [done|].
  apply store_get_None with (r := r0) in Hn. destruct Hn.
  apply elem_of_app. right. left.
Qed.

(** The ids createAccount is about to hand out are not keys yet. *)
Lemma storeInv_fresh s :
  storeInv s →
  store_get (accountIdOf (accountCounter s)) (simulatedIdentitiesStore s) = None ∧
  store_get (identityIdOf (identityCounter s)) (simulatedIdentitiesStore s) = None.
Proof.
  unfold storeInv. rewrite Forall_forall. intros Hinv.
  split; apply store_get_None; intros r Hin;
    destruct (Hinv _ Hin) as ([(n & Hn & H)|[(n & Hn & H)|(t & H)]] & _); simpl in H.
  - by apply accountId_not_identityId in H.
  - apply accountIdOf_inj in H. lia.
  - by apply accountId_not_lcsTaskId in H.
  - apply identityIdOf_inj in H. lia.
  - symmetry in H. by apply accountId_not_identityId in H.
  - by apply identityId_not_lcsTaskId in H.
Qed.

Lemma emailIds_create s now d :
  storeInv s →
  emailIds (simulateCreateAccount s now d).1 =
  emailIds s ++ [(attr_get "mail" (attributes d), Some (identityIdOf (identityCounter s)));
                 (attr_get "mail" (attributes d), Some (identityIdOf (identityCounter s)))].
Proof.
  intros Hinv. destruct (storeInv_fresh s Hinv) as [Ha Hi].
  pose proof (create_kept s now d) as Hrel. apply heapRel_kept_stable in Hrel.
  pose proof (linkedAt_create s now d) as [(ri & o & Hga & Hgi & Hd & Hid) _].
  unfold emailIds.
  assert (Hst : simulatedIdentitiesStore (simulateCreateAccount s now d).1 =
                (simulatedIdentitiesStore s ++ [(accountIdOf (accountCounter s), ri)]) ++
                [(identityIdOf (identityCounter s), ri)]).
  { rewrite createAccount_state in Hga, Hgi |- *. cbv zeta in *. simpl in *.
    rewrite store_get_set_eq in Hgi. injection Hgi as <-.
    rewrite (store_set_fresh _ _ _ Ha).
    rewrite store_set_fresh; [done|].
    apply store_get_None. intros r Hin. apply elem_of_app in Hin as [Hin|Hin].
    - by apply (store_get_None _ _) with (r := r) in Hi.
    - apply list_elem_of_singleton in Hin. apply (f_equal fst) in Hin.
      cbn [fst] in Hin. symmetry in Hin. by apply accountId_not_identityId in Hin. }
  rewrite Hst, !emailIdsOf_app.
  rewrite (emailIdsOf_heap s _ _ (storeInv_valid s Hinv) Hrel).
  rewrite !(emailIdsOf_single _ _ ri o Hd), <- app_assoc. simpl.
  assert (o = newIdentity (accountIdOf (accountCounter s))
                (identityIdOf (identityCounter s)) d) as ->.
  { rewrite createAccount_state in Hd, Hga. cbv zeta in *. simpl in Hga.
    rewrite store_get_set_ne in Hga by apply not_eq_sym, accountId_not_identityId.
    rewrite store_get_set_eq in Hga. injection Hga as <-.
    unfold deref in Hd. simpl in Hd.
    rewrite list_lookup_middle in Hd by done. by injection Hd as <-. }
  done.
Qed.

Lemma emailIds_same_store s s' :
  storeInv s → heapRel stable s s' →
  simulatedIdentitiesStore s' = simulatedIdentitiesStore s →
  emailIds s' = emailIds s.
Proof.
  intros Hinv Hrel Hst. unfold emailIds. rewrite Hst.
  by apply emailIdsOf_heap; [apply storeInv_valid|].
Qed.

Lemma emailIds_getTaskStatus s taskId :
  storeInv s → emailIds (simulateGetTaskStatus s taskId).1 = emailIds s.
Proof.
  intros Hinv. apply emailIds_same_store; [done | apply getTaskStatus_stable |].
  by case_task s taskId.
Qed.

Lemma emailIds_disableAccount s now accountId :
  storeInv s → emailIds (simulateDisableAccount s now accountId).1 = emailIds s.
Proof.
  intros Hinv. apply emailIds_same_store;
    [done | apply heapRel_kept_stable, disableAccount_kept |].
  rewrite disableAccount_state. destruct (findTargetAccount _ _) as [[[k r] i]|]; [|done].
  simpl. by destruct (disabledState_fields s accountId k r i) as (? & _).
Qed.

Lemma filter_hasEmail_anonymous e :
  filter (hasEmail e) [(@None string, @None string)] = [].
Proof. done. Qed.

Lemma emailIds_setLifecycleState s now identityId l e :
  storeInv s →
  filter (hasEmail e) (emailIds (simulateSetLifecycleState s now identityId l).1) =
  filter (hasEmail e) (emailIds s).
Proof.
  intros Hinv.
  pose proof (heapRel_kept_stable _ _ (setLifecycleState_kept s now identityId l)) as Hrel.
  pose proof (storeInv_valid s Hinv) as Hvalid.
  rewrite setLifecycleState_state in Hrel |- *.
  destruct (findIdentityById s identityId) as [[r o]|]; [|done].
  cbv zeta in *. set (task := lifecycleTask identityId l (o_name o)) in *.
  set (s1 := mutate r (applyLifecycle l) s) in *.
  set (s' := setIdentitiesStore _ _ _) in *.
  assert (Hnew : deref s' (length (heap s1)) = Some task)
    by apply (deref_alloc_new task s1).
  unfold emailIds.
  change (simulatedIdentitiesStore s')
    with (store_set (lcsTaskId now) (length (heap s1)) (simulatedIdentitiesStore s)).
  destruct (store_set_shape (lcsTaskId now) (length (heap s1)) (simulatedIdentitiesStore s))
    as [[_ ->]|(st1 & r0 & st2 & Hst & ->)].
  - rewrite emailIdsOf_app, (emailIdsOf_single _ _ _ _ Hnew).
    rewrite (emailIdsOf_heap s s' _ Hvalid Hrel), filter_app.
    change (o_email task, o_id task) with (@None string, @None string).
    by rewrite filter_hasEmail_anonymous, app_nil_r.
  - rewrite Hst in Hvalid |- *.
    apply Forall_app in Hvalid as [Hv1 Hv2]. apply Forall_cons in Hv2 as [Hr0 Hv2].
    simpl in Hr0. apply lookup_lt_is_Some_2 in Hr0 as [o0 Ho0].
    assert (Hanon : anonymous o0).
    { unfold storeInv in Hinv. rewrite Hst, Forall_forall in Hinv.
      destruct (Hinv (lcsTaskId now, r0)) as (_ & _ & Ha).
      - apply elem_of_app. right. left.
      - by apply (Ha now). }
    destruct Hanon as [He0 Hi0].
    rewrite !emailIdsOf_app.
    rewrite (emailIdsOf_cons s' _ _ _ task Hnew), (emailIdsOf_cons s _ _ _ o0 Ho0).
    rewrite (emailIdsOf_heap s s' _ Hv1 Hrel), (emailIdsOf_heap s s' _ Hv2 Hrel).
    by rewrite He0, Hi0.
Qed.

Lemma emailOwner_step s op e :
  storeInv s →
  (∀ now d, op = OpCreateAccount now d → attr_get "mail" (attributes d) ≠ Some e) →
  emailOwner (step s op) e = emailOwner s e.
Proof.
  intros Hinv Hop. unfold emailOwner.
  destruct op as [now d|taskId|now a|now i l]; cbn [step].
  - rewrite (emailIds_create s now d Hinv), filter_app.
    assert (Hne : ¬ hasEmail e (attr_get "mail" (attributes d),
                                Some (identityIdOf (identityCounter s))))
      by (by apply (Hop now d)).
    rewrite (filter_cons_False (hasEmail e) _ _ Hne), (filter_cons_False (hasEmail e) _ _ Hne).
    by rewrite filter_nil, app_nil_r.
  - by rewrite emailIds_getTaskStatus.
  - by rewrite emailIds_disableAccount.
  - by rewrite emailIds_setLifecycleState.
Qed.

Lemma emailOwner_run ops e : ∀ s,
  wellFormed s → ¬ mailReused e ops → emailOwner (run s ops) e = emailOwner s e.
Proof.
  induction ops as [|op ops IH]; intros s Hwf Hno; [done|].
  simpl. rewrite IH.
  - apply emailOwner_step; [by destruct Hwf as (_ & ? & _)|].
    intros now d -> Hmail. apply Hno. exists now, d. split; [left | done].
  - by apply wellFormed_step.
  - intros (now & d & Hin & Hmail). apply Hno. exists now, d. split; [by right | done].
Qed.

Lemma emailOwner_create s now d e :
  storeInv s → attr_get "mail" (attributes d) = Some e →
  emailOwner (simulateCreateAccount s now d).1 e =
  Some (Some (identityIdOf (identityCounter s))).
Proof.
  intros Hinv Hmail. unfold emailOwner.
  rewrite (emailIds_create s now d Hinv), filter_app, Hmail.
  assert (Hyes : hasEmail e (Some e, Some (identityIdOf (identityCounter s)))) by done.
  rewrite (filter_cons_True (hasEmail e) _ _ Hyes), (filter_cons_True (hasEmail e) _ _ Hyes),
    filter_nil.
  rewrite (last_app_cons _ [_]). by rewrite last_cons_cons.
Qed.

(** The loop without [break] returns the hit enumerated last. *)
Lemma searchByEmail_last s e :
  searchByEmail s e =
  (λ x, (x.1.2, x.2)) <$>
    last (filter (λ x, o_email x.2 = Some e) (entries s (simulatedIdentitiesStore s))).
Proof.
  unfold searchByEmail.
  set (P := λ x : string * nat * Obj, o_email x.2 = Some e).
  induction (entries s (simulatedIdentitiesStore s)) as [|x l IH] using rev_ind; [done|].
  rewrite fold_left_app, filter_app. simpl.
  case_bool_decide as Hx.
  - rewrite (filter_cons_True P x [] Hx), filter_nil. by rewrite last_snoc.
  - rewrite (filter_cons_False P x [] Hx), filter_nil, app_nil_r. exact IH.
Qed.

Lemma searchByEmail_owner s e :
  (λ ro : nat * Obj, o_id ro.2) <$> searchByEmail s e = emailOwner s e.
Proof.
  rewrite searchByEmail_last. unfold emailOwner, emailIds, emailIdsOf.
  set (P := λ x : string * nat * Obj, o_email x.2 = Some e).
  induction (entries s (simulatedIdentitiesStore s)) as [|x l IH] using rev_ind; [done|].
  rewrite fmap_app, !filter_app. simpl.
  destruct (decide (P x)) as [Hx|Hx].
  - rewrite (filter_cons_True P x [] Hx), filter_nil.
    assert (Hx' : hasEmail e (o_email x.2, o_id x.2)) by done.
    rewrite (filter_cons_True (hasEmail e) _ [] Hx'), filter_nil. by rewrite !last_snoc.
  - rewrite (filter_cons_False P x [] Hx), filter_nil.
    assert (Hx' : ¬ hasEmail e (o_email x.2, o_id x.2)) by done.
    rewrite (filter_cons_False (hasEmail e) _ [] Hx'), filter_nil.
    rewrite !app_nil_r. exact IH.
Qed.

Lemma search_byEmail s e :
  e ≠ "" →
  foundIds (simulateSearchIdentity s (byEmail e)) =
  match emailOwner s e with Some i => [i] | None => [] end.
Proof.
  intros He. rewrite <- searchByEmail_owner.
  unfold foundIds, simulateSearchIdentity, byEmail. simpl.
  rewrite bool_decide_eq_true_2 by done.
  by destruct (searchByEmail s e) as [[r o]|].
Qed.

Lemma search_byAccountId_linked s a i :
  a ≠ "" → linked s a i →
  sr_status (simulateSearchIdentity s (byAccountId a)) = 200 ∧
  foundIds (simulateSearchIdentity s (byAccountId a)) = [Some i].
Proof.
  intros Ha Hl. destruct (linked_find s a i Hl) as (ri & o & Hfa & _ & Hid).
  unfold foundIds, simulateSearchIdentity, byAccountId, searchByAccountId. simpl.
  rewrite bool_decide_eq_true_2 by done. rewrite Hfa. simpl. by rewrite Hid.
Qed.

Lemma search_byIdentityId_linked s a i :
  i ≠ "" → linked s a i →
  sr_status (simulateSearchIdentity s (byIdentityId i)) = 200 ∧
  foundIds (simulateSearchIdentity s (byIdentityId i)) = [Some i].
Proof.
  intros Hi Hl. destruct (linked_find s a i Hl) as (ri & o & _ & Hfi & Hid).
  unfold foundIds, simulateSearchIdentity, byIdentityId. simpl.
  rewrite bool_decide_eq_true_2 by done. rewrite Hfi. simpl. by rewrite Hid.
Qed.

(** Whatever task reports a linked account reports its identity. *)
Lemma task_result_identity s taskId resp a i x src st :
  linked s a i →
  (simulateGetTaskStatus s taskId).2 = Returned resp →
  data_result (resp_data resp) = Some (AccountResult (Some a) x src st) →
  x = Some i.
Proof.
  intros Hl. unfold simulateGetTaskStatus.
  destruct (taskDetailsOf s taskId) as [[r o]|]; [|by intros [= <-]].
  destruct (truthy (o_accountId (advance o))); [|by intros [= <-]].
  destruct (o_accountData (advance o)) as [d|]; [|done].
  intros [= <-]. cbn [resp_data data_result ti_result]. intros [= Ha <- _ _].
  rewrite Ha. change (toStr (Some a)) with a.
  destruct (linked_find _ _ _ (linked_mutate_advance s r a i Hl)) as (ri & o' & -> & _ & Hid).
  done.
Qed.

End EmailSearch.

(** C9, as the code has it. For the identity createAccount makes in a
    reachable state, and after any further operations: searching by its
    account id and by its identity id each answer 200 with one element
    carrying its identity id; searching by its (non-empty) mail does so as
    long as no later createAccount reuses that mail; the creation task,
    polled right after the creation, completes with that account id and
    identity id in its result; and any task snapshot that reports the
    account reports this identity id. *)
Theorem created_identity_found_by_searches s now d ops :
  reachable s →
  let s1 := (simulateCreateAccount s now d).1 in
  let accountId := accountIdOf (accountCounter s) in
  let identityId := identityIdOf (identityCounter s) in
  let s2 := run s1 ops in
  (sr_status (simulateSearchIdentity s2 (byAccountId accountId)) = 200 ∧
   foundIds (simulateSearchIdentity s2 (byAccountId accountId)) = [Some identityId]) ∧
  (sr_status (simulateSearchIdentity s2 (byIdentityId identityId)) = 200 ∧
   foundIds (simulateSearchIdentity s2 (byIdentityId identityId)) = [Some identityId]) ∧
  (∀ mail, attr_get "mail" (attributes d) = Some mail → mail ≠ "" →
           ¬ mailReused mail ops →
           foundIds (simulateSearchIdentity s2 (byEmail mail)) = [Some identityId]) ∧
  (∃ t, (pollTaskStatus s1 (Some (creationTaskId now)) defaultAttempts).2 =
          Returned (DataTask t) ∧
        ti_status t = Some COMPLETED ∧
        ti_result t ≫= result_accountId = Some accountId ∧
        ti_result t ≫= result_identityId = Some identityId) ∧
  (∀ taskId resp x src st,
     (simulateGetTaskStatus s2 taskId).2 = Returned resp →
     data_result (resp_data resp) = Some (AccountResult (Some accountId) x src st) →
     x = Some identityId).
Proof.
  intros Hreach s1 accountId identityId s2.
  pose proof (reachable_wellFormed s Hreach) as Hwf.
  assert (Hwf1 : wellFormed s1) by apply (wellFormed_step s (OpCreateAccount now d) Hwf).
  assert (Hl2 : linked s2 accountId identityId).
  { apply (linkedAt_run ops s1). apply linkedAt_create. }
  assert (Ha : accountId ≠ "").
  { pose proof (accountId_truthy (accountCounter s)) as H.
    by apply bool_decide_eq_true in H. }
  assert (Hi : identityId ≠ "").
  { pose proof (identityId_truthy (identityCounter s)) as H.
    by apply bool_decide_eq_true in H. }
  split; [by apply search_byAccountId_linked|].
  split; [by apply (search_byIdentityId_linked s2 accountId)|].
  split.
  { intros mail Hmail Hne Hno. rewrite search_byEmail by done.
    unfold s2. rewrite (emailOwner_run ops mail s1 Hwf1 Hno).
    unfold s1. rewrite (emailOwner_create s now d mail); [done | | done].
    by destruct Hwf as (_ & ? & _). }
  split.
  { unfold pollTaskStatus, s1. rewrite (creation_task_poll s now d).
    eexists. split; [done|]. by repeat split. }
  intros taskId resp x src st. by apply task_result_identity.
Qed.

Lemma created_identity_found_by_searches_witness :
  foundIds (simulateSearchIdentity stateCreated (byAccountId (accountIdOf 3))) =
    [Some (identityIdOf 2)] ∧
  foundIds (simulateSearchIdentity stateCreated (byIdentityId (identityIdOf 2))) =
    [Some (identityIdOf 2)] ∧
  foundIds (simulateSearchIdentity stateCreated (byEmail "a@x.com")) =
    [Some (identityIdOf 2)].
Proof.
  destruct (created_identity_found_by_searches initialState 1 exampleAccountData []
              reachable_init)
    as ((_ & Hacc) & (_ & Hid) & Hmail & _).
  split; [exact Hacc|]. split; [exact Hid|].
  apply Hmail; [reflexivity | discriminate |].
  intros (now & d & Hin & _). by apply elem_of_nil in Hin.
Defined.

(** C9 fails as stated: after two createAccount calls with the same mail,
    the first identity is still found by its account id and by its identity
    id, but the search by its email answers with the identity created
    second. *)
Lemma searches_agree_counterexample :
  (∃ o, findIdentityById stateCreatedTwice (identityIdOf 2) = Some (3, o) ∧
        o_email o = Some "a@x.com" ∧ o_sourceAccountId o = Some (accountIdOf 3)) ∧
  foundIds (simulateSearchIdentity stateCreatedTwice (byAccountId (accountIdOf 3))) =
    [Some (identityIdOf 2)] ∧
  foundIds (simulateSearchIdentity stateCreatedTwice (byIdentityId (identityIdOf 2))) =
    [Some (identityIdOf 2)] ∧
  foundIds (simulateSearchIdentity stateCreatedTwice (byEmail "a@x.com")) =
    [Some (identityIdOf 3)].
Proof. vm_compute. split; [eexists|]; repeat split. Qed.

(** C10, as the code has it. In every reachable state no two account
    records share an id, so no two identity objects hold the same account;
    every search answers with at most one element; and the search by
    email, whose loop does not stop at a hit, answers with the identity
    enumerated last among those carrying the email. Emails themselves are
    whatever the callers passed and may repeat. *)
Theorem account_ids_unique_and_searches_single s :
  reachable s →
  (∀ r1 r2 o1 o2 a1 a2,
     deref s r1 = Some o1 → deref s r2 = Some o2 →
     a1 ∈ accountsOf o1 → a2 ∈ accountsOf o2 → acc_id a1 = acc_id a2 →
     r1 = r2 ∧ a1 = a2) ∧
  (∀ q, length (sr_data (simulateSearchIdentity s q)) ≤ 1) ∧
  (∀ e, searchByEmail s e =
        (λ x, (x.1.2, x.2)) <$>
          last (filter (λ x, o_email x.2 = Some e)
                       (entries s (simulatedIdentitiesStore s)))) ∧
  (∀ e, e ≠ "" →
        foundIds (simulateSearchIdentity s (byEmail e)) =
        match emailOwner s e with Some i => [i] | None => [] end).
Proof.
  intros Hreach. destruct (reachable_wellFormed s Hreach) as ([Hnd _] & _ & _).
  split; [intros; by eapply account_record_unique|].
  split.
  { intros q. unfold simulateSearchIdentity.
    destruct (if truthy (q_email q) then _ else _) as [[r o]|]; simpl; lia. }
  split; [apply searchByEmail_last | apply search_byEmail].
Qed.

Lemma account_ids_unique_and_searches_single_witness :
  length (sr_data (simulateSearchIdentity stateCreatedTwice (byEmail "a@x.com"))) ≤ 1.
Proof.
  assert (Hreach : reachable stateCreatedTwice).
  { apply (reachable_step _ (OpCreateAccount 2 _)).
    apply (reachable_step _ (OpCreateAccount 1 _)). apply reachable_init. }
  destruct (account_ids_unique_and_searches_single stateCreatedTwice Hreach)
    as (_ & Hlen & _).
  apply Hlen.
Defined.

(** C10 fails as stated: two createAccount calls with one mail leave, in a
    reachable state, two identities with different ids and the same email;
    the search by that email answers with the second one, not the first
    found. *)
Lemma unique_emails_counterexample :
  reachable stateCreatedTwice ∧
  ∃ o1 o2,
    deref stateCreatedTwice 3 = Some o1 ∧ deref stateCreatedTwice 5 = Some o2 ∧
    o_id o1 = Some (identityIdOf 2) ∧ o_id o2 = Some (identityIdOf 3) ∧
    o_email o1 = Some "a@x.com" ∧ o_email o2 = Some "a@x.com" ∧
    foundIds (simulateSearchIdentity stateCreatedTwice (byEmail "a@x.com")) =
      [Some (identityIdOf 3)].
Proof.
  split.
  - apply (reachable_step _ (OpCreateAccount 2 _)).
    apply (reachable_step _ (OpCreateAccount 1 _)). apply reachable_init.
  - vm_compute. eexists _, _. repeat split.
Qed.

(** * The workflows stay within the reachable states *)

Section WorkflowStates.

Lemma stateAfter_reachable n : ∀ s taskId, reachable s → reachable (stateAfter n taskId s).
Proof.
  induction n as [|n IH]; intros s taskId Hs; [done|].
  cbn [stateAfter]. apply IH. apply (reachable_step s (OpGetTaskStatus taskId) Hs).
Qed.

(** The poller leaves the state some number of status queries produce. *)
Lemma pollLoop_state n : ∀ taskId s,
  ∃ k, k ≤ n ∧ (pollLoop n taskId s).1 = stateAfter k taskId s.
Proof.
  induction n as [|n IH]; intros taskId s; [by exists 0|].
  rewrite pollLoop_unfold.
  destruct (reportsCompleted (simulateGetTaskStatus s taskId).2) as [d|].
  - exists 1. split; [lia | done].
  - destruct (IH taskId (simulateGetTaskStatus s taskId).1) as (k & Hk & ->).
    exists (S k). split; [lia | done].
Qed.

Lemma pollTaskStatus_reachable s taskId attempts :
  reachable s → reachable (pollTaskStatus s taskId attempts).1.
Proof.
  intros Hs. destruct (pollLoop_state attempts taskId s) as (k & _ & Hk).
  unfold pollTaskStatus. destruct (pollLoop attempts taskId s) as [s' [d|]];
    simpl in *; subst s'; by apply stateAfter_reachable.
Qed.

Lemma onboard_reachable sourceEnv sailPointPost s nowTracking nowCreate b :
  reachable s → reachable (onboard sourceEnv sailPointPost s nowTracking nowCreate b).1.
Proof.
  intros Hs. unfold onboard, onboardRoute. cbn [fst].
  destruct (ob_attributes b) as [attrs|]; [|done].
  destruct (_ && _); [|done].
  set (d := {| sourceId := _; attributes := _ |}).
  pose proof (reachable_step s (OpCreateAccount nowCreate d) Hs) as H1. cbn [step] in H1.
  destruct (simulateCreateAccount s nowCreate d) as [s1 resp]. cbn [fst] in H1.
  pose proof (pollTaskStatus_reachable s1 (data_id (resp_data resp)) defaultAttempts H1) as H2.
  by destruct (pollTaskStatus s1 (data_id (resp_data resp)) defaultAttempts) as [s2 [d'|e]].
Qed.

Lemma offboard_reachable terminatedEnv s nowTracking nowTask b :
  reachable s → reachable (offboard terminatedEnv s nowTracking nowTask b).1.
Proof.
  intros Hs. unfold offboard.
  destruct (truthy (contractorSailPointIdentityId b)); [|done].
  set (i := toStr (contractorSailPointIdentityId b)).
  set (l := toStr (or terminatedEnv (Some "terminated"))).
  pose proof (reachable_step s (OpSetLifecycleState nowTask i l) Hs) as H1. cbn [step] in H1.
  destruct (simulateSetLifecycleState s nowTask i l) as [s1 resp]. cbn [fst] in H1.
  pose proof (pollTaskStatus_reachable s1 (data_id (resp_data resp)) defaultAttempts H1) as H2.
  destruct (pollTaskStatus s1 (data_id (resp_data resp)) defaultAttempts) as [s2 [d'|e]];
    [|done].
  by destruct (bool_decide _).
Qed.

End WorkflowStates.

(** * Two consequences of the shared key space *)

(** A status query for the key of an identity finds the identity object in
    the identities store and answers 200 with no status and a generic
    result. *)
Example status_query_on_identity_key :
  (simulateGetTaskStatus initialState (Some managerIdentityId)).2 =
  Returned {| resp_status := 200;
              resp_data := DataTask
                {| ti_id := Some managerIdentityId; ti_type := "GENERIC_TASK";
                   ti_name := Some "Jane Manager"; ti_status := None;
                   ti_result := Some (GenericResult "success"
                                        "Jane Manager completed successfully.") |} |}.
Proof. vm_compute. reflexivity. Qed.

(** The id of a lifecycle task, given as an identity id, is found by
    findIdentityById: the task record is in the identities store. *)
Example lifecycle_task_id_as_identity_id :
  let s := (simulateSetLifecycleState initialState 5 user1IdentityId "terminated").1 in
  resp_status (simulateSetLifecycleState s 6 (lcsTaskId 5) "active").2 = 202.
Proof. vm_compute. reflexivity. Qed.

(** * Further properties of the service *)

Section CreatedIdentity.

Lemma step_counters s op :
  accountCounter s ≤ accountCounter (step s op) ∧
  identityCounter s ≤ identityCounter (step s op).
Proof.
  destruct op as [now d|taskId|now a|now i l]; cbn [step].
  - rewrite createAccount_state. simpl. lia.
  - by case_task s taskId.
  - rewrite disableAccount_state. destruct (findTargetAccount _ _) as [[[k r] j]|]; [|done].
    simpl. destruct (disabledState_fields s a k r j) as (_ & _ & -> & ->). done.
  - rewrite setLifecycleState_state. by destruct (findIdentityById s i) as [[r o]|].
Qed.

(** Keys that were handed out are never written again. *)
Lemma step_keeps_account_key s op n :
  n < accountCounter s →
  store_get (accountIdOf n) (simulatedIdentitiesStore (step s op)) =
  store_get (accountIdOf n) (simulatedIdentitiesStore s).
Proof.
  intros Hn. destruct op as [now d|taskId|now a|now i l]; cbn [step].
  - rewrite createAccount_state. cbv zeta. simpl.
    rewrite store_get_set_ne by apply not_eq_sym, accountId_not_identityId.
    apply store_get_set_ne. intros H. apply accountIdOf_inj in H. lia.
  - by case_task s taskId.
  - rewrite disableAccount_state. destruct (findTargetAccount _ _) as [[[k r] j]|]; [|done].
    simpl. by destruct (disabledState_fields s a k r j) as (-> & _).
  - rewrite setLifecycleState_state. destruct (findIdentityById s i) as [[r o]|]; [|done].
    simpl. apply store_get_set_ne, not_eq_sym, accountId_not_lcsTaskId.
Qed.

Lemma step_keeps_identity_key s op m :
  m < identityCounter s →
  store_get (identityIdOf m) (simulatedIdentitiesStore (step s op)) =
  store_get (identityIdOf m) (simulatedIdentitiesStore s).
Proof.
  intros Hm. destruct op as [now d|taskId|now a|now i l]; cbn [step].
  - rewrite createAccount_state. cbv zeta. simpl.
    rewrite store_get_set_ne by (intros H; apply identityIdOf_inj in H; lia).
    apply store_get_set_ne, accountId_not_identityId.
  - by case_task s taskId.
  - rewrite disableAccount_state. destruct (findTargetAccount _ _) as [[[k r] j]|]; [|done].
    simpl. by destruct (disabledState_fields s a k r j) as (-> & _).
  - rewrite setLifecycleState_state. destruct (findIdentityById s i) as [[r o]|]; [|done].
    simpl. apply store_get_set_ne, not_eq_sym, identityId_not_lcsTaskId.
Qed.

Lemma owner_linked s a i : owner s a i → linked s a i.
Proof. intros (ri & o & ? & ? & ? & ? & _). by exists ri, o. Qed.

Lemma ownerAt_create s now d :
  ownerAt (simulateCreateAccount s now d).1 (accountCounter s) (identityCounter s).
Proof.
  rewrite createAccount_state. cbv zeta. split; [|simpl; lia].
  exists (length (heap s ++ [creationTask (accountIdOf (accountCounter s)) d])),
         (newIdentity (accountIdOf (accountCounter s)) (identityIdOf (identityCounter s)) d).
  simpl. split; [|split; [apply store_get_set_eq|split; [|done]]].
  - rewrite store_get_set_ne by (intros H; symmetry in H; by apply accountId_not_identityId in H).
    apply store_get_set_eq.
  - unfold deref; simpl. by apply list_lookup_middle.
Qed.

Lemma ownerAt_step s op n m : ownerAt s n m → ownerAt (step s op) n m.
Proof.
  intros ((ri & o & Hga & Hgi & Hd & Hid & Hacc) & Hn & Hm).
  destruct (step_counters s op) as [Ha Hi].
  pose proof (step_keeps_account_key s op n Hn) as Hka.
  pose proof (step_keeps_identity_key s op m Hm) as Hki.
  destruct (step_stable s op ri o Hd) as (o' & Hd' & Hid' & _ & Hacc' & _).
  split; [|lia]. exists ri, o'. rewrite Hka, Hki. repeat split; congruence.
Qed.

Lemma ownerAt_run ops : ∀ s n m, ownerAt s n m → ownerAt (run s ops) n m.
Proof.
  induction ops as [|op ops IH]; intros s n m H; [done|].
  simpl. by apply IH, ownerAt_step.
Qed.

Lemma owner_find s a i :
  owner s a i →
  ∃ ri o acc, findIdentityById s a = Some (ri, o) ∧ findIdentityById s i = Some (ri, o) ∧
              o_id o = Some i ∧ accountsOf o = [acc] ∧ acc_id acc = a ∧
              (a, ri, o) ∈ entries s (simulatedIdentitiesStore s).
Proof.
  intros (ri & o & Hga & Hgi & Hd & Hid & Hacc).
  assert (Ha : store_obj s (simulatedIdentitiesStore s) a = Some (ri, o))
    by (by apply store_obj_Some).
  assert (Hi : store_obj s (simulatedIdentitiesStore s) i = Some (ri, o))
    by (by apply store_obj_Some).
  unfold acctIds in Hacc.
  destruct (accountsOf o) as [|acc [|acc' l]] eqn:Hl; simpl in Hacc; try done.
  injection Hacc as Hacc. exists ri, o, acc.
  unfold findIdentityById. rewrite Ha, Hi. repeat split; try done.
  by apply store_obj_entry.
Qed.

(** After an accepted disable every record of the account is disabled. *)
Lemma disable_records_disabled s now accountId e a :
  accountsInv s →
  findTargetAccount accountId (entries s (simulatedIdentitiesStore s)) ≠ None →
  e ∈ entries (simulateDisableAccount s now accountId).1
        (simulatedIdentitiesStore (simulateDisableAccount s now accountId).1) →
  a ∈ accountsOf e.2 → acc_id a = accountId → acc_status a = disabled.
Proof.
  intros Hinv Hfound.
  pose proof (accountsInv_disableAccount s now accountId Hinv) as [Hnd' _].
  rewrite disableAccount_state in Hnd' |- *.
  destruct (findTargetAccount _ _) as [[[k r] i]|] eqn:Hf; [|done].
  intros He Ha Hid.
  apply findTargetAccount_Some in Hf as (o & accs & a0 & Hin & Ho & Hi & Hid0).
  assert (Hrec : recordAt s r i = Some a0).
  { unfold recordAt. apply entries_deref in Hin. simpl in Hin.
    rewrite Hin. simpl. by rewrite Ho. }
  destruct (disabledState_record s accountId k r i a0 Hrec Hid0)
    as (a' & Hrec' & Hid' & Hst').
  apply recordAt_elem in Hrec' as (o2 & Ho2 & Ha').
  apply entries_deref in He.
  set (s' := setAccountsStore _ _ _) in *.
  assert (Ho2' : deref s' r = Some o2)
    by (by apply (deref_alloc_old (disableTask accountId))).
  destruct (account_record_unique s' _ _ _ _ a a' Hnd' He Ho2' Ha Ha') as [_ ->];
    [congruence | done].
Qed.

End CreatedIdentity.

(** X1. For the account and identity createAccount makes in a reachable
    state, and after any further operations: disableAccount of the account
    is accepted, and afterwards listing the accounts of the identity, by its
    identity id or by the account id it is also stored under, gives exactly
    that one account, disabled. *)
Theorem disabled_account_listed_disabled s now d ops now' :
  reachable s →
  let accountId := accountIdOf (accountCounter s) in
  let identityId := identityIdOf (identityCounter s) in
  let s2 := run (simulateCreateAccount s now d).1 ops in
  let s3 := (simulateDisableAccount s2 now' accountId).1 in
  resp_status (simulateDisableAccount s2 now' accountId).2 = 202 ∧
  ∃ a, simulateListAccountsByIdentity s3 identityId = [a] ∧
       simulateListAccountsByIdentity s3 accountId = [a] ∧
       acc_id a = accountId ∧ acc_status a = disabled.
Proof.
  intros Hreach accountId identityId s2 s3.
  subst accountId identityId.
  assert (Hreach2 : reachable s2).
  { apply reachable_run. apply (reachable_step s (OpCreateAccount now d) Hreach). }
  destruct (reachable_wellFormed s2 Hreach2) as (Hinv2 & _ & _).
  assert (Hown2 : ownerAt s2 (accountCounter s) (identityCounter s))
    by apply ownerAt_run, ownerAt_create.
  assert (Hown3 : ownerAt s3 (accountCounter s) (identityCounter s))
    by apply (ownerAt_step s2 (OpDisableAccount now' (accountIdOf (accountCounter s)))), Hown2.
  destruct Hown2 as [Hown2 _]. destruct Hown3 as [Hown3 _].
  destruct (owner_find s2 _ _ Hown2) as (r2 & o2 & acc2 & _ & _ & _ & Hl2 & Hid2 & Hin2).
  assert (Hfound : findTargetAccount (accountIdOf (accountCounter s)) (entries s2 (simulatedIdentitiesStore s2)) ≠ None).
  { apply findTargetAccount_known. exists (accountIdOf (accountCounter s), r2, o2), acc2.
    split; [done|]. split; [|done]. simpl. rewrite Hl2. left. }
  split.
  { rewrite disableAccount_response.
    by destruct (findTargetAccount (accountIdOf (accountCounter s)) (entries s2 (simulatedIdentitiesStore s2))). }
  destruct (owner_find s3 _ _ Hown3) as (r3 & o3 & acc3 & Hfa & Hfi & _ & Hl3 & Hid3 & Hin3).
  exists acc3. unfold simulateListAccountsByIdentity. rewrite Hfa, Hfi.
  fold (accountsOf o3). rewrite Hl3. split; [done|]. split; [done|]. split; [done|].
  apply (disable_records_disabled s2 now' _ (accountIdOf (accountCounter s), r3, o3) acc3 Hinv2 Hfound Hin3);
    [simpl; rewrite Hl3; left | done].
Qed.

Lemma disabled_account_listed_disabled_witness :
  ∃ a, simulateListAccountsByIdentity stateDisabled (identityIdOf 2) = [a] ∧
       acc_status a = disabled.
Proof.
  destruct (disabled_account_listed_disabled initialState 1 exampleAccountData [] 2
              reachable_init) as (_ & a & H & _ & _ & Hs).
  exists a. split; [exact H | exact Hs].
Defined.

(** * Status queries, task ids and stored profiles *)

Section Profiles.

Lemma advance_fixed o :
  advance o = o ↔ o_status o ≠ Some QUEUED ∧ o_status o ≠ Some PROCESSING.
Proof.
  unfold advance. destruct (o_status o) as [[]|] eqn:E.
  - split; [|intros []; done]. intros H. apply (f_equal o_status) in H.
    simpl in H. congruence.
  - split; [|intros []; done]. intros H. apply (f_equal o_status) in H.
    simpl in H. congruence.
  - split; [done|]. done.
  - split; [done|]. done.
Qed.

(** Any relation on objects that the three kinds of write respect holds
    between every object and what an operation leaves of it. *)
Lemma step_heapRel (P : Obj → Obj → Prop) s op :
  (∀ o, P o o) → (∀ a b c, P a b → P b c → P a c) →
  (∀ o, P o (advance o)) → (∀ l o, P o (applyLifecycle l o)) →
  (∀ st i o, P o (set_accounts (alter (set_acc_status st) i <$> o_accounts o) o)) →
  heapRel P s (step s op).
Proof.
  intros Hrefl Htrans Hadv Hlcs Hacc.
  assert (Hset : ∀ r i st s, heapRel P s (setAccountStatusAt r i st s))
    by (intros; apply heapRel_mutate; auto).
  destruct op as [now d|taskId|now a|now i l]; cbn [step].
  - intros r o Hr. exists o. split; [|done].
    unfold simulateCreateAccount, deref in *; simpl.
    by apply lookup_app_l_Some, lookup_app_l_Some.
  - case_task s taskId; [by apply heapRel_mutate | by apply heapRel_refl].
  - rewrite disableAccount_state.
    destruct (findTargetAccount _ _) as [[[k r] j]|]; [|by apply heapRel_refl].
    assert (Hdis : heapRel P s (disabledState s a k r j)).
    { unfold disabledState.
      set (s1 := setAccountStatusAt r j disabled s).
      destruct (store_obj s1 (simulatedIdentitiesStore s1) k) as [[r' o']|]; [|apply Hset].
      destruct (o_accounts o' ≫= findIndex a) as [j'|]; [|apply Hset].
      exact (heapRel_trans P P P s s1 _ Htrans (Hset r j disabled s) (Hset r' j' disabled s1)). }
    eapply heapRel_trans; [apply Htrans | exact Hdis | ].
    eapply heapRel_trans; [apply Htrans | by apply heapRel_alloc |].
    by apply heapRel_same_heap.
  - rewrite setLifecycleState_state.
    destruct (findIdentityById s i) as [[r o]|]; [|by apply heapRel_refl].
    eapply heapRel_trans;
      [apply Htrans | apply (heapRel_mutate P r (applyLifecycle l)); auto |].
    eapply heapRel_trans; [apply Htrans | by apply heapRel_alloc |].
    by apply heapRel_same_heap.
Qed.

Lemma step_sameProfile s op : heapRel sameProfile s (step s op).
Proof.
  apply step_heapRel; unfold sameProfile, profile.
  - done.
  - intros a b c H1 H2. congruence.
  - intros o. unfold advance. by destruct (o_status o) as [[]|].
  - intros l o. unfold applyLifecycle. by case_bool_decide.
  - done.
Qed.

Lemma identityAt_key s identityId r o :
  storeInv s → identityAt s identityId r o →
  (∃ n, n < identityCounter s ∧ identityId = identityIdOf n) ∨
  (∃ n, n < accountCounter s ∧ identityId = accountIdOf n).
Proof.
  intros Hinv [Hst Hid]. apply store_obj_Some in Hst as [Hget Hd].
  apply store_get_elem in Hget.
  unfold storeInv in Hinv. rewrite Forall_forall in Hinv.
  destruct (Hinv _ Hget) as ([H|[H|[t Ht]]] & _ & Hanon); simpl in *; auto.
  destruct (Hanon t o Ht Hd) as [_ Hno]. congruence.
Qed.

Lemma identityAt_truthy s identityId r o :
  storeInv s → identityAt s identityId r o → identityId ≠ "".
Proof.
  intros Hinv H. destruct (identityAt_key _ _ _ _ Hinv H) as [(n & _ & ->)|(n & _ & ->)].
  - pose proof (identityId_truthy n) as T. intros E. rewrite E in T. by vm_compute in T.
  - pose proof (accountId_truthy n) as T. intros E. rewrite E in T. by vm_compute in T.
Qed.

Lemma identityAt_not_task s identityId r o now :
  storeInv s → identityAt s identityId r o → identityId ≠ lcsTaskId now.
Proof.
  intros Hinv H. destruct (identityAt_key _ _ _ _ Hinv H) as [(n & _ & ->)|(n & _ & ->)].
  - apply identityId_not_lcsTaskId.
  - apply accountId_not_lcsTaskId.
Qed.

(** An identity stays under its id, behind the same reference, with the
    same profile and the same account ids. *)
Lemma identityAt_step s op identityId r o :
  storeInv s → identityAt s identityId r o →
  ∃ o', identityAt (step s op) identityId r o' ∧ sameProfile o o' ∧ acctIds o' = acctIds o.
Proof.
  intros Hinv H. pose proof H as [Hst Hid].
  apply store_obj_Some in Hst as [Hget Hd].
  destruct (step_sameProfile s op r o Hd) as (o' & Hd' & Hp).
  destruct (step_stable s op r o Hd) as (o2 & Hd2 & _ & _ & Hacc & _).
  assert (o2 = o') as -> by congruence.
  exists o'. split; [|done]. split.
  - apply store_obj_Some. split; [|done].
    destruct (identityAt_key _ _ _ _ Hinv H) as [(n & Hn & ->)|(n & Hn & ->)].
    + by rewrite step_keeps_identity_key.
    + by rewrite step_keeps_account_key.
  - unfold sameProfile, profile in Hp. congruence.
Qed.

Lemma identityAt_run ops : ∀ s identityId r o,
  reachable s → identityAt s identityId r o →
  ∃ o', identityAt (run s ops) identityId r o' ∧ sameProfile o o' ∧ acctIds o' = acctIds o.
Proof.
  induction ops as [|op ops IH]; intros s identityId r o Hreach H.
  - exists o. split; [exact H|]. by split.
  - destruct (reachable_wellFormed s Hreach) as (_ & Hinv & _).
    destruct (identityAt_step s op identityId r o Hinv H) as (o1 & H1 & Hp1 & Ha1).
    destruct (IH (step s op) identityId r o1 (reachable_step s op Hreach) H1)
      as (o2 & H2 & Hp2 & Ha2).
    exists o2. split; [done|]. unfold sameProfile in *. split; congruence.
Qed.

End Profiles.

(** X2. A status query changes the state exactly while the task it works on
    is QUEUED or PROCESSING: queries for a COMPLETED task, for a stored
    object without a status and for an unknown id leave both stores and
    every object as they were. *)
Theorem status_query_changes_state_only_while_pending s taskId :
  (simulateGetTaskStatus s taskId).1 = s ↔
  statusOf s taskId ≠ Some QUEUED ∧ statusOf s taskId ≠ Some PROCESSING.
Proof.
  rewrite getTaskStatus_state. unfold statusOf.
  destruct (taskDetailsOf s taskId) as [[r o]|] eqn:Ht; simpl; [|done].
  apply taskDetailsOf_deref in Ht. rewrite <- advance_fixed. split.
  - by apply mutate_moved.
  - by apply mutate_fixed.
Qed.

(** X3. The id of a creation task is made from the clock reading alone. Two
    createAccount calls that read the same millisecond answer with the same
    task id; the second task record replaces the first under that id, so
    polling the id reports the second account and identity, while the
    first account and its identity stay stored and linked. *)
Theorem same_millisecond_creations_share_task s now d1 d2 :
  let c1 := simulateCreateAccount s now d1 in
  let c2 := simulateCreateAccount c1.1 now d2 in
  data_id (resp_data c1.2) = Some (creationTaskId now) ∧
  data_id (resp_data c2.2) = Some (creationTaskId now) ∧
  (∃ s' d, pollTaskStatus c2.1 (Some (creationTaskId now)) defaultAttempts = (s', Returned d) ∧
           data_status d = Some COMPLETED ∧
           data_result d = Some (AccountResult (Some (accountIdOf (S (accountCounter s))))
                                   (Some (identityIdOf (S (identityCounter s))))
                                   (sourceId d2) "success")) ∧
  linked c2.1 (accountIdOf (accountCounter s)) (identityIdOf (identityCounter s)).
Proof.
  intros c1 c2. split; [done|]. split; [done|]. split.
  - unfold pollTaskStatus, c2.
    rewrite (creation_task_poll c1.1 now d2). eexists _, _. split; [reflexivity|].
    unfold c1. rewrite createAccount_state. by cbv zeta.
  - apply (linkedAt_step c1.1 (OpCreateAccount now d2)). apply linkedAt_create.
Qed.

(** * User routes *)

Section Users.

Lemma includes_app_r sub a b : includes sub b = true → includes sub (a +:+ b) = true.
Proof.
  intros H. induction a as [|c a IH]; [done|].
  simpl. rewrite IH. apply orb_true_r.
Qed.

Lemma findIdentityById_identityAt s identityId r o :
  identityAt s identityId r o → findIdentityById s identityId = Some (r, o).
Proof. intros [H _]. unfold findIdentityById. by rewrite H. Qed.

Lemma identityAt_known s identityId r o :
  identityAt s identityId r o → identityKnown s identityId.
Proof. intros [H _]. left. by rewrite H. Qed.

(** What simulateGetUserDetails answers, in terms of the one lookup. *)
Lemma getUserDetails_eq s sailpointIdentityId :
  simulateGetUserDetails s sailpointIdentityId =
  match findIdentityById s sailpointIdentityId with
  | Some (_, o) =>
      if bool_decide (sailpointIdentityId ≠ "")
      then {| dr_status := 200; dr_data := DetailsIdentity (viewOf o) |}
      else {| dr_status := 404;
              dr_data := DetailsMessage ("User details not found for ID " +:+
                                         sailpointIdentityId +:+ " (simulated).") |}
  | None =>
      {| dr_status := 404;
         dr_data := DetailsMessage ("User details not found for ID " +:+
                                    sailpointIdentityId +:+ " (simulated).") |}
  end.
Proof.
  unfold simulateGetUserDetails, simulateSearchIdentity. cbn [q_email q_accountId q_identityId].
  change (truthy None) with false. cbv iota.
  change (toStr (Some sailpointIdentityId)) with sailpointIdentityId.
  change (truthy (Some sailpointIdentityId)) with (bool_decide (sailpointIdentityId ≠ "")).
  destruct (findIdentityById s sailpointIdentityId) as [[r o]|]; [|done].
  by case_bool_decide.
Qed.

Lemma getUser_found s sailpointIdentityId r o :
  sailpointIdentityId ≠ "" →
  findIdentityById s sailpointIdentityId = Some (r, o) →
  getUser s sailpointIdentityId =
  if truthy (o_id o) then Json 200 (mcpUserOf (viewOf o))
  else Next (ApiError 404 ("User details not found for ID " +:+ sailpointIdentityId +:+ ".")).
Proof.
  intros Hne Hf. unfold getUser. rewrite getUserDetails_eq, Hf.
  rewrite bool_decide_false by (intros E; done).
  rewrite bool_decide_true by done. cbn [dr_data dr_status].
  rewrite bool_decide_true by done. done.
Qed.

Lemma getUser_unknown s sailpointIdentityId :
  sailpointIdentityId ≠ "" →
  findIdentityById s sailpointIdentityId = None →
  getUser s sailpointIdentityId =
  Next (ApiError 404 ("User details not found for ID " +:+ sailpointIdentityId +:+ ".")).
Proof.
  intros Hne Hf. unfold getUser. rewrite getUserDetails_eq, Hf.
  by rewrite bool_decide_false.
Qed.

Lemma getUserEntitlements_found s sailpointIdentityId r o :
  sailpointIdentityId ≠ "" →
  findIdentityById s sailpointIdentityId = Some (r, o) →
  getUserEntitlements s sailpointIdentityId =
  Json 200 (mcpEntitlementOf <$> default [] (o_access o)).
Proof.
  intros Hne Hf. unfold getUserEntitlements, simulateGetUserEntitlements. rewrite Hf.
  rewrite bool_decide_false by done. by destruct (o_access o).
Qed.

Lemma step_sameCard s op : heapRel sameCard s (step s op).
Proof.
  apply step_heapRel; unfold sameCard.
  - done.
  - intros a b c H1 H2. congruence.
  - intros o. unfold advance. by destruct (o_status o) as [[]|].
  - intros l o. unfold applyLifecycle. case_bool_decide; [|done].
    unfold card, mcpUserOf, viewOf; simpl. f_equal.
    destruct (o_accounts o) as [accs|]; simpl; [|done].
    rewrite <- list_fmap_compose. by apply list_fmap_ext.
  - intros st i o. unfold card, mcpUserOf, viewOf; simpl. f_equal.
    destruct (o_accounts o) as [accs|]; simpl; [|done].
    revert i. induction accs as [|a accs IH]; intros [|i]; simpl; try done.
    f_equal. apply IH.
Qed.

Lemma identityAt_run_card ops : ∀ s identityId r o,
  reachable s → identityAt s identityId r o →
  ∃ o', identityAt (run s ops) identityId r o' ∧ sameProfile o o' ∧ sameCard o o'.
Proof.
  induction ops as [|op ops IH]; intros s identityId r o Hreach H.
  - exists o. split; [exact H|]. by split.
  - destruct (reachable_wellFormed s Hreach) as (_ & Hinv & _).
    destruct (identityAt_step s op identityId r o Hinv H) as (o1 & H1 & Hp1 & _).
    pose proof H as [Hst _]. apply store_obj_Some in Hst as [_ Hd].
    destruct (step_sameCard s op r o Hd) as (o1' & Hd1 & Hc1).
    pose proof H1 as [Hst1 _]. apply store_obj_Some in Hst1 as [_ Hd1'].
    assert (o1' = o1) as -> by congruence.
    destruct (IH (step s op) identityId r o1 (reachable_step s op Hreach) H1)
      as (o2 & H2 & Hp2 & Hc2).
    exists o2. split; [done|]. unfold sameProfile, sameCard in *. split; congruence.
Qed.

End Users.

(** X4. The answers of GET /users/:id in a reachable state. For an identity
    stored under its id the route answers 200 with the user built from that
    object, whose id is the one asked for; for an id that is neither a key
    of the identities store nor the id of a stored object it passes the
    404 error naming the id; and for the id of a lifecycle task, which
    lives in the same store and is found by the lookup, it passes the same
    404 error, because a task record has no id property. The unknown id is
    taken not to be the name of an Object.prototype member, which a lookup
    in a plain object would find. *)
Theorem user_route_answers s :
  reachable s →
  (∀ identityId r o, identityAt s identityId r o →
     getUser s identityId = Json 200 (mcpUserOf (viewOf o)) ∧
     mu_id (mcpUserOf (viewOf o)) = Some identityId) ∧
  (∀ id, id ≠ "" → plainKey id → ¬ identityKnown s id →
     getUser s id = Next (ApiError 404 ("User details not found for ID " +:+ id +:+ "."))) ∧
  (∀ now, is_Some (store_get (lcsTaskId now) (simulatedIdentitiesStore s)) →
     getUser s (lcsTaskId now) =
     Next (ApiError 404 ("User details not found for ID " +:+ lcsTaskId now +:+ "."))).
Proof.
  intros Hreach. destruct (reachable_wellFormed s Hreach) as (_ & Hinv & _).
  split; [|split].
  - intros identityId r o H. split; [|by destruct H].
    pose proof (identityAt_truthy s identityId r o Hinv H) as Hne.
    rewrite (getUser_found s identityId r o).
    + destruct H as [_ Hid]. rewrite Hid. simpl. by rewrite bool_decide_true.
    + by apply (identityAt_truthy s identityId r o).
    + by apply findIdentityById_identityAt.
  - intros id Hne _ Hunknown. apply getUser_unknown; [done|].
    by apply findIdentityById_None.
  - intros now [r Hget].
    assert (Hne : lcsTaskId now ≠ "") by (unfold lcsTaskId; simpl; discriminate).
    pose proof Hinv as Hall. unfold storeInv in Hall. rewrite Forall_forall in Hall.
    destruct (Hall _ (store_get_elem _ _ _ Hget)) as (_ & Hlen & Hanon). simpl in *.
    destruct (lookup_lt_is_Some_2 (heap s) r Hlen) as [o Hd].
    destruct (Hanon now o eq_refl Hd) as [_ Hid].
    rewrite (getUser_found s (lcsTaskId now) r o Hne).
    + by rewrite Hid.
    + unfold findIdentityById.
      replace (store_obj s (simulatedIdentitiesStore s) (lcsTaskId now)) with (Some (r, o));
        [done|]. symmetry. by apply store_obj_Some.
Qed.

Lemma user_route_answers_witness :
  getUser initialState user1IdentityId = Json 200 (mcpUserOf (viewOf user1Identity)) ∧
  getUser stateTerminated (lcsTaskId 5) =
  Next (ApiError 404 ("User details not found for ID " +:+ lcsTaskId 5 +:+ ".")).
Proof.
  destruct (user_route_answers initialState reachable_init) as (Hyes & _ & _).
  destruct (user_route_answers stateTerminated
              (reachable_step initialState
                 (OpSetLifecycleState 5 user1IdentityId "terminated") reachable_init))
    as (_ & _ & Htask).
  split.
  - apply (Hyes user1IdentityId 1 user1Identity). by split.
  - apply Htask. by eexists.
Defined.

(** X5. No provisioning operation rewrites what the user routes show of an
    identity, its lifecycle state apart. For an identity stored under its id
    in a reachable state and any further run of operations, GET /users/:id
    answers 200 before and after with the same id, display name, email,
    manager and accounts (account id, source name, native identity), and
    GET /users/:id/entitlements gives the same answer before and after. *)
Theorem user_route_answer_changes_only_in_lifecycle_state s ops identityId r o :
  reachable s → identityAt s identityId r o →
  (∃ u u', getUser s identityId = Json 200 u ∧
           getUser (run s ops) identityId = Json 200 u' ∧ card u' = card u) ∧
  getUserEntitlements (run s ops) identityId = getUserEntitlements s identityId ∧
  simulateGetUserEntitlements (run s ops) identityId =
    simulateGetUserEntitlements s identityId.
Proof.
  intros Hreach H.
  destruct (identityAt_run_card ops s identityId r o Hreach H) as (o' & H' & Hp & Hc).
  destruct (reachable_wellFormed s Hreach) as (_ & Hinv & _).
  pose proof (identityAt_truthy s identityId r o Hinv H) as Hne.
  pose proof (findIdentityById_identityAt _ _ _ _ H) as Hf.
  pose proof (findIdentityById_identityAt _ _ _ _ H') as Hf'.
  assert (Hacc : o_access o' = o_access o).
  { unfold sameProfile, profile in Hp. congruence. }
  split; [|split].
  - exists (mcpUserOf (viewOf o)), (mcpUserOf (viewOf o')).
    rewrite (getUser_found s identityId r o Hne Hf).
    rewrite (getUser_found (run s ops) identityId r o' Hne Hf').
    destruct H as [_ ->]. destruct H' as [_ ->]. simpl.
    by rewrite bool_decide_true.
  - rewrite (getUserEntitlements_found s identityId r o Hne Hf).
    rewrite (getUserEntitlements_found (run s ops) identityId r o' Hne Hf').
    by rewrite Hacc.
  - unfold simulateGetUserEntitlements. by rewrite Hf, Hf', Hacc.
Qed.

Lemma user_route_answer_changes_only_in_lifecycle_state_witness :
  getUserEntitlements stateTerminated user1IdentityId =
  getUserEntitlements initialState user1IdentityId.
Proof.
  apply (user_route_answer_changes_only_in_lifecycle_state initialState
           [OpSetLifecycleState 5 user1IdentityId "terminated"] user1IdentityId 1
           user1Identity reachable_init).
  by split.
Defined.



(** * Offboarding a known identity, onboarding with a null item *)

Section LifecycleTask.

(** The status query of a task record that names no account. *)
Lemma getTaskStatus_plain_task s taskId r o :
  taskDetailsOf s taskId = Some (r, o) → o_accountId o = None →
  simulateGetTaskStatus s taskId =
  (mutate r advance s,
   Returned {| resp_status := 200;
               resp_data := DataTask
                 {| ti_id := taskId;
                    ti_type := toStr (or (o_type o) (Some "GENERIC_TASK"));
                    ti_name := o_name o;
                    ti_status := o_status (advance o);
                    ti_result := Some (GenericResult "success"
                                         (toStr (o_name o) +:+
                                          " completed successfully.")) |} |}).
Proof.
  intros Ht Ha. unfold simulateGetTaskStatus. rewrite Ht.
  destruct (advance_fields o) as (-> & _ & -> & ->). by rewrite Ha.
Qed.

Lemma lcsTaskId_not_task_key s now :
  taskKeysInv s → store_get (lcsTaskId now) (simulatedAccountsStore s) = None.
Proof.
  intros Htasks. apply store_get_None. intros r Hin. unfold taskKeysInv in Htasks.
  rewrite Forall_forall in Htasks. destruct (Htasks _ Hin) as (t & [H|H]);
    simpl in H; unfold creationTaskId, disableTaskId, lcsTaskId in H;
    cbn [String.append] in H; discriminate.
Qed.

Lemma lifecycle_task_lookup s now identityId l r o :
  taskKeysInv s → findIdentityById s identityId = Some (r, o) →
  taskDetailsOf (simulateSetLifecycleState s now identityId l).1 (Some (lcsTaskId now)) =
  Some (length (heap s), lifecycleTask identityId l (o_name o)).
Proof.
  intros Htasks Hf. rewrite setLifecycleState_state, Hf. cbv zeta.
  unfold taskDetailsOf, store_obj at 1. simpl.
  rewrite (lcsTaskId_not_task_key s now Htasks). simpl. rewrite length_alter.
  replace (store_obj _ _ _)
    with (Some (length (heap s), lifecycleTask identityId l (o_name o))); [done|].
  symmetry. apply store_obj_Some. split; [apply store_get_set_eq|].
  unfold deref; simpl. apply list_lookup_middle. by rewrite length_alter.
Qed.

(** Two status queries complete a freshly stored lifecycle task. *)
Lemma lifecycle_task_poll s now identityId l r o :
  taskKeysInv s → findIdentityById s identityId = Some (r, o) →
  let s1 := (simulateSetLifecycleState s now identityId l).1 in
  let rt := length (heap s) in
  let name := "Set lifecycle state to " +:+ l +:+ " for " +:+ toStr (o_name o) in
  pollLoop defaultAttempts (Some (lcsTaskId now)) s1 =
  (mutate rt advance (mutate rt advance s1),
   Some (DataTask {| ti_id := Some (lcsTaskId now);
                     ti_type := "LIFECYCLE_STATE_CHANGE_TASK";
                     ti_name := Some name;
                     ti_status := Some COMPLETED;
                     ti_result := Some (GenericResult "success"
                                          (name +:+ " completed successfully.")) |})).
Proof.
  intros Htasks Hf s1 rt name. set (taskId := Some (lcsTaskId now)).
  set (task := lifecycleTask identityId l (o_name o)).
  assert (Ht : taskDetailsOf s1 taskId = Some (rt, task))
    by (by apply (lifecycle_task_lookup s now identityId l r o)).
  pose proof (getTaskStatus_plain_task s1 taskId rt task Ht eq_refl) as G1.
  set (s2 := mutate rt advance s1) in *.
  assert (Ht2 : taskDetailsOf s2 taskId = Some (rt, advance task)).
  { unfold s2. rewrite taskDetailsOf_mutate, Ht. simpl. by rewrite decide_True. }
  pose proof (getTaskStatus_plain_task s2 taskId rt (advance task) Ht2 eq_refl) as G2.
  assert (E1 : stateAfter 1 taskId s1 = s2) by (simpl; by rewrite G1).
  assert (E2 : stateAfter 2 taskId s1 = mutate rt advance s2).
  { change (stateAfter 2 taskId s1)
      with (simulateGetTaskStatus (stateAfter 1 taskId s1) taskId).1.
    by rewrite E1, G2. }
  unfold defaultAttempts.
  rewrite (pollLoop_first 5 taskId s1 1
             (DataTask {| ti_id := taskId; ti_type := "LIFECYCLE_STATE_CHANGE_TASK";
                          ti_name := Some name; ti_status := Some COMPLETED;
                          ti_result := Some (GenericResult "success"
                                               (name +:+ " completed successfully.")) |})).
  - by rewrite E2.
  - lia.
  - intros [|j] Hj; [|lia]. unfold outcomeAt. simpl. by rewrite G1.
  - unfold outcomeAt. by rewrite E1, G2.
Qed.

(** The offboarding route with the pair returned by the service taken
    apart by projections. *)
Lemma offboard_eq (terminatedEnv : option string) s nowTracking nowTask b :
  truthy (contractorSailPointIdentityId b) = true →
  offboard terminatedEnv s nowTracking nowTask b =
  let lcs := simulateSetLifecycleState s nowTask (toStr (contractorSailPointIdentityId b))
               (toStr (or terminatedEnv (Some "terminated"))) in
  let lcsChangeTaskId := data_id (resp_data lcs.2) in
  match pollTaskStatus lcs.1 lcsChangeTaskId defaultAttempts with
  | (s, Threw e) => (s, Failed e)
  | (s, Returned taskResult) =>
      if bool_decide (data_status taskResult = Some COMPLETED) then
        (s, Accepted {| off_mcpTrackingId := "mcp-offboarding-" +:+ pretty nowTracking;
                        sailpointTaskActivityId := lcsChangeTaskId |})
      else
        (s, Failed (ApiError 500
           "Contractor offboarding failed at SailPoint (simulated lifecycle state change)."))
  end.
Proof.
  intros Ht. unfold offboard. rewrite Ht. cbv zeta.
  by destruct (simulateSetLifecycleState _ _ _ _) as [s1 resp].
Qed.

End LifecycleTask.

(** X7. Offboarding an identity that is stored under its id, in a reachable
    state: the route answers 202 with the id of the lifecycle task, which
    two polls have brought to COMPLETED. Afterwards the identity is still
    stored under its id and carries the configured terminated state. When
    that state is the literal terminated (the default), every account
    listed for the identity is disabled; when the environment names another
    state, the account list is left exactly as it was. *)
Theorem offboard_known_identity_completes (terminatedEnv : option string)
    s nowTracking nowTask b identityId r o :
  reachable s →
  contractorSailPointIdentityId b = Some identityId →
  identityAt s identityId r o →
  let l := toStr (or terminatedEnv (Some "terminated")) in
  let res := offboard terminatedEnv s nowTracking nowTask b in
  res.2 = Accepted {| off_mcpTrackingId := "mcp-offboarding-" +:+ pretty nowTracking;
                      sailpointTaskActivityId := Some (lcsTaskId nowTask) |} ∧
  statusOf res.1 (Some (lcsTaskId nowTask)) = Some COMPLETED ∧
  identityAt res.1 identityId r (applyLifecycle l o) ∧
  o_lifecycleState (applyLifecycle l o) = Some l ∧
  simulateListAccountsByIdentity res.1 identityId = accountsOf (applyLifecycle l o) ∧
  (l = "terminated" →
   ∀ a, a ∈ simulateListAccountsByIdentity res.1 identityId → acc_status a = disabled) ∧
  (l ≠ "terminated" →
   simulateListAccountsByIdentity res.1 identityId = simulateListAccountsByIdentity s identityId).
Proof.
  intros Hreach Hb H l res.
  destruct (reachable_wellFormed s Hreach) as (_ & Hinv & Htasks).
  pose proof (identityAt_truthy s identityId r o Hinv H) as Hne.
  pose proof (identityAt_not_task s identityId r o nowTask Hinv H) as Hnt.
  pose proof (findIdentityById_identityAt _ _ _ _ H) as Hf.
  pose proof (lifecycle_task_poll s nowTask identityId l r o Htasks Hf) as Hpoll.
  cbv zeta in Hpoll.
  pose proof (lifecycle_task_lookup s nowTask identityId l r o Htasks Hf) as Hlook.
  set (s1 := (simulateSetLifecycleState s nowTask identityId l).1) in *.
  set (rt := length (heap s)) in *.
  set (s3 := mutate rt advance (mutate rt advance s1)).
  assert (Hres : res = (s3, Accepted {| off_mcpTrackingId := "mcp-offboarding-" +:+
                                                            pretty nowTracking;
                                        sailpointTaskActivityId := Some (lcsTaskId nowTask) |})).
  { unfold res. rewrite offboard_eq by (rewrite Hb; simpl; by rewrite bool_decide_true).
    rewrite Hb. change (toStr (Some identityId)) with identityId. fold l. cbv zeta.
    fold s1. rewrite setLifecycleState_response, Hf. cbn [resp_data data_id ti_id].
    unfold pollTaskStatus. rewrite Hpoll. done. }
  pose proof H as [Hst Hid]. apply store_obj_Some in Hst as [Hget Hd].
  assert (Hrlt : r < rt) by (apply lookup_lt_Some in Hd; exact Hd).
  assert (Hd1 : deref s1 r = Some (applyLifecycle l o)).
  { unfold s1. rewrite setLifecycleState_state, Hf. cbv zeta.
    change (deref (setIdentitiesStore ?k ?x ?y) r) with (deref y r).
    apply deref_alloc_old. rewrite deref_mutate, Hd. by rewrite decide_True. }
  assert (Hd3 : deref s3 r = Some (applyLifecycle l o)).
  { unfold s3. rewrite !deref_mutate, Hd1. by rewrite !decide_False by lia. }
  assert (Hget3 : store_get identityId (simulatedIdentitiesStore s3) = Some r).
  { change (simulatedIdentitiesStore s3) with (simulatedIdentitiesStore s1).
    unfold s1. rewrite setLifecycleState_state, Hf. cbv zeta. simpl.
    rewrite store_get_set_ne by (by apply not_eq_sym). exact Hget. }
  assert (Hat3 : identityAt s3 identityId r (applyLifecycle l o)).
  { split; [by apply store_obj_Some|].
    destruct (kept_applyLifecycle l o) as (-> & _). exact Hid. }
  assert (Hlist : simulateListAccountsByIdentity s3 identityId =
                  accountsOf (applyLifecycle l o)).
  { unfold simulateListAccountsByIdentity.
    by rewrite (findIdentityById_identityAt _ _ _ _ Hat3). }
  rewrite Hres. cbn [fst snd]. split; [done|]. split.
  { unfold statusOf, s3. rewrite !taskDetailsOf_mutate, Hlook. simpl.
    by rewrite !decide_True. }
  split; [exact Hat3|]. split; [apply applyLifecycle_lifecycleState|].
  split; [exact Hlist|]. split.
  - intros Hl a. rewrite Hlist, Hl. apply applyLifecycle_terminated.
  - intros Hl. rewrite Hlist. unfold simulateListAccountsByIdentity. rewrite Hf.
    unfold accountsOf. by rewrite applyLifecycle_other.
Qed.

Lemma offboard_known_identity_completes_witness :
  (offboard None initialState 1 5
     {| contractorSailPointIdentityId := Some user1IdentityId; justification := None;
        revokeAllAccess := true |}).2 =
  Accepted {| off_mcpTrackingId := "mcp-offboarding-1";
              sailpointTaskActivityId := Some (lcsTaskId 5) |}.
Proof.
  apply (offboard_known_identity_completes None initialState 1 5
           {| contractorSailPointIdentityId := Some user1IdentityId; justification := None;
              revokeAllAccess := true |} user1IdentityId 1
           user1Identity reachable_init eq_refl).
  by split.
Defined.

Section NullItem.

Variable sailPointPost : string → AccessRequestPayload → Completion PostResponse.

Lemma submitInitialAccess_null_error identityId items :
  ItemNull ∈ items →
  (submitInitialAccess sailPointPost identityId items).2 =
  Some (TypeError "Cannot read properties of null (reading 'type')").
Proof.
  induction items as [|item items IH]; intros Hnull; [by apply elem_of_nil in Hnull|].
  apply elem_of_cons in Hnull as [<-|Hin]; [done|].
  cbn [submitInitialAccess]. destruct item; cbn [snd]; by rewrite ?(IH Hin).
Qed.

End NullItem.

(** X8. A null element in initialAccess makes the onboarding fail with the
    TypeError of reading its type, whatever the access-request client does,
    and only after the account was created and its task polled to
    completion: the new account and identity stay stored and linked, and
    both counters have moved on. Nothing is rolled back. *)
Theorem onboard_null_item_fails_after_creation
    (sourceEnv : option string)
    (sailPointPost : string → AccessRequestPayload → Completion PostResponse)
    s nowTracking nowCreate b attrs items :
  ob_attributes b = Some attrs →
  truthy (firstName b) = true → truthy (lastName b) = true →
  truthy (email b) = true → truthy (managerSailPointId b) = true →
  initialAccess b = Some items → ItemNull ∈ items →
  let res := onboard sourceEnv sailPointPost s nowTracking nowCreate b in
  res.2 = Failed (TypeError "Cannot read properties of null (reading 'type')") ∧
  linked res.1 (accountIdOf (accountCounter s)) (identityIdOf (identityCounter s)) ∧
  accountCounter res.1 = S (accountCounter s) ∧
  identityCounter res.1 = S (identityCounter s) ∧
  statusOf res.1 (Some (creationTaskId nowCreate)) = Some COMPLETED.
Proof.
  intros Hattrs Hf Hl He Hm Hitems Hnull res.
  unfold res, onboard.
  rewrite (onboardRoute_valid sourceEnv sailPointPost s nowTracking nowCreate b attrs
             Hattrs Hf Hl He Hm).
  cbv zeta. set (d := {| sourceId := _; attributes := _ |}). cbn [fst snd].
  split.
  - unfold onboardAfterPoll. cbn [data_status data_result ti_status ti_result mbind
      option_bind result_accountId].
    rewrite bool_decide_true by done. rewrite accountId_truthy. cbn [andb].
    unfold resolveIdentityId.
    cbn [data_result ti_result mbind option_bind result_identityId].
    rewrite !identityId_truthy. rewrite Hitems.
    destruct items as [|i items]; [by apply elem_of_nil in Hnull|].
    by rewrite (submitInitialAccess_null_error sailPointPost _ (i :: items) Hnull).
  - rewrite (stateAfter_creation_task s nowCreate d).
    pose proof (linkedAt_create s nowCreate d) as [Hlk _].
    split; [by do 2 apply linked_mutate_advance|].
    split; [by rewrite createAccount_state|]. split; [by rewrite createAccount_state|].
    unfold statusOf. rewrite !taskDetailsOf_mutate, creation_task_lookup. simpl.
    by rewrite !decide_True.
Qed.

Lemma onboard_null_item_fails_after_creation_witness :
  (onboard None rejectBadId initialState 1 2
     {| firstName := Some "Ann"; lastName := Some "Lee"; email := Some "ann@x.com";
        managerSailPointId := Some (identityIdOf 0);
        ob_attributes := Some [("department", "IT")];
        initialAccess := Some [ItemString "good-id"; ItemNull];
        endDate := None |}).2 =
  Failed (TypeError "Cannot read properties of null (reading 'type')").
Proof.
  apply (onboard_null_item_fails_after_creation None rejectBadId initialState 1 2 _
           [("department", "IT")] [ItemString "good-id"; ItemNull]); try reflexivity.
  right. left.
Defined.

(** * Request mocks, approval and access-request routes *)

(** Unfolds [+:+] on a string whose head is known. *)
Ltac app_cons :=
  repeat first
    [ progress change (String ?c ?a +:+ ?b) with (String c (a +:+ b))
    | progress change (EmptyString +:+ ?b) with b ].

Section Strings.

Lemma append_nil_r (s : string) : s +:+ "" = s.
Proof.
  induction s as [|c s IH]; [done|].
  change (String c s +:+ "") with (String c (s +:+ "")). by rewrite IH.
Qed.

Lemma append_assoc (a b c : string) : (a +:+ b) +:+ c = a +:+ (b +:+ c).
Proof.
  induction a as [|x a IH]; [done|].
  change ((String x a +:+ b) +:+ c) with (String x ((a +:+ b) +:+ c)). by rewrite IH.
Qed.

Lemma prefix_app sub x t :
  noOverlap sub t = true → String.prefix sub (x +:+ t) = String.prefix sub x.
Proof.
  revert sub. induction x as [|c x IH]; intros sub Hno.
  - app_cons. destruct sub as [|a sub]; [by destruct t|]. cbn [noOverlap] in Hno.
    apply andb_true_iff in Hno as [Hp _]. apply negb_true_iff in Hp.
    by rewrite Hp.
  - app_cons. destruct sub as [|a sub]; [done|]. cbn [noOverlap] in Hno.
    apply andb_true_iff in Hno as [_ Hno]. cbn [String.prefix].
    destruct (Ascii.ascii_dec a c); [|done]. by apply IH.
Qed.

Lemma includes_empty sub : includes sub "" = String.prefix sub "".
Proof. simpl. apply orb_false_r. Qed.

Lemma includes_app sub x t :
  noOverlap sub t = true → includes sub (x +:+ t) = includes sub x || includes sub t.
Proof.
  intros Hno. induction x as [|c x IH].
  - app_cons. rewrite includes_empty.
    destruct sub as [|a sub]; [by destruct t|done].
  - app_cons.
    cbn [includes]. rewrite IH.
    change (String c (x +:+ t)) with (String c x +:+ t).
    rewrite (prefix_app sub (String c x) t Hno). by rewrite orb_assoc.
Qed.

Lemma splitFrom_head sep piece s :
  head (splitFrom sep 0 piece s) = Some (piece +:+ before sep s).
Proof.
  revert piece. induction s as [|c s IH]; intros piece.
  - cbn [splitFrom before head]. by rewrite append_nil_r.
  - cbn [splitFrom before]. destruct (String.prefix sep (String c s)).
    + cbn [head]. by rewrite append_nil_r.
    + rewrite IH. by rewrite append_assoc.
Qed.

Lemma splitFrom_none sep piece s :
  includes sep s = false → splitFrom sep 0 piece s = [piece +:+ s].
Proof.
  revert piece. induction s as [|c s IH]; intros piece Hno.
  - cbn [splitFrom]. by rewrite append_nil_r.
  - cbn [includes] in Hno. apply orb_false_iff in Hno as [Hp Hi].
    cbn [splitFrom]. rewrite Hp, (IH _ Hi). by rewrite append_assoc.
Qed.

Lemma before_none sep s : includes sep s = false → before sep s = s.
Proof.
  induction s as [|c s IH]; intros Hno; [done|].
  cbn [includes] in Hno. apply orb_false_iff in Hno as [Hp Hi].
  cbn [before]. by rewrite Hp, (IH Hi).
Qed.

Lemma occurs_before c sep s : occurs c s = false → occurs c (before sep s) = false.
Proof.
  induction s as [|a s IH]; intros Hno; [done|].
  cbn [occurs] in Hno. apply orb_false_iff in Hno as [Ha Hs].
  cbn [before]. destruct (String.prefix sep (String a s)); [done|].
  cbn [occurs]. by rewrite Ha, (IH Hs).
Qed.

Lemma removeAll_absent c s : occurs c s = false → removeAll c s = s.
Proof.
  induction s as [|a s IH]; intros Hno; [done|].
  cbn [occurs] in Hno. apply orb_false_iff in Hno as [Ha Hs].
  apply bool_decide_eq_false in Ha. simpl. rewrite decide_False by done.
  by rewrite (IH Hs).
Qed.

Lemma removeAll_before_closing sep x :
  noOverlap sep (String dquote "") = true →
  removeAll dquote (before sep (x +:+ String dquote "")) = removeAll dquote (before sep x).
Proof.
  intros Hno. induction x as [|c x IH].
  - app_cons.
    cbn [before]. destruct (String.prefix sep (String dquote "")); [done|].
    reflexivity.
  - app_cons.
    cbn [before].
    change (String c (x +:+ String dquote "")) with (String c x +:+ String dquote "").
    rewrite (prefix_app sep (String c x) _ Hno).
    destruct (String.prefix sep (String c x)); [done|].
    cbn [removeAll]. by rewrite IH.
Qed.

End Strings.

Section Decisions.

Lemma approveEndpoint_includes approvalId :
  includes "/approve" (approveEndpoint approvalId) = true.
Proof.
  unfold approveEndpoint. apply includes_app_r. by apply includes_app_r.
Qed.

Lemma rejectEndpoint_includes approvalId :
  includes "/reject" (rejectEndpoint approvalId) = true.
Proof.
  unfold rejectEndpoint. apply includes_app_r. by apply includes_app_r.
Qed.

Lemma rejectEndpoint_approve approvalId :
  includes "/approve" (rejectEndpoint approvalId) = includes "/approve" ("/" +:+ approvalId).
Proof.
  unfold rejectEndpoint. app_cons. simpl.
  rewrite (prefix_app "approve" approvalId "/reject") by reflexivity.
  rewrite (includes_app "/approve" approvalId "/reject") by reflexivity.
  change (includes "/approve" "/reject") with false. by rewrite orb_false_r.
Qed.

Lemma approveEndpoint_other approvalId : approveEndpoint approvalId ≠ "/v3/access-requests".
Proof. unfold approveEndpoint. app_cons. discriminate. Qed.

Lemma rejectEndpoint_other approvalId : rejectEndpoint approvalId ≠ "/v3/access-requests".
Proof. unfold rejectEndpoint. app_cons. discriminate. Qed.

Lemma post_approve {B} now approvalId (body : B) :
  Service.sailPointPost now (approveEndpoint approvalId) body =
  {| Service.pr_status := 200;
     Service.pr_data := Service.PostDecision "approved"
                          "Request approved successfully (simulated)" |}.
Proof.
  unfold Service.sailPointPost.
  rewrite bool_decide_false by apply approveEndpoint_other.
  by rewrite approveEndpoint_includes.
Qed.

Lemma post_reject {B} now approvalId (body : B) :
  Service.sailPointPost now (rejectEndpoint approvalId) body =
  {| Service.pr_status := 200;
     Service.pr_data :=
       if includes "/approve" ("/" +:+ approvalId)
       then Service.PostDecision "approved" "Request approved successfully (simulated)"
       else Service.PostDecision "rejected" "Request rejected successfully (simulated)" |}.
Proof.
  unfold Service.sailPointPost.
  rewrite bool_decide_false by apply rejectEndpoint_other.
  rewrite rejectEndpoint_approve, rejectEndpoint_includes.
  by destruct (includes "/approve" ("/" +:+ approvalId)).
Qed.

End Decisions.

(** X9. With the request mock of the service, the two decision routes
    cannot fail once their input passes validation: for a non-empty
    approval id and a non-empty comment, approve and reject both answer 200
    with status SUCCESS and their own message, whatever the id is; an empty
    id, and then an absent or empty comment, is a 400 error. *)
Theorem approval_decisions_always_accepted now approvalId comment :
  (approvalId ≠ "" → truthy comment = true →
   approve now approvalId comment =
     Json 200 {| aa_status := "SUCCESS";
                 aa_message := "Approval submitted successfully (simulated)." |} ∧
   reject now approvalId comment =
     Json 200 {| aa_status := "SUCCESS";
                 aa_message := "Rejection submitted successfully (simulated)." |}) ∧
  (approvalId ≠ "" → truthy comment = false →
   approve now approvalId comment = Next (ApiError 400 "Comment is required for approval.") ∧
   reject now approvalId comment = Next (ApiError 400 "Comment is required for rejection.")) ∧
  (approvalId = "" →
   approve now approvalId comment = Next (ApiError 400 "approvalId parameter is required.") ∧
   reject now approvalId comment = Next (ApiError 400 "approvalId parameter is required.")).
Proof.
  split; [|split].
  - intros Hid Hc. unfold approve, reject. rewrite !bool_decide_false by done.
    rewrite Hc. cbn [negb].
    fold (approveEndpoint approvalId). fold (rejectEndpoint approvalId).
    by rewrite post_approve, post_reject.
  - intros Hid Hc. unfold approve, reject. rewrite !bool_decide_false by done.
    by rewrite Hc.
  - intros ->. done.
Qed.

Lemma approval_decisions_always_accepted_witness :
  reject 7 "approvalId123" (Some "not needed") =
  Json 200 {| aa_status := "SUCCESS";
              aa_message := "Rejection submitted successfully (simulated)." |} ∧
  approve 7 "approvalId123" None = Next (ApiError 400 "Comment is required for approval.").
Proof.
  destruct (approval_decisions_always_accepted 7 "approvalId123" (Some "not needed"))
    as (Hyes & _ & _).
  destruct (approval_decisions_always_accepted 7 "approvalId123" None) as (_ & Hno & _).
  split; [apply Hyes | apply Hno]; done.
Defined.

(** X10. How the request mock tells the two decisions apart. It tests the
    endpoint for the text /approve before it tests for /reject, so the
    approve endpoint is always answered as an approval, and the reject
    endpoint of an approval id is answered as a rejection exactly when the
    id, with the slash before it, does not contain /approve; otherwise the
    mock answers the rejection as an approval. Both answers have status
    200. *)
Theorem decision_mock_tests_approve_first {B : Type} now approvalId (body : B) :
  Service.sailPointPost now (approveEndpoint approvalId) body =
    {| Service.pr_status := 200;
       Service.pr_data := Service.PostDecision "approved"
                            "Request approved successfully (simulated)" |} ∧
  Service.pr_status (Service.sailPointPost now (rejectEndpoint approvalId) body) = 200 ∧
  (Service.pr_data (Service.sailPointPost now (rejectEndpoint approvalId) body) =
     Service.PostDecision "rejected" "Request rejected successfully (simulated)"
   ↔ includes "/approve" ("/" +:+ approvalId) = false) ∧
  (Service.pr_data (Service.sailPointPost now (rejectEndpoint approvalId) body) =
     Service.PostDecision "approved" "Request approved successfully (simulated)"
   ↔ includes "/approve" ("/" +:+ approvalId) = true).
Proof.
  rewrite post_approve, post_reject. cbn [Service.pr_status Service.pr_data].
  split; [done|]. split; [done|].
  destruct (includes "/approve" ("/" +:+ approvalId)); split; split; done.
Qed.

Section Submissions.

Lemma mapItems_null justification items :
  RequestItemNull ∈ items →
  mapItems justification items =
  Threw (TypeError "Cannot read properties of null (reading 'id')").
Proof.
  induction items as [|item items IH]; intros Hnull; [by apply elem_of_nil in Hnull|].
  apply elem_of_cons in Hnull as [<-|Hin]; [done|].
  destruct item as [id type comment|]; [|done]. simpl. by rewrite (IH Hin).
Qed.

Lemma mapItems_all justification items :
  RequestItemNull ∉ items →
  ∃ l, mapItems justification items = Returned l ∧ length l = length items ∧
       ∀ i id type comment, items !! i = Some (RequestItem id type comment) →
         l !! i = Some {| si_id := id; si_type := type;
                          si_comment := or comment justification |}.
Proof.
  induction items as [|item items IH]; intros Hnull.
  - exists []. by repeat split.
  - rewrite not_elem_of_cons in Hnull. destruct Hnull as [Hitem Hrest].
    destruct (IH Hrest) as (l & Hl & Hlen & Hat).
    destruct item as [id type comment|]; [|done].
    eexists. simpl. rewrite Hl. split; [reflexivity|]. split; [simpl; by rewrite Hlen|].
    intros [|i] id' type' comment' Hi; simpl in *; [by injection Hi as -> -> ->|].
    by apply Hat.
Qed.

End Submissions.

(** X11. The outcomes of POST /access-requests with the request mock of the
    service. A requestedFor or items property that is absent, not an array
    or empty is a 400 error, requestedFor being checked first. A null
    element of items makes the route pass the TypeError of reading its id.
    Every other request is answered 202 with status PENDING and the
    activity id made from the clock reading, and the payload it submits has
    one entry per item, whose comment is the comment of the item or, when
    that is absent or empty, the justification of the request. *)
Theorem access_request_submission_outcomes now b :
  (default [] (rb_requestedFor b) = [] →
   submitAccessRequest now b =
   Next (ApiError 400 "requestedFor is required and must be a non-empty array.")) ∧
  (default [] (rb_requestedFor b) ≠ [] → default [] (rb_items b) = [] →
   submitAccessRequest now b =
   Next (ApiError 400 "items is required and must be a non-empty array.")) ∧
  (default [] (rb_requestedFor b) ≠ [] → RequestItemNull ∈ default [] (rb_items b) →
   submitAccessRequest now b =
   Next (TypeError "Cannot read properties of null (reading 'id')")) ∧
  (default [] (rb_requestedFor b) ≠ [] → default [] (rb_items b) ≠ [] →
   RequestItemNull ∉ default [] (rb_items b) →
   submitAccessRequest now b =
   Json 202 {| sa_requestId := "task-sim-" +:+ pretty now; sa_status := "PENDING";
               sa_message := "Access request submitted successfully. Status can be tracked." |}
   ∧ ∃ requestedItems,
       mapItems (rb_justification b) (default [] (rb_items b)) = Returned requestedItems ∧
       length requestedItems = length (default [] (rb_items b)) ∧
       ∀ i id type comment,
         default [] (rb_items b) !! i = Some (RequestItem id type comment) →
         si_comment <$> requestedItems !! i = Some (or comment (rb_justification b))).
Proof.
  unfold submitAccessRequest.
  destruct (rb_requestedFor b) as [[|who requestedFor]|]; simpl;
    [by repeat split..| |by repeat split].
  split; [done|].
  destruct (rb_items b) as [[|item items]|]; cbn [from_option id].
  - split; [done|]. split; [intros _ H; by apply elem_of_nil in H|]. done.
  - split; [done|]. split.
    + intros _ Hnull. by rewrite (mapItems_null _ _ Hnull).
    + intros _ _ Hnull.
      destruct (mapItems_all (rb_justification b) (item :: items) Hnull)
        as (l & Hl & Hlen & Hat).
      rewrite Hl. split; [done|]. exists l. split; [done|]. split; [done|].
      intros i id type comment Hi. by rewrite (Hat i id type comment Hi).
  - split; [done|]. split; [intros _ H; by apply elem_of_nil in H|]. done.
Qed.

Lemma access_request_submission_outcomes_witness :
  submitAccessRequest 9
    {| rb_requestedFor := Some ["id-1"];
       rb_items := Some [RequestItem (Some "ap-1") (Some "ACCESS_PROFILE") None];
       rb_justification := Some "needed" |} =
  Json 202 {| sa_requestId := "task-sim-9"; sa_status := "PENDING";
              sa_message := "Access request submitted successfully. Status can be tracked." |}.
Proof.
  destruct (access_request_submission_outcomes 9
              {| rb_requestedFor := Some ["id-1"];
                 rb_items := Some [RequestItem (Some "ap-1") (Some "ACCESS_PROFILE") None];
                 rb_justification := Some "needed" |}) as (_ & _ & _ & Hok).
  apply Hok; simpl; [done | done |].
  rewrite not_elem_of_cons. split; [done | apply not_elem_of_nil].
Defined.

Section StatusMock.

Variable toISOString : nat → string.

Lemma split_statusFilter sailpointActivityId :
  split " eq " (statusFilter sailpointActivityId) !! 1 =
  Some (String dquote (before " eq " (sailpointActivityId +:+ String dquote ""))).
Proof.
  unfold split, statusFilter. app_cons. cbn [splitFrom String.prefix String.length].
  simpl. rewrite <- head_lookup, splitFrom_head. by app_cons.
Qed.

Lemma statusFilter_truthy sailpointActivityId :
  truthy (Some (statusFilter sailpointActivityId)) = true.
Proof. unfold statusFilter. app_cons. by apply bool_decide_eq_true. Qed.

Lemma sailPointGet_status now sailpointActivityId :
  Service.sailPointGet toISOString now "/v3/access-request-status"
    (Some (statusFilter sailpointActivityId)) =
  Returned
    {| Service.get_status := None;
       Service.get_data := Service.GetActivity
         {| Service.as_id := echoedId sailpointActivityId;
            Service.as_status := "COMPLETED";
            Service.as_requestedItemsStatus :=
              [ {| Service.ris_id := "accessProfileId1";
                   Service.ris_name := "Mock Access Profile";
                   Service.ris_status := "APPROVED";
                   Service.ris_type := "ACCESS_PROFILE" |} ];
            Service.as_created := toISOString now;
            Service.as_requester := ("mockUserId", "Mock Requesting User") |} |}.
Proof.
  unfold Service.sailPointGet.
  change (startsWith "/v3/access-request-status" "/v3/access-request-status") with true.
  cbv iota. rewrite statusFilter_truthy.
  change (toStr (Some (statusFilter sailpointActivityId)))
    with (statusFilter sailpointActivityId).
  rewrite split_statusFilter. unfold echoedId.
  replace (removeAll dquote (String dquote (before " eq " (sailpointActivityId +:+
                                                            String dquote ""))))
    with (removeAll dquote (before " eq " sailpointActivityId)); [done|].
  cbn [removeAll]. rewrite decide_True by done.
  symmetry. by apply removeAll_before_closing.
Qed.

End StatusMock.

(** X12. The status route sends its id to the mock inside the filter
    id eq followed by the quoted id, and the mock reads it back by splitting
    at the text eq between spaces and deleting double quotes. So the
    request id in the 200 answer is the id cut at its first such eq and
    stripped of double quotes: the id itself when it holds neither; and when
    nothing is left of the id, the route passes a plain error with status
    404. *)
Theorem access_request_status_echoes_id (toISOString : nat → string) now sailpointActivityId :
  sailpointActivityId ≠ "" →
  (echoedId sailpointActivityId ≠ "" →
   accessRequestStatus toISOString now sailpointActivityId =
   Json 200 {| st_requestId := echoedId sailpointActivityId;
               st_status := "COMPLETED";
               st_requestedItems :=
                 [ {| is_id := "accessProfileId1"; is_type := "ACCESS_PROFILE";
                      is_name := "Mock Access Profile"; is_status := "APPROVED" |} ];
               st_created := toISOString now;
               st_requester := ("mockUserId", "Mock Requesting User") |}) ∧
  (echoedId sailpointActivityId = "" →
   accessRequestStatus toISOString now sailpointActivityId =
   NextPlain 404 "Access request status not found or failed to retrieve from SailPoint.") ∧
  (occurs dquote sailpointActivityId = false →
   includes " eq " sailpointActivityId = false →
   echoedId sailpointActivityId = sailpointActivityId).
Proof.
  intros Hne. unfold accessRequestStatus. rewrite bool_decide_false by done.
  rewrite sailPointGet_status. cbn [Service.get_data Service.get_status Service.as_id].
  split; [|split].
  - intros He. by rewrite bool_decide_true.
  - intros He. by rewrite bool_decide_false by (by intros []).
  - intros Hq Heq. unfold echoedId. rewrite (before_none _ _ Heq).
    by apply removeAll_absent.
Qed.

Lemma access_request_status_echoes_id_witness :
  accessRequestStatus (λ _, "2024-01-01T00:00:00.000Z") 3 "task-sim-9" =
  Json 200 {| st_requestId := "task-sim-9"; st_status := "COMPLETED";
              st_requestedItems :=
                [ {| is_id := "accessProfileId1"; is_type := "ACCESS_PROFILE";
                     is_name := "Mock Access Profile"; is_status := "APPROVED" |} ];
              st_created := "2024-01-01T00:00:00.000Z";
              st_requester := ("mockUserId", "Mock Requesting User") |}.
Proof.
  apply (access_request_status_echoes_id (λ _, "2024-01-01T00:00:00.000Z") 3 "task-sim-9");
    done.
Defined.

(** X13. What the status mock does with the filter it is given, for every
    endpoint that starts with the status path. Without a filter, or with an
    empty one, the activity id is unknownActivityId. With a filter that
    does not contain eq between spaces there is no second piece to read, and
    the call throws the TypeError of calling replace on undefined. *)
Theorem status_mock_filter_edges (toISOString : nat → string) now endpoint filters :
  startsWith "/v3/access-request-status" endpoint = true →
  (truthy filters = false →
   ∃ response a, Service.sailPointGet toISOString now endpoint filters = Returned response ∧
                 Service.get_data response = Service.GetActivity a ∧
                 Service.as_id a = "unknownActivityId" ∧
                 Service.get_status response = None) ∧
  (truthy filters = true → includes " eq " (toStr filters) = false →
   Service.sailPointGet toISOString now endpoint filters =
   Threw (TypeError "Cannot read properties of undefined (reading 'replace')")).
Proof.
  intros Hstart. unfold Service.sailPointGet. rewrite Hstart. split.
  - intros ->. by eexists _, _.
  - intros -> Hno. unfold split. by rewrite (splitFrom_none _ _ _ Hno).
Qed.

Lemma status_mock_filter_edges_witness :
  Service.sailPointGet (λ _, "2024-01-01T00:00:00.000Z") 3
    "/v3/access-request-status" (Some "id=abc") =
  Threw (TypeError "Cannot read properties of undefined (reading 'replace')").
Proof.
  apply (status_mock_filter_edges (λ _, "2024-01-01T00:00:00.000Z") 3
           "/v3/access-request-status" (Some "id=abc")); done.
Defined.

(** * The onboarded contractor as the user route shows it *)

Section Onboarded.

Variable SAILPOINT_CONTRACTOR_SOURCE_ID : option string.
Variable sailPointPost : string → AccessRequestPayload → Completion PostResponse.

Lemma attr_get_set_eq k v a : attr_get k (attr_set k v a) = Some v.
Proof.
  induction a as [|[k' v'] a IH]; simpl; [by rewrite decide_True|].
  destruct (decide (k' = k)) as [->|Hne]; simpl.
  - by rewrite decide_True.
  - by rewrite decide_False.
Qed.

Lemma attr_get_set_ne k k' v a : k' ≠ k → attr_get k (attr_set k' v a) = attr_get k a.
Proof.
  intros Hne. induction a as [|[k0 v0] a IH]; simpl; [by rewrite decide_False|].
  destruct (decide (k0 = k')) as [->|Hne0]; simpl.
  - by rewrite !decide_False.
  - destruct (decide (k0 = k)); [done | exact IH].
Qed.

Lemma onboardAttributes_mail b a :
  attr_get "mail" (onboardAttributes b a) = Some (toStr (email b)).
Proof.
  unfold onboardAttributes. rewrite !attr_get_set_ne by done. apply attr_get_set_eq.
Qed.

Lemma onboardAttributes_displayName b a :
  attr_get "displayName" (onboardAttributes b a) =
  Some (toStr (firstName b) +:+ " " +:+ toStr (lastName b)).
Proof.
  unfold onboardAttributes. rewrite !attr_get_set_ne by done. apply attr_get_set_eq.
Qed.

Lemma displayName_nonempty (x y : string) : x +:+ " " +:+ y ≠ "".
Proof. destruct x; app_cons; discriminate. Qed.

Lemma or_truthy (x : string) y : x ≠ "" → or (Some x) y = Some x.
Proof.
  intros Hx. unfold or. change (truthy (Some x)) with (bool_decide (x ≠ "")).
  by rewrite bool_decide_true.
Qed.

Lemma newIdentityName_onboard b a :
  newIdentityName (onboardAttributes b a) = toStr (firstName b) +:+ " " +:+ toStr (lastName b).
Proof.
  unfold newIdentityName. rewrite onboardAttributes_displayName.
  by rewrite or_truthy by apply displayName_nonempty.
Qed.

(** The state a valid onboarding request leaves, whatever becomes of the
    access requests. *)
Lemma onboard_state s nowTracking nowCreate b attrs :
  ob_attributes b = Some attrs →
  truthy (firstName b) = true → truthy (lastName b) = true →
  truthy (email b) = true → truthy (managerSailPointId b) = true →
  let d := {| sourceId := toStr (or SAILPOINT_CONTRACTOR_SOURCE_ID
                                    (Some "mockContractorSourceId"));
              attributes := onboardAttributes b attrs |} in
  (onboard SAILPOINT_CONTRACTOR_SOURCE_ID sailPointPost s nowTracking nowCreate b).1 =
  run s [OpCreateAccount nowCreate d; OpGetTaskStatus (Some (creationTaskId nowCreate));
         OpGetTaskStatus (Some (creationTaskId nowCreate))].
Proof.
  intros Hattrs Hf Hl He Hm d.
  unfold onboard.
  by rewrite (onboardRoute_valid SAILPOINT_CONTRACTOR_SOURCE_ID sailPointPost s nowTracking
                nowCreate b attrs Hattrs Hf Hl He Hm).
Qed.

Lemma created_identityAt s now d ops :
  let s2 := run (simulateCreateAccount s now d).1 ops in
  reachable s →
  ∃ r o, identityAt s2 (identityIdOf (identityCounter s)) r o ∧
         sameCard (newIdentity (accountIdOf (accountCounter s))
                     (identityIdOf (identityCounter s)) d) o.
Proof.
  intros s2 Hreach.
  set (a := accountIdOf (accountCounter s)). set (i := identityIdOf (identityCounter s)).
  set (ri := length (heap s ++ [creationTask a d])).
  assert (H1 : identityAt (simulateCreateAccount s now d).1 i ri (newIdentity a i d)).
  { split; [|done]. apply store_obj_Some. rewrite createAccount_state. cbv zeta. simpl.
    split; [apply store_get_set_eq|]. unfold deref; simpl. by apply list_lookup_middle. }
  destruct (identityAt_run_card ops _ i ri _
              (reachable_step s (OpCreateAccount now d) Hreach) H1) as (o & Ho & _ & Hc).
  by exists ri, o.
Qed.

End Onboarded.

(** X14. After an onboarding request that passes validation, in a reachable
    state, and after any further provisioning operations, GET /users/:id
    with the identity id the onboarding created answers 200 with that id,
    the display name made of the first and last name of the request, the
    email of the request and the one new account. The manager of the
    request is kept as an attribute only: the user shown has no manager. *)
Theorem onboarded_contractor_shown_by_user_route
    (sourceEnv : option string)
    (sailPointPost : string → AccessRequestPayload → Completion PostResponse)
    s nowTracking nowCreate b attrs first last mail ops :
  reachable s →
  ob_attributes b = Some attrs →
  firstName b = Some first → first ≠ "" →
  lastName b = Some last → last ≠ "" →
  email b = Some mail → mail ≠ "" →
  truthy (managerSailPointId b) = true →
  let s' := (onboard sourceEnv sailPointPost s nowTracking nowCreate b).1 in
  ∃ u, getUser (run s' ops) (identityIdOf (identityCounter s)) = Json 200 u ∧
       mu_id u = Some (identityIdOf (identityCounter s)) ∧
       mu_displayName u = Some (first +:+ " " +:+ last) ∧
       mu_email u = Some mail ∧
       mu_manager u = None ∧
       ma_accountId <$> mu_accounts u = [accountIdOf (accountCounter s)].
Proof.
  intros Hreach Hattrs Hfirst Hfne Hlast Hlne Hmail Hmne Hm s'.
  assert (Htf : truthy (firstName b) = true)
    by (rewrite Hfirst; by apply bool_decide_eq_true).
  assert (Htl : truthy (lastName b) = true)
    by (rewrite Hlast; by apply bool_decide_eq_true).
  assert (Hte : truthy (email b) = true)
    by (rewrite Hmail; by apply bool_decide_eq_true).
  unfold s'. rewrite (onboard_state sourceEnv sailPointPost s nowTracking nowCreate b attrs
                        Hattrs Htf Htl Hte Hm).
  cbv zeta. set (d := {| sourceId := _; attributes := _ |}).
  change (run (run s [OpCreateAccount nowCreate d; ?x; ?y]) ops)
    with (run (simulateCreateAccount s nowCreate d).1 (x :: y :: ops)).
  destruct (created_identityAt s nowCreate d
              (OpGetTaskStatus (Some (creationTaskId nowCreate))
               :: OpGetTaskStatus (Some (creationTaskId nowCreate)) :: ops) Hreach)
    as (r & o & Hat & Hcard).
  set (s2 := run _ _) in *.
  assert (Hreach2 : reachable s2).
  { apply reachable_run. apply (reachable_step s (OpCreateAccount nowCreate d) Hreach). }
  destruct (reachable_wellFormed s2 Hreach2) as (_ & Hinv & _).
  pose proof (identityAt_truthy s2 _ r o Hinv Hat) as Hne.
  exists (mcpUserOf (viewOf o)).
  rewrite (getUser_found s2 _ r o Hne (findIdentityById_identityAt _ _ _ _ Hat)).
  destruct Hat as [_ Hid]. rewrite Hid.
  change (truthy (Some (identityIdOf (identityCounter s))))
    with (bool_decide (identityIdOf (identityCounter s) ≠ "")).
  rewrite bool_decide_true by done. split; [done|].
  unfold sameCard, card in Hcard. injection Hcard as E1 E2 E3 E4 E5.
  split; [exact E1|]. split; [|split; [|split]].
  - change (mu_displayName (mcpUserOf (viewOf o)))
      with (or (o_name o) (o_attributes o ≫= attr_get "displayName")).
    rewrite E2, newIdentityName_onboard, Hfirst, Hlast.
    apply or_truthy, displayName_nonempty.
  - change (mu_email (mcpUserOf (viewOf o)))
      with (or (o_attributes o ≫= attr_get "mail") (o_attributes o ≫= attr_get "email")).
    rewrite E3, onboardAttributes_mail, Hmail. by apply or_truthy.
  - exact E4.
  - change (mu_accounts (mcpUserOf (viewOf o)))
      with (match o_accounts o with
            | Some accounts =>
                (λ acc, {| ma_accountId := acc_id acc; ma_sourceName := sourceName acc;
                           ma_nativeIdentity := nativeIdentity acc |}) <$> accounts
            | None => []
            end).
    by rewrite E5.
Qed.

Lemma onboarded_contractor_shown_by_user_route_witness :
  ∃ u, getUser (onboard None rejectBadId initialState 1 2 exampleOnboardBody).1
         (identityIdOf 2) = Json 200 u ∧
       mu_displayName u = Some "Ann Lee" ∧ mu_manager u = None.
Proof.
  destruct (onboarded_contractor_shown_by_user_route None rejectBadId initialState 1 2
              exampleOnboardBody [("department", "IT")] "Ann" "Lee" "ann@x.com" []
              reachable_init) as (u & Hu & _ & Hd & _ & Hm & _); try done.
  by exists u.
Defined.

(** X15. Only createAccount consumes ids, one account id and one identity
    id per call: after any run of operations both counters have grown by
    the number of createAccount calls in it, so the numbers of the new
    account and the new identity of a call stay in step. *)
Theorem counters_count_creations s ops :
  accountCounter (run s ops) = accountCounter s + creations ops ∧
  identityCounter (run s ops) = identityCounter s + creations ops.
Proof.
  revert s. induction ops as [|op ops IH]; intros s; [simpl; lia|].
  change (run s (op :: ops)) with (run (step s op) ops).
  destruct (IH (step s op)) as [-> ->].
  destruct op as [now d|taskId|now a|now i l]; cbn [step creations].
  - rewrite createAccount_state. cbv zeta. simpl. lia.
  - by case_task s taskId.
  - rewrite disableAccount_state. destruct (findTargetAccount _ _) as [[[k r] j]|]; [|done].
    simpl. by destruct (disabledState_fields s a k r j) as (_ & _ & -> & ->).
  - rewrite setLifecycleState_state. by destruct (findIdentityById s i) as [[r o]|].
Qed.

(** * Identity keys used as task ids *)

Section IdentityKeys.

Lemma step_sameTaskView s op : heapRel sameTaskView s (step s op).
Proof.
  apply step_heapRel; unfold sameTaskView.
  - intros o. by repeat split.
  - intros a b c (E1 & E2 & E3 & E4) (F1 & F2 & F3 & F4).
    repeat split; try congruence. auto.
  - intros o. destruct (advance_fields o) as (-> & _ & -> & ->).
    repeat split. intros Hs. unfold advance. by rewrite Hs.
  - intros l o. unfold applyLifecycle. case_bool_decide; by repeat split.
  - intros st i o. by repeat split.
Qed.

(** The object stored under a handed-out key, followed through a run. *)
Lemma key_run_sameTaskView ops : ∀ s k r o,
  identityKeyOK s k → (∀ t, k ≠ lcsTaskId t) →
  store_obj s (simulatedIdentitiesStore s) k = Some (r, o) →
  ∃ o', store_obj (run s ops) (simulatedIdentitiesStore (run s ops)) k = Some (r, o') ∧
        sameTaskView o o'.
Proof.
  induction ops as [|op ops IH]; intros s k r o Hk Hnt Hst.
  - exists o. split; [done|]. by repeat split.
  - apply store_obj_Some in Hst as [Hget Hd].
    destruct (step_sameTaskView s op r o Hd) as (o1 & Hd1 & Hv1).
    assert (Hget1 : store_get k (simulatedIdentitiesStore (step s op)) = Some r).
    { destruct Hk as [(n & Hn & ->)|[(n & Hn & ->)|(t & ->)]].
      - by rewrite step_keeps_identity_key.
      - by rewrite step_keeps_account_key.
      - by destruct (Hnt t). }
    assert (Hk1 : identityKeyOK (step s op) k).
    { pose proof (step_counters s op) as [Ha Hi].
      destruct Hk as [(n & Hn & ->)|[(n & Hn & ->)|(t & ->)]].
      - left. exists n. split; [lia|done].
      - right. left. exists n. split; [lia|done].
      - by destruct (Hnt t). }
    destruct (IH (step s op) k r o1 Hk1 Hnt) as (o2 & Hst2 & Hv2);
      [by apply store_obj_Some |].
    exists o2. split; [done|].
    destruct Hv1 as (E1 & E2 & E3 & E4), Hv2 as (F1 & F2 & F3 & F4).
    repeat split; try congruence. auto.
Qed.

Lemma task_key_not_identity_key s k :
  taskKeysInv s → identityKeyOK s k → (∀ t, k ≠ lcsTaskId t) →
  store_get k (simulatedAccountsStore s) = None.
Proof.
  intros Htasks Hk Hnt. apply store_get_None. intros r Hin. unfold taskKeysInv in Htasks.
  rewrite Forall_forall in Htasks.
  destruct (Htasks _ Hin) as (t & [H|H]); simpl in H;
    destruct Hk as [(n & _ & ->)|[(n & _ & ->)|(t' & ->)]];
    try (by destruct (Hnt t'));
    unfold creationTaskId, disableTaskId, identityIdOf, accountIdOf in H;
    revert H; app_cons; discriminate.
Qed.

(** The status query and the poller on a stored object that has no
    status and names no account. *)
Lemma statusless_query s k r o :
  taskDetailsOf s (Some k) = Some (r, o) →
  o_accountId o = None → o_type o = None → o_status o = None →
  simulateGetTaskStatus s (Some k) = (s, Returned (identitySnapshot k (o_name o))).
Proof.
  intros Ht Ha Hty Hs.
  rewrite (getTaskStatus_plain_task s (Some k) r o Ht Ha).
  assert (Hadv : advance o = o) by (unfold advance; by rewrite Hs).
  rewrite (mutate_fixed r advance s o (taskDetailsOf_deref _ _ _ _ Ht) Hadv).
  by rewrite Hadv, Hty, Hs.
Qed.

Lemma statusless_poll s k r o n :
  taskDetailsOf s (Some k) = Some (r, o) →
  o_accountId o = None → o_type o = None → o_status o = None →
  pollLoop n (Some k) s = (s, None).
Proof.
  intros Ht Ha Hty Hs. induction n as [|n IH]; [done|].
  rewrite pollLoop_unfold, (statusless_query s k r o Ht Ha Hty Hs). exact IH.
Qed.

Lemma created_key_statusless s now d ops k :
  reachable s →
  k = identityIdOf (identityCounter s) ∨ k = accountIdOf (accountCounter s) →
  let s2 := run (simulateCreateAccount s now d).1 ops in
  ∃ r o, taskDetailsOf s2 (Some k) = Some (r, o) ∧
         o_accountId o = None ∧ o_type o = None ∧ o_status o = None ∧
         o_name o = Some (newIdentityName (attributes d)).
Proof.
  intros Hreach Hk s2.
  set (a := accountIdOf (accountCounter s)). set (i := identityIdOf (identityCounter s)).
  set (s1 := (simulateCreateAccount s now d).1).
  set (ri := length (heap s ++ [creationTask a d])).
  assert (Hd1 : deref s1 ri = Some (newIdentity a i d)).
  { unfold s1. rewrite createAccount_state. cbv zeta. unfold deref; simpl.
    by apply list_lookup_middle. }
  assert (Hget1 : store_get k (simulatedIdentitiesStore s1) = Some ri).
  { unfold s1. rewrite createAccount_state. cbv zeta. simpl.
    destruct Hk as [->| ->]; [apply store_get_set_eq|].
    rewrite store_get_set_ne by (intros H; symmetry in H; by apply accountId_not_identityId in H).
    apply store_get_set_eq. }
  assert (Hk1 : identityKeyOK s1 k).
  { unfold s1. rewrite createAccount_state. cbv zeta.
    destruct Hk as [->| ->]; [left | right; left]; eexists; (split; [|reflexivity]); simpl; lia. }
  assert (Hnt : ∀ t, k ≠ lcsTaskId t).
  { intros t. destruct Hk as [->| ->];
      [apply identityId_not_lcsTaskId | apply accountId_not_lcsTaskId]. }
  destruct (key_run_sameTaskView ops s1 k ri (newIdentity a i d) Hk1 Hnt) as (o & Hst & Hv);
    [by apply store_obj_Some|].
  fold s2 in Hst.
  assert (Hreach2 : reachable s2).
  { apply reachable_run. apply (reachable_step s (OpCreateAccount now d) Hreach). }
  destruct (reachable_wellFormed s2 Hreach2) as (_ & Hinv & Htasks).
  assert (Hk2 : identityKeyOK s2 k).
  { pose proof Hst as Hst'. apply store_obj_Some in Hst' as [Hget _].
    apply store_get_elem in Hget. unfold storeInv in Hinv. rewrite Forall_forall in Hinv.
    by destruct (Hinv _ Hget) as (? & _). }
  exists ri, o. destruct Hv as (E1 & E2 & E3 & E4). split.
  - unfold taskDetailsOf. change (toStr (Some k)) with k.
    unfold store_obj at 1. rewrite (task_key_not_identity_key s2 k Htasks Hk2 Hnt).
    simpl. exact Hst.
  - rewrite E1, E2, E3. repeat split. by apply E4.
Qed.

End IdentityKeys.

(** X16. The keys of the identities store are accepted as task ids. For
    the identity createAccount makes in a reachable state, and after any
    further operations, a status query with its identity id, or with its
    account id, answers 200 with a snapshot of type GENERIC_TASK that has
    the name of the identity, no status and a success result, and changes
    nothing; polling such an id never sees COMPLETED, so it uses up its
    attempts and fails with the 500 error, the state still unchanged. *)
Theorem identity_key_answers_as_task s now d ops attempts :
  reachable s →
  let s2 := run (simulateCreateAccount s now d).1 ops in
  let identityId := identityIdOf (identityCounter s) in
  let accountId := accountIdOf (accountCounter s) in
  let name := Some (newIdentityName (attributes d)) in
  simulateGetTaskStatus s2 (Some identityId) =
    (s2, Returned (identitySnapshot identityId name)) ∧
  simulateGetTaskStatus s2 (Some accountId) =
    (s2, Returned (identitySnapshot accountId name)) ∧
  pollTaskStatus s2 (Some identityId) attempts =
    (s2, Threw (ApiError 500 (timeoutMessage (Some identityId) attempts))).
Proof.
  intros Hreach s2 identityId accountId name.
  destruct (created_key_statusless s now d ops identityId Hreach (or_introl eq_refl))
    as (r & o & Ht & Ha & Hty & Hs & Hn).
  destruct (created_key_statusless s now d ops accountId Hreach (or_intror eq_refl))
    as (r' & o' & Ht' & Ha' & Hty' & Hs' & Hn').
  fold s2 in Ht, Ht'. unfold name. rewrite <- Hn at 1. rewrite <- Hn'.
  split; [by apply (statusless_query s2 identityId r o)|].
  split; [by apply (statusless_query s2 accountId r' o')|].
  unfold pollTaskStatus.
  by rewrite (statusless_poll s2 identityId r o attempts Ht Ha Hty Hs).
Qed.

Lemma identity_key_answers_as_task_witness :
  pollTaskStatus stateCreated (Some (identityIdOf 2)) 5 =
  (stateCreated,
   Threw (ApiError 500 "Task simulated-identityId-2 did not complete after 5 attempts.")).
Proof.
  apply (identity_key_answers_as_task initialState 1 exampleAccountData [] 5 reachable_init).
Defined.

(** * Login route and token check *)

Section AuthLemmas.

Lemma prefix_split p h : String.prefix p h = true → ∃ t, h = p +:+ t.
Proof.
  revert h. induction p as [|a p IH]; intros h Hp; [by exists h|].
  destruct h as [|c h]; [done|]. cbn [String.prefix] in Hp.
  destruct (Ascii.ascii_dec a c) as [->|]; [|done].
  destruct (IH h Hp) as [t ->]. by exists t.
Qed.

Lemma prefix_nil t : String.prefix "" t = true.
Proof. by destruct t. Qed.

Lemma mockUsers_cases k u :
  (k, u) ∈ Auth.mockUsers →
  (k, u) = ("contractor1",
            {| Auth.userId := "contractor1-id"; Auth.username := "contractor1";
               Auth.password := "password123"; Auth.roles := ["contractor"];
               Auth.sailpointIdentityId := "sailpoint-id-contractor1" |}) ∨
  (k, u) = ("manager1",
            {| Auth.userId := "manager1-id"; Auth.username := "manager1";
               Auth.password := "password456"; Auth.roles := ["manager"; "approver"];
               Auth.sailpointIdentityId := "sailpoint-id-manager1" |}) ∨
  (k, u) = ("admin1",
            {| Auth.userId := "admin1-id"; Auth.username := "admin1";
               Auth.password := "adminpassword"; Auth.roles := ["admin"; "approver"];
               Auth.sailpointIdentityId := "sailpoint-id-admin1" |}).
Proof.
  unfold Auth.mockUsers. rewrite !elem_of_cons, elem_of_nil. tauto.
Qed.

Lemma ownUser_elem key u : Auth.ownUser key Auth.mockUsers = Some u → (key, u) ∈ Auth.mockUsers.
Proof.
  unfold Auth.mockUsers. simpl.
  repeat (destruct (decide (_ = key)) as [<-|_];
          [intros [= <-]; rewrite !elem_of_cons; tauto|]).
  done.
Qed.

End AuthLemmas.

(** X17. Who gets a token from POST /auth/login. With a userId in the body
    the password is never looked at: the userId or the username of any user
    of the table, given as userId, selects that user, whatever username and
    password the body holds; and a userId that is the name of an
    Object.prototype member selects the inherited member, so that jwt.sign
    is called with a payload whose properties are all undefined. Without a
    userId, a username with the password of that user selects the user, and
    a username and password that match no user of the table are answered
    with the 401 error. *)
Theorem login_by_user_id_needs_no_password
    (jwtSign : Auth.TokenPayload → option string) username password :
  let signed userToSign :=
    match jwtSign (Auth.payloadOf userToSign) with
    | Some token => Auth.LoginToken token
    | None => Auth.LoginPlainError "Internal server error: Could not generate token."
    end in
  (∀ k u id, (k, u) ∈ Auth.mockUsers → id = Auth.userId u ∨ id = k →
     Auth.login jwtSign username password (Some id) = signed (Auth.SignUser u)) ∧
  (∀ id, id ∈ objectPrototypeNames →
     Auth.login jwtSign username password (Some id) = signed Auth.SignInherited) ∧
  (∀ k u, (k, u) ∈ Auth.mockUsers →
     Auth.login jwtSign (Some k) (Some (Auth.password u)) None = signed (Auth.SignUser u)) ∧
  (∀ name pw, name ≠ "" → pw ≠ "" →
     (∀ u, (name, u) ∈ Auth.mockUsers → Auth.password u ≠ pw) →
     Auth.login jwtSign (Some name) (Some pw) None =
     Auth.LoginError (ApiError 401 "Invalid credentials or user not found.")).
Proof.
  intros signed. split; [|split; [|split]].
  - intros k u id Hin Hid.
    destruct (mockUsers_cases k u Hin) as [E|[E|E]]; injection E as -> ->;
      destruct Hid as [->| ->]; reflexivity.
  - intros id Hin. unfold objectPrototypeNames in Hin.
    rewrite !elem_of_cons, elem_of_nil in Hin.
    repeat (destruct Hin as [->|Hin]; [reflexivity|]). done.
  - intros k u Hin.
    destruct (mockUsers_cases k u Hin) as [E|[E|E]]; injection E as -> ->; reflexivity.
  - intros name pw Hname Hpw Hno. unfold Auth.login, Auth.selectUser.
    change (truthy None) with false. cbv iota.
    change (truthy (Some name)) with (bool_decide (name ≠ "")).
    change (truthy (Some pw)) with (bool_decide (pw ≠ "")).
    rewrite !bool_decide_true by done. cbn [andb].
    change (toStr (Some name)) with name. change (toStr (Some pw)) with pw.
    unfold Auth.lookupUser.
    destruct (Auth.ownUser name Auth.mockUsers) as [u|] eqn:Hu.
    + apply ownUser_elem in Hu. rewrite bool_decide_false by (by apply Hno). done.
    + by destruct (bool_decide (name ∈ objectPrototypeNames)).
Qed.

Lemma login_by_user_id_needs_no_password_witness :
  Auth.login (λ _, Some "token") None (Some "wrong") (Some "admin1-id") =
  Auth.LoginToken "token" ∧
  Auth.login (λ _, Some "token") (Some "admin1") (Some "wrong") None =
  Auth.LoginError (ApiError 401 "Invalid credentials or user not found.").
Proof.
  destruct (login_by_user_id_needs_no_password (λ _, Some "token") None (Some "wrong"))
    as (Hid & _ & _ & _).
  destruct (login_by_user_id_needs_no_password (λ _, Some "token") None None)
    as (_ & _ & _ & Hpw).
  split.
  - apply (Hid "admin1" {| Auth.userId := "admin1-id"; Auth.username := "admin1";
                           Auth.password := "adminpassword";
                           Auth.roles := ["admin"; "approver"];
                           Auth.sailpointIdentityId := "sailpoint-id-admin1" |} "admin1-id").
    + unfold Auth.mockUsers. rewrite !elem_of_cons. tauto.
    + by left.
  - apply Hpw; [done | done |].
    intros u Hin. destruct (mockUsers_cases _ _ Hin) as [E|[E|E]];
      try discriminate E. by injection E as ->.
Defined.

(** X18. What authenticateToken takes for the token. It answers 401 No
    token provided exactly when the request has no authorization header.
    A header that is the empty string, or that does not start with Bearer
    and a space, is not rejected as a missing token: jwt.verify is called
    with the empty string, or with false, and decides. For a header made
    of Bearer, a space and a text, the token verified is that text up to
    its first space. An expired token is a 401 error, any other
    verification error a 403 error. *)
Theorem missing_token_only_without_header
    (U : Type) (jwtVerify : Auth.TokenArg → Auth.VerifyResult U) authHeader :
  (Auth.authenticateToken U jwtVerify authHeader =
     Auth.Reject (ApiError 401 "Unauthorized: No token provided.")
   ↔ authHeader = None) ∧
  (authHeader = Some "" →
   Auth.authenticateToken U jwtVerify authHeader =
   Auth.verdict U (jwtVerify (Auth.TokenString ""))) ∧
  (∀ h, authHeader = Some h → h ≠ "" → startsWith "Bearer " h = false →
   Auth.authenticateToken U jwtVerify authHeader =
   Auth.verdict U (jwtVerify Auth.TokenFalse)) ∧
  (∀ t, authHeader = Some ("Bearer " +:+ t) →
   Auth.authenticateToken U jwtVerify authHeader =
   Auth.verdict U (jwtVerify (Auth.TokenString (before " " t)))).
Proof.
  assert (Hbearer : ∀ t, Auth.tokenOf (Some ("Bearer " +:+ t)) =
                         Some (Auth.TokenString (before " " t))).
  { intros t.
    assert (Hs : startsWith "Bearer " ("Bearer " +:+ t) = true)
      by (unfold startsWith; app_cons; simpl; apply prefix_nil).
    unfold Auth.tokenOf. rewrite bool_decide_false by (app_cons; done). rewrite Hs.
    unfold split. app_cons. simpl. rewrite prefix_nil. simpl.
    by rewrite <- head_lookup, splitFrom_head. }
  assert (Hverdict : ∀ r, Auth.verdict U r ≠
                          Auth.Reject (ApiError 401 "Unauthorized: No token provided.")).
  { intros [name|user]; simpl; [|done]. by case_bool_decide. }
  split; [|split; [|split]].
  - split; [|by intros ->]. destruct authHeader as [h|]; [|done].
    unfold Auth.authenticateToken. intros H. exfalso.
    destruct (decide (h = "")) as [->|Hne]; [by apply (Hverdict _ H)|].
    destruct (startsWith "Bearer " h) eqn:Hs.
    + apply prefix_split in Hs as [t ->]. rewrite Hbearer in H. by apply (Hverdict _ H).
    + unfold Auth.tokenOf in H. rewrite bool_decide_false, Hs in H by done.
      by apply (Hverdict _ H).
  - by intros ->.
  - intros h -> Hne Hs. unfold Auth.authenticateToken, Auth.tokenOf.
    by rewrite bool_decide_false, Hs.
  - intros t ->. unfold Auth.authenticateToken. by rewrite Hbearer.
Qed.

Lemma missing_token_only_without_header_witness :
  Auth.authenticateToken nat (λ _, Auth.VerifyError "JsonWebTokenError") (Some "Basic abc") =
  Auth.Reject (ApiError 403 "Forbidden: Invalid token.").
Proof.
  destruct (missing_token_only_without_header nat (λ _, Auth.VerifyError "JsonWebTokenError")
              (Some "Basic abc")) as (_ & _ & Hother & _).
  by rewrite (Hother "Basic abc").
Defined.

(** * Stored tasks and the poller *)

Section StoredTasks.

Lemma step_sameTaskFields s op : heapRel sameTaskFields s (step s op).
Proof.
  apply step_heapRel; unfold sameTaskFields.
  - intros o. by repeat split.
  - intros a b c (E1 & E2 & E3) (F1 & F2 & F3). repeat split; try congruence. auto.
  - intros o. destruct (advance_fields o) as (-> & -> & _).
    repeat split. intros [st Hs]. rewrite (advance_status o st Hs). by eexists.
  - intros l o. unfold applyLifecycle. case_bool_decide; by repeat split.
  - intros st i o. by repeat split.
Qed.

Lemma creationRecord_step s op o o' :
  creationRecord s o → sameTaskFields o o' → creationRecord (step s op) o'.
Proof.
  intros (n & m & d & Ha & Hd & Hl & Hs) (E1 & E2 & E3).
  exists n, m, d. rewrite E1, E2.
  split; [done|]. split; [done|]. split; [by apply linkedAt_step | by apply E3].
Qed.

Lemma accountTasksInv_step s op : accountTasksInv s → accountTasksInv (step s op).
Proof.
  unfold accountTasksInv. rewrite !Forall_forall. intros Hinv.
  assert (Hold : ∀ kr, kr ∈ simulatedAccountsStore s →
            ∃ o, deref (step s op) kr.2 = Some o ∧
                 (o_accountData o = None ∨ creationRecord (step s op) o)).
  { intros kr Hin. destruct (Hinv kr Hin) as (o & Hd & Ho).
    destruct (step_sameTaskFields s op _ _ Hd) as (o' & Hd' & Hf).
    exists o'. split; [done|]. destruct Ho as [Hnone|Hrec].
    - left. destruct Hf as (_ & -> & _). done.
    - right. by apply (creationRecord_step s op o). }
  intros kr Hin. destruct op as [now d|taskId|now a|now i l]; cbn [step] in *.
  - rewrite createAccount_state in Hin. cbv zeta in Hin. simpl in Hin.
    apply store_set_elem in Hin as [->|Hin]; [|by apply Hold].
    exists (creationTask (accountIdOf (accountCounter s)) d). split.
    + rewrite createAccount_state. cbv zeta. unfold deref; simpl.
      rewrite <- app_assoc. by apply list_lookup_middle.
    + right. exists (accountCounter s), (identityCounter s), d.
      split; [done|]. split; [done|]. split; [apply linkedAt_create | by eexists].
  - apply Hold. revert Hin. by case_task s taskId.
  - revert Hin. rewrite disableAccount_state.
    destruct (findTargetAccount _ _) as [[[k r] j]|] eqn:Hf; [|intros Hin].
    + simpl. destruct (disabledState_fields s a k r j) as (_ & -> & _).
      intros Hin. apply store_set_elem in Hin as [->|Hin].
      * exists (disableTask a). split; [|by left].
        unfold deref; simpl. by apply list_lookup_middle.
      * pose proof (Hold kr Hin) as H. by rewrite disableAccount_state, Hf in H.
    + pose proof (Hold kr Hin) as H. by rewrite disableAccount_state, Hf in H.
  - apply Hold. revert Hin. rewrite setLifecycleState_state.
    by destruct (findIdentityById s i) as [[r o]|].
Qed.

Lemma lifecycleTasksInv_step s op : lifecycleTasksInv s → lifecycleTasksInv (step s op).
Proof.
  unfold lifecycleTasksInv. rewrite !Forall_forall. intros Hinv.
  assert (Hold : ∀ kr, kr ∈ simulatedIdentitiesStore s →
            ∀ t, kr.1 = lcsTaskId t →
                 ∃ o, deref (step s op) kr.2 = Some o ∧ o_accountId o = None ∧
                      is_Some (o_status o)).
  { intros kr Hin t Ht. destruct (Hinv kr Hin t Ht) as (o & Hd & Ha & Hs).
    destruct (step_sameTaskFields s op _ _ Hd) as (o' & Hd' & E1 & _ & E3).
    exists o'. split; [done|]. split; [congruence | by apply E3]. }
  intros kr Hin. destruct op as [now d|taskId|now a|now i l]; cbn [step] in *.
  - rewrite createAccount_state in Hin. cbv zeta in Hin. simpl in Hin.
    apply store_set_elem in Hin as [->|Hin].
    { intros t Ht. simpl in Ht. by apply identityId_not_lcsTaskId in Ht. }
    apply store_set_elem in Hin as [->|Hin]; [|by apply Hold].
    intros t Ht. simpl in Ht. by apply accountId_not_lcsTaskId in Ht.
  - apply Hold. revert Hin. by case_task s taskId.
  - revert Hin. rewrite disableAccount_state.
    destruct (findTargetAccount _ _) as [[[k r] j]|] eqn:Hf; [|intros Hin].
    + simpl. destruct (disabledState_fields s a k r j) as (-> & _).
      intros Hin t Ht. pose proof (Hold kr Hin t Ht) as H.
      by rewrite disableAccount_state, Hf in H.
    + intros t Ht. pose proof (Hold kr Hin t Ht) as H.
      by rewrite disableAccount_state, Hf in H.
  - revert Hin. rewrite setLifecycleState_state.
    destruct (findIdentityById s i) as [[r o]|] eqn:Hf; [|intros Hin].
    + simpl. intros Hin. apply store_set_elem in Hin as [->|Hin].
      * intros t _. exists (lifecycleTask i l (o_name o)). split; [|by split; [|eexists]].
        unfold deref; simpl. apply list_lookup_middle. by rewrite length_alter.
      * intros t Ht. pose proof (Hold kr Hin t Ht) as H.
        by rewrite setLifecycleState_state, Hf in H.
    + intros t Ht. pose proof (Hold kr Hin t Ht) as H.
      by rewrite setLifecycleState_state, Hf in H.
Qed.

Lemma reachable_tasksInv s : reachable s → accountTasksInv s ∧ lifecycleTasksInv s.
Proof.
  induction 1 as [|s op _ [IHa IHl]].
  - split; [apply Forall_nil_2|].
    unfold lifecycleTasksInv. apply Forall_forall. intros kr Hin t Ht.
    simpl in Hin. rewrite !elem_of_cons, elem_of_nil in Hin.
    destruct Hin as [->|[->|[]]]; simpl in Ht; by apply identityId_not_lcsTaskId in Ht.
  - split; [by apply accountTasksInv_step | by apply lifecycleTasksInv_step].
Qed.

(** One query that reports COMPLETED ends the poll; any other goes on. *)
Lemma poll_done n s taskId s1 resp :
  simulateGetTaskStatus s taskId = (s1, Returned resp) →
  data_status (resp_data resp) = Some COMPLETED →
  pollLoop (S n) taskId s = (s1, Some (resp_data resp)).
Proof.
  intros Hq Hs. rewrite pollLoop_unfold, Hq. simpl. by rewrite bool_decide_true.
Qed.

Lemma poll_on n s taskId s1 resp :
  simulateGetTaskStatus s taskId = (s1, Returned resp) →
  data_status (resp_data resp) ≠ Some COMPLETED →
  pollLoop (S n) taskId s = pollLoop n taskId s1.
Proof.
  intros Hq Hs. rewrite pollLoop_unfold, Hq. simpl. by rewrite bool_decide_false.
Qed.

Lemma account_task_resolves s k r o a i d :
  taskDetailsOf s (Some k) = Some (r, o) →
  o_accountId o = Some a → truthy (Some a) = true → o_accountData o = Some d →
  linked s a i → is_Some (o_status o) →
  ∃ s' t, pollLoop defaultAttempts (Some k) s = (s', Some (DataTask t)) ∧
          ti_status t = Some COMPLETED ∧
          ti_result t = Some (AccountResult (Some a) (Some i) (sourceId d) "success").
Proof.
  intros Ht Ha Htr Hd Hl [st Hst].
  pose proof (getTaskStatus_account_task s (Some k) r o a i d Ht Ha Htr Hd Hl) as G1.
  pose proof (advance_status o st Hst) as Hadv. unfold defaultAttempts.
  destruct st; simpl in Hadv.
  - rewrite (poll_on _ _ _ _ _ G1) by (simpl; by rewrite Hadv).
    assert (Ht2 : taskDetailsOf (mutate r advance s) (Some k) = Some (r, advance o)).
    { rewrite taskDetailsOf_mutate, Ht. simpl. by rewrite decide_True. }
    destruct (advance_fields o) as (Fa & Fd & _).
    pose proof (getTaskStatus_account_task (mutate r advance s) (Some k) r (advance o) a i d
                  Ht2 (eq_trans Fa Ha) Htr (eq_trans Fd Hd)
                  (linked_mutate_advance s r a i Hl)) as G2.
    pose proof (advance_status (advance o) PROCESSING Hadv) as Hadv2. simpl in Hadv2.
    rewrite (poll_done _ _ _ _ _ G2) by (simpl; by rewrite Hadv2).
    eexists _, _. split; [reflexivity|]. by split.
  - rewrite (poll_done _ _ _ _ _ G1) by (simpl; by rewrite Hadv).
    eexists _, _. split; [reflexivity|]. by split.
  - rewrite (poll_done _ _ _ _ _ G1) by (simpl; by rewrite Hadv).
    eexists _, _. split; [reflexivity|]. by split.
Qed.

Lemma plain_task_resolves s k r o :
  taskDetailsOf s (Some k) = Some (r, o) →
  o_accountId o = None → is_Some (o_status o) →
  ∃ s' t m, pollLoop defaultAttempts (Some k) s = (s', Some (DataTask t)) ∧
            ti_status t = Some COMPLETED ∧
            ti_result t = Some (GenericResult "success" m).
Proof.
  intros Ht Ha [st Hst].
  pose proof (getTaskStatus_plain_task s (Some k) r o Ht Ha) as G1.
  pose proof (advance_status o st Hst) as Hadv. unfold defaultAttempts.
  destruct st; simpl in Hadv.
  - rewrite (poll_on _ _ _ _ _ G1) by (simpl; by rewrite Hadv).
    assert (Ht2 : taskDetailsOf (mutate r advance s) (Some k) = Some (r, advance o)).
    { rewrite taskDetailsOf_mutate, Ht. simpl. by rewrite decide_True. }
    destruct (advance_fields o) as (Fa & _).
    pose proof (getTaskStatus_plain_task (mutate r advance s) (Some k) r (advance o)
                  Ht2 (eq_trans Fa Ha)) as G2.
    pose proof (advance_status (advance o) PROCESSING Hadv) as Hadv2. simpl in Hadv2.
    rewrite (poll_done _ _ _ _ _ G2) by (simpl; by rewrite Hadv2).
    eexists _, _, _. split; [reflexivity|]. by split.
  - rewrite (poll_done _ _ _ _ _ G1) by (simpl; by rewrite Hadv).
    eexists _, _, _. split; [reflexivity|]. by split.
  - rewrite (poll_done _ _ _ _ _ G1) by (simpl; by rewrite Hadv).
    eexists _, _, _. split; [reflexivity|]. by split.
Qed.

End StoredTasks.

(** X19. In a reachable state every account-creation task and every
    lifecycle task that is stored resolves when it is polled, whatever
    status it has reached: pollTaskStatus with the default five attempts
    returns a COMPLETED snapshot. For a creation task, the record with
    account data under a key of the accounts store, the result carries the
    account id of the record, the id of the identity stored under that
    account id, and the source id of the account data; for a lifecycle task
    id of the identities store the result is the generic success
    message. *)
Theorem stored_tasks_resolve_when_polled s :
  reachable s →
  (∀ k r o d,
     store_obj s (simulatedAccountsStore s) k = Some (r, o) → o_accountData o = Some d →
     ∃ s' t a i,
       pollTaskStatus s (Some k) defaultAttempts = (s', Returned (DataTask t)) ∧
       ti_status t = Some COMPLETED ∧
       ti_result t = Some (AccountResult (Some a) (Some i) (sourceId d) "success") ∧
       o_accountId o = Some a ∧ linked s a i) ∧
  (∀ now,
     is_Some (store_get (lcsTaskId now) (simulatedIdentitiesStore s)) →
     ∃ s' t m,
       pollTaskStatus s (Some (lcsTaskId now)) defaultAttempts = (s', Returned (DataTask t)) ∧
       ti_status t = Some COMPLETED ∧
       ti_result t = Some (GenericResult "success" m)).
Proof.
  intros Hreach. destruct (reachable_tasksInv s Hreach) as [Hacc Hlcs].
  destruct (reachable_wellFormed s Hreach) as (_ & _ & Htasks).
  unfold accountTasksInv in Hacc. unfold lifecycleTasksInv in Hlcs.
  rewrite Forall_forall in Hacc, Hlcs. split.
  - intros k r o d Hst Hd.
    assert (Ht : taskDetailsOf s (Some k) = Some (r, o)).
    { unfold taskDetailsOf. change (toStr (Some k)) with k. by rewrite Hst. }
    apply store_obj_Some in Hst as [Hget Hderef].
    destruct (Hacc _ (store_get_elem _ _ _ Hget)) as (o' & Hd' & Ho'). simpl in Hd'.
    assert (o' = o) as -> by congruence.
    destruct Ho' as [Hnone|(n & m & d' & Ha & Hd2 & [Hl _] & Hs)]; [congruence|].
    destruct (account_task_resolves s k r o (accountIdOf n) (identityIdOf m) d Ht Ha
                (accountId_truthy n) Hd Hl Hs) as (s' & t & Hpoll & Hcomp & Hres).
    exists s', t, (accountIdOf n), (identityIdOf m).
    unfold pollTaskStatus. rewrite Hpoll. by repeat split.
  - intros now [r Hget].
    destruct (Hlcs _ (store_get_elem _ _ _ Hget) now eq_refl) as (o & Hd & Ha & Hs).
    simpl in Hd.
    assert (Ht : taskDetailsOf s (Some (lcsTaskId now)) = Some (r, o)).
    { unfold taskDetailsOf. change (toStr (Some (lcsTaskId now))) with (lcsTaskId now).
      unfold store_obj at 1. rewrite (lcsTaskId_not_task_key s now Htasks). simpl.
      by apply store_obj_Some. }
    destruct (plain_task_resolves s (lcsTaskId now) r o Ht Ha Hs)
      as (s' & t & m & Hpoll & Hcomp & Hres).
    exists s', t, m. unfold pollTaskStatus. rewrite Hpoll. by repeat split.
Qed.

Lemma stored_tasks_resolve_when_polled_witness :
  ∃ s' t, pollTaskStatus stateTerminated (Some (lcsTaskId 5)) defaultAttempts =
          (s', Returned (DataTask t)) ∧ ti_status t = Some COMPLETED.
Proof.
  destruct (stored_tasks_resolve_when_polled stateTerminated
              (reachable_step initialState
                 (OpSetLifecycleState 5 user1IdentityId "terminated") reachable_init))
    as (_ & Hlcs).
  destruct (Hlcs 5) as (s' & t & m & Hpoll & Hcomp & _); [by eexists|].
  by exists s', t.
Defined.
